(** * go-eva: DOA pipeline, message codec and cloud link

    A shallow embedding of the parts of the daemon that its specification
    makes testable claims about, followed by the theorems that settle them.

    Conventions of the embedding.
    - [float64] values are exact rationals ([Q]).  Rounding, infinities and
      NaN are outside the model; every statement about angles and
      confidences is a statement of exact arithmetic.
    - [time.Time] readings of the monotonic clock and [time.Duration] values
      are integers ([Z], nanoseconds); the saturation of [Time.Sub] and the
      wrap-around of [int64] arithmetic are written out.
    - Everything the environment decides (what the USB device answers, what
      the clock shows, whether a dial succeeds) is an explicit input.
    - A Go run-time panic is the [None] of an [option]. *)

From Stdlib Require Import String Ascii.
From Stdlib Require Import ZArith QArith Qround Qabs Lqa Lia List Bool.
From Stdlib Require DecimalFacts DecimalPos DecimalZ.
Import ListNotations.

(* ================================================================== *)
(** * Numbers and machine integers *)
(* ================================================================== *)

Module Num.

Local Open Scope Q_scope.

(** [x < y] on floats, as a boolean. *)
Definition Qltb (x y : Q) : bool := negb (Qle_bool y x).

(** [x <= y] on floats, as a boolean. *)
Definition Qleb (x y : Q) : bool := Qle_bool x y.

Local Open Scope Z_scope.

(** Two's complement reduction to [int64]. *)
Definition wrap_i64 (z : Z) : Z := (z + 2 ^ 63) mod 2 ^ 64 - 2 ^ 63.

(** Reduction to [uint64]. *)
Definition wrap_u64 (z : Z) : Z := z mod 2 ^ 64.

Definition maxInt64 : Z := 2 ^ 63 - 1.
Definition minInt64 : Z := - 2 ^ 63.

End Num.

(* ================================================================== *)
(** * Errors *)
(* ================================================================== *)

(** The error values of the daemon.  Go code only ever compares them with
    [nil]; the comment gives the text each one carries. *)
Inductive error : Type :=
| DeviceClosed                       (* device closed *)
| OpenFailed (cause : string)        (* failed to open XVF3800: cause *)
| DeviceNotFound                     (* XVF3800 not found (VID=.. PID=..) *)
| TransferFailed (cause : string)    (* USB control transfer failed: cause *)
| ShortRead (n : Z)                  (* short read: got n bytes, expected 9 *)
| DeviceStatus (status : Z)          (* device returned error status: n *)
| NotConnected                       (* not connected *)
| MarshalFailed (cause : string)     (* marshal: cause *)
| MarshalDataFailed (cause : string) (* failed to marshal message data: .. *)
| WriteFailed (cause : string)       (* write: cause *)
| ParseFailed (cause : string)       (* failed to parse message: cause *)
| DialFailed (cause : string)        (* dial: cause *)
| SourceFailed (cause : string).     (* an error of a foreign DOA source *)

(* ================================================================== *)
(** * Package doa: readings and coordinate conversion
      (internal/doa/source.go) *)
(* ================================================================== *)

(** The three functions of Go's [math] package that readings use.  They are
    an interface of the embedding: no claim depends on their values. *)
Class MathLib : Type := {
  Sqrt : Q -> Q;
  Sin : Q -> Q;
  Cos : Q -> Q
}.

(** The instance the model is run with: Newton's iteration for the root and
    truncated power series for sine and cosine. *)
#[global] Instance TaylorMath : MathLib := {|
  Sqrt x := if Qle_bool x 0 then 0
            else fold_left (fun y _ => (y + x / y) / 2) (repeat tt 6) 1;
  Sin x := x - x ^ 3 / 6 + x ^ 5 / 120 - x ^ 7 / 5040;
  Cos x := 1 - x ^ 2 / 2 + x ^ 4 / 24 - x ^ 6 / 720
|}.

Module doa.

Import Num.
Local Open Scope Q_scope.

(** [math.Pi] converted to [float64]: the binary64 number nearest to pi,
    [884279719003555 / 2^48]. *)
Definition Pi : Q := 884279719003555 # 281474976710656.

Record Reading : Type := {
  Angle : Q;
  RawAngle : Q;
  Speaking : bool;
  Timestamp : Z;
  LatencyMs : Z;
  SpeechEnergy : Q * Q * Q * Q;
  MicAzimuths : Q * Q * Q * Q;
  TotalEnergy : Q
}.

Definition set_LatencyMs (r : Reading) (ms : Z) : Reading :=
  {| Angle := Angle r; RawAngle := RawAngle r; Speaking := Speaking r;
     Timestamp := Timestamp r; LatencyMs := ms;
     SpeechEnergy := SpeechEnergy r; MicAzimuths := MicAzimuths r;
     TotalEnergy := TotalEnergy r |}.

Definition referenceEnergy : Q := 6267144.

Section WithMath.
Context {M : MathLib}.

Definition EstimatedDistance (r : Reading) : Q :=
  if Qleb (TotalEnergy r) 0 || negb (Speaking r) then 0
  else
    let distance := Sqrt (referenceEnergy / TotalEnergy r) in
    let distance := if Qltb distance (3 # 10) then 3 # 10 else distance in
    let distance := if Qltb 5 distance then 5 else distance in
    distance.

Definition EstimatedY (r : Reading) : Q :=
  let dist := EstimatedDistance r in
  if Qleb dist 0 then 0 else dist * Sin (Angle r).

Definition EstimatedX (r : Reading) : Q :=
  let dist := EstimatedDistance r in
  if Qleb dist 0 then 0 else dist * Cos (Angle r).

End WithMath.

Definition ToEvaAngle (xvfAngle : Q) : Q := (Pi / 2) - xvfAngle.

Definition FromEvaAngle (evaAngle : Q) : Q := (Pi / 2) - evaAngle.






Definition Clamp (value min max : Q) : Q :=
  if Qltb value min then min
  else if Qltb max value then max
  else value.

End doa.

(* ================================================================== *)
(** * Package time: the fragment the daemon uses *)
(* ================================================================== *)

Module time.

Import Num.
Local Open Scope Z_scope.

(** A clock reading, in nanoseconds. *)
Definition Time : Type := Z.

(** A [time.Duration]: an [int64] count of nanoseconds. *)
Definition Duration : Type := Z.

Definition Millisecond : Duration := 1000000.
Definition Second : Duration := 1000000000.

Definition maxDuration : Duration := maxInt64.
Definition minDuration : Duration := minInt64.

(** [t.Sub(u)]: the difference, saturated to the range of [Duration]. *)
Definition Sub (t u : Time) : Duration :=
  let d := t - u in
  if maxDuration <? d then maxDuration
  else if d <? minDuration then minDuration
  else d.

(** [time.Since(u)] when the clock shows [now].  [None] is the zero
    [time.Time] (year 1): it lies more than 292 years back, so the
    difference saturates. *)
Definition Since (u : option Time) (now : Time) : Duration :=
  match u with
  | None => maxDuration
  | Some u' => Sub now u'
  end.

(** [d.Milliseconds()]: integer division truncating toward zero. *)
Definition Milliseconds (d : Duration) : Z := Z.quot d 1000000.

End time.

(* ================================================================== *)
(** * Package doa: the tracker (tracker.go) *)
(* ================================================================== *)

Module tracker.

Import Num doa.
Local Open Scope Q_scope.

Record ConfidenceConfig : Type := {
  Base : Q;
  SpeakingBonus : Q;
  StabilityBonus : Q
}.

Record TrackerConfig : Type := {
  PollInterval : time.Duration;
  SpeakingLatchDur : time.Duration;
  EMAAlpha : Q;
  HistorySize : Z;
  ConfidenceCfg : ConfidenceConfig
}.

Definition DefaultTrackerConfig : TrackerConfig := {|
  PollInterval := (50 * time.Millisecond)%Z;
  SpeakingLatchDur := (500 * time.Millisecond)%Z;
  EMAAlpha := 3 # 10;
  HistorySize := 100;
  ConfidenceCfg := {| Base := 3 # 10;
                      SpeakingBonus := 4 # 10;
                      StabilityBonus := 2 # 10 |}
|}.

(** [Result] embeds a [Reading]. *)
Record Result : Type := {
  reading : Reading;
  SmoothedAngle : Q;
  Confidence : Q;
  SpeakingLatched : bool;
  EstX : Q;
  EstY : Q
}.

Definition zeroReading : Reading := {|
  Angle := 0; RawAngle := 0; Speaking := false; Timestamp := 0%Z;
  LatencyMs := 0%Z; SpeechEnergy := (0, 0, 0, 0);
  MicAzimuths := (0, 0, 0, 0); TotalEnergy := 0
|}.

Definition zeroResult : Result := {|
  reading := zeroReading; SmoothedAngle := 0; Confidence := 0;
  SpeakingLatched := false; EstX := 0; EstY := 0
|}.

(** The tracker's mutable state.  A subscriber channel is the queue of
    results it holds, oldest first; its capacity is [subCapacity]. *)
Record Tracker : Type := {
  cfg : TrackerConfig;
  latest : Result;
  history : list Result;
  speakingLatchedAt : option time.Time;
  pollCount : Z;
  pollErrorCount : Z;
  totalLatencyMs : Z;
  subs : list (list Result)
}.

Definition subCapacity : nat := 10.

(** [make([]Result, 0, cfg.HistorySize)] panics on a negative capacity. *)
Definition NewTracker (c : TrackerConfig) : option Tracker :=
  if (HistorySize c <? 0)%Z then None
  else Some {| cfg := c; latest := zeroResult; history := [];
               speakingLatchedAt := None; pollCount := 0%Z;
               pollErrorCount := 0%Z; totalLatencyMs := 0%Z; subs := [] |}.

(** [Subscribe]: a new channel, empty. *)
Definition Subscribe (t : Tracker) : Tracker :=
  {| cfg := cfg t; latest := latest t; history := history t;
     speakingLatchedAt := speakingLatchedAt t; pollCount := pollCount t;
     pollErrorCount := pollErrorCount t;
     totalLatencyMs := totalLatencyMs t; subs := subs t ++ [[]] |}.

(** The four readings of the clock that one successful poll makes, in
    program order: [start], the [time.Since(start)] of the latency, the
    [now] of [updateSpeakingLatch], and its [time.Since]. *)
Record PollClock : Type := {
  at_start : time.Time;
  at_latency : time.Time;
  at_latch : time.Time;
  at_since : time.Time
}.

Definition updateSpeakingLatch (t : Tracker) (now since_now : time.Time)
    (rawSpeaking : bool) : Tracker * bool :=
  if rawSpeaking then
    ({| cfg := cfg t; latest := latest t; history := history t;
        speakingLatchedAt := Some now; pollCount := pollCount t;
        pollErrorCount := pollErrorCount t;
        totalLatencyMs := totalLatencyMs t; subs := subs t |}, true)
  else if (time.Since (speakingLatchedAt t) since_now
             <? SpeakingLatchDur (cfg t))%Z
  then (t, true)
  else (t, false).

(** The sum of squared differences over [history[len-5:]], accumulated
    from the oldest to the newest. *)
Definition variance_sum (window : list Result) (angle : Q) : Q :=
  fold_left
    (fun variance r =>
       let diff := SmoothedAngle r - angle in variance + diff * diff)
    window 0.

Definition last5 (h : list Result) : list Result :=
  skipn (length h - 5) h.

Definition calculateConfidence (t : Tracker) (speaking : bool) (angle : Q)
    : Q :=
  let conf := Base (ConfidenceCfg (cfg t)) in
  let conf :=
    if speaking then conf + SpeakingBonus (ConfidenceCfg (cfg t))
    else conf in
  let conf :=
    if (5 <=? length (history t))%nat then
      let variance := variance_sum (last5 (history t)) angle / 5 in
      if Qltb variance (1 # 100)
      then conf + StabilityBonus (ConfidenceCfg (cfg t))
      else conf
    else conf in
  Clamp conf 0 1.

(** [append], then when the length exceeds [HistorySize]:
    [copy(h, h[1:])] moves every element but the first one place down and
    leaves the last in place, and [h[:HistorySize]] keeps a prefix.  The
    slice expression panics on a negative bound. *)
Definition appendHistory (hsize : Z) (h : list Result) (result : Result)
    : option (list Result) :=
  let h1 := h ++ [result] in
  if (hsize <? Z.of_nat (length h1))%Z then
    if (hsize <? 0)%Z then None
    else Some (firstn (Z.to_nat hsize) (tl h1 ++ [result]))
  else Some h1.

(** A non-blocking send to every subscriber: a full channel drops the
    update. *)
Definition notifySubscribers (chans : list (list Result)) (result : Result)
    : list (list Result) :=
  map (fun ch =>
         if (length ch <? subCapacity)%nat then ch ++ [result] else ch)
      chans.

(** The exponential moving average of [poll]:
    [smoothedAngle := reading.Angle], replaced by the blend with
    [t.latest.SmoothedAngle] when the history is not empty. *)
Definition smooth (t : Tracker) (rd : Reading) : Q :=
  if (0 <? length (history t))%nat then
    EMAAlpha (cfg t) * Angle rd
    + (1 - EMAAlpha (cfg t)) * SmoothedAngle (latest t)
  else Angle rd.

Section WithMath.
Context {M : MathLib}.

(** One poll.  [src] is what [t.source.GetDOA] returned. *)
Definition poll (t : Tracker) (clk : PollClock) (src : Reading + error)
    : option (Tracker * option error) :=
  match src with
  | inr err =>
      Some ({| cfg := cfg t; latest := latest t; history := history t;
               speakingLatchedAt := speakingLatchedAt t;
               pollCount := pollCount t;
               pollErrorCount := wrap_i64 (pollErrorCount t + 1);
               totalLatencyMs := totalLatencyMs t; subs := subs t |},
            Some err)
  | inl rd =>
      let latencyMs :=
        time.Milliseconds (time.Sub (at_latency clk) (at_start clk)) in
      let rd := set_LatencyMs rd latencyMs in
      let (t1, speakingLatched) :=
        updateSpeakingLatch t (at_latch clk) (at_since clk)
                            (Speaking rd) in
      let smoothedAngle := smooth t rd in
      let confidence :=
        calculateConfidence t1 speakingLatched smoothedAngle in
      let result := {| reading := rd; SmoothedAngle := smoothedAngle;
                       Confidence := confidence;
                       SpeakingLatched := speakingLatched;
                       EstX := EstimatedX rd; EstY := EstimatedY rd |} in
      match appendHistory (HistorySize (cfg t)) (history t) result with
      | None => None
      | Some h' =>
          Some ({| cfg := cfg t; latest := result; history := h';
                   speakingLatchedAt := speakingLatchedAt t1;
                   pollCount := wrap_i64 (pollCount t + 1);
                   pollErrorCount := pollErrorCount t;
                   totalLatencyMs :=
                     wrap_i64 (totalLatencyMs t + latencyMs);
                   subs := notifySubscribers (subs t) result |},
                None)
      end
  end.

(** What one tick of [Run] feeds to [poll]. *)
Record PollInput : Type := {
  clock : PollClock;
  source : Reading + error
}.

(** [Run] over a finite sequence of ticks: the error that [poll]
    returns is logged and dropped. *)
Fixpoint Run (t : Tracker) (ticks : list PollInput) : option Tracker :=
  match ticks with
  | [] => Some t
  | i :: rest =>
    match poll t (clock i) (source i) with
    | None => None
    | Some (t', _) => Run t' rest
    end
  end.

End WithMath.

Definition GetLatest (t : Tracker) : Result := latest t.

Definition GetTarget (t : Tracker) : Q * Q * bool :=
  if Qltb (Confidence (latest t)) (Base (ConfidenceCfg (cfg t)))
  then (0, 0, false)
  else (SmoothedAngle (latest t), Confidence (latest t), true).

(** [TrackerStats].  The fields [HistorySize] and [SpeakingLatched] of the
    Go struct are [StatsHistorySize] and [StatsSpeakingLatched] here: the
    names are taken by the configuration and by [Result]. *)
Record TrackerStats : Type := {
  PollCount : Z;
  ErrorCount : Z;
  AvgLatencyMs : Q;
  StatsHistorySize : Z;
  SubscriberCount : Z;
  SourceHealthy : bool;
  StatsSpeakingLatched : bool;
  CurrentAngle : Q;
  CurrentConfidence : Q
}.

(** [Stats]; [sourceHealthy] is what [t.source.Healthy()] answers.  The
    conversions [float64(int64)] are exact here. *)
Definition Stats (t : Tracker) (sourceHealthy : bool) : TrackerStats :=
  {| PollCount := pollCount t;
     ErrorCount := pollErrorCount t;
     AvgLatencyMs :=
       if (0 <? pollCount t)%Z
       then inject_Z (totalLatencyMs t) / inject_Z (pollCount t)
       else 0;
     StatsHistorySize := Z.of_nat (length (history t));
     SubscriberCount := Z.of_nat (length (subs t));
     SourceHealthy := sourceHealthy;
     StatsSpeakingLatched := SpeakingLatched (latest t);
     CurrentAngle := SmoothedAngle (latest t);
     CurrentConfidence := Confidence (latest t) |}.

(** ** Vocabulary of the statements about the tracker *)


(** A configuration whose base lies in [0,1] and whose bonuses do not
    subtract. *)
Definition cfg_ok (c : TrackerConfig) : Prop :=
  (0 <= HistorySize c)%Z /\
  0 <= Base (ConfidenceCfg c) <= 1 /\
  0 <= SpeakingBonus (ConfidenceCfg c) /\
  0 <= StabilityBonus (ConfidenceCfg c).

(** A tick that does not report speech: the source failed, or its reading
    has [Speaking = false]. *)
Definition quiet_tick (m : PollInput) : Prop :=
  forall rd, source m = inl rd -> Speaking rd = false.

(** A tick whose source answered with a reading. *)
Definition succeeded (m : PollInput) : bool :=
  match source m with inl _ => true | inr _ => false end.

(** The number of ticks of a run whose source answered with a reading. *)
Definition successes (ticks : list PollInput) : nat :=
  length (filter succeeded ticks).

(** The number of ticks of a run whose source failed. *)
Definition failures (ticks : list PollInput) : nat :=
  length (filter (fun m => negb (succeeded m)) ticks).

(** What a run may do to the queue of a subscriber: what was queued stays
    in front, in order; a queue within the capacity stays within it; a
    full queue is left as it is. *)
Definition queue_kept (old new : list Result) : Prop :=
  (exists added, new = old ++ added) /\
  ((length old <= subCapacity)%nat -> (length new <= subCapacity)%nat) /\
  ((subCapacity <= length old)%nat -> new = old).

End tracker.

(** ** Concrete runs of the tracker *)

Module TrackerRuns.

Import doa tracker.
Local Open Scope Q_scope.

(** A reading without speech and without energy. *)
Definition quiet (angle : Q) : Reading := {|
  Angle := angle; RawAngle := FromEvaAngle angle; Speaking := false;
  Timestamp := 0%Z; LatencyMs := 1%Z; SpeechEnergy := (0, 0, 0, 0);
  MicAzimuths := (0, 0, 0, 0); TotalEnergy := 0 |}.

(** A reading with the speech flag set. *)
Definition voiced (angle : Q) : Reading := {|
  Angle := angle; RawAngle := FromEvaAngle angle; Speaking := true;
  Timestamp := 0%Z; LatencyMs := 1%Z; SpeechEnergy := (0, 0, 0, 0);
  MicAzimuths := (0, 0, 0, 0); TotalEnergy := 0 |}.

(** A poll during which the clock stands at [ms] milliseconds. *)
Definition tick (ms : Z) : PollClock :=
  let t := (ms * time.Millisecond)%Z in
  {| at_start := t; at_latency := t; at_latch := t; at_since := t |}.

Definition heard (ms : Z) (rd : Reading) : PollInput :=
  {| clock := tick ms; source := inl rd |}.

(** The tracker that [NewTracker c] and [ticks] ticks of [Run] lead to
    (the zero tracker of [c] if one of them panics). *)
Definition after (c : TrackerConfig) (ticks : list PollInput) : Tracker :=
  let zero := {| cfg := c; latest := zeroResult; history := [];
                 speakingLatchedAt := None; pollCount := 0%Z;
                 pollErrorCount := 0%Z; totalLatencyMs := 0%Z;
                 subs := [] |} in
  match NewTracker c with
  | Some t0 => match Run t0 ticks with Some t => t | None => zero end
  | None => zero
  end.

(** Five polls, 50 ms apart, of a silent source at angle 0. *)
Definition five_quiet : list PollInput :=
  map (fun ms => heard ms (quiet 0)) [0; 50; 100; 150; 200]%Z.

Definition with_history (alpha : Q) (hsize : Z) : TrackerConfig := {|
  PollInterval := PollInterval DefaultTrackerConfig;
  SpeakingLatchDur := SpeakingLatchDur DefaultTrackerConfig;
  EMAAlpha := alpha; HistorySize := hsize;
  ConfidenceCfg := ConfidenceCfg DefaultTrackerConfig |}.

(** [ema_alpha = 0.5] and [history_size = 0]. *)
Definition cfg_h0 : TrackerConfig := with_history (1 # 2) 0.

(** The defaults with a speaking "bonus" of -0.4. *)
Definition cfg_penalty : TrackerConfig := {|
  PollInterval := PollInterval DefaultTrackerConfig;
  SpeakingLatchDur := SpeakingLatchDur DefaultTrackerConfig;
  EMAAlpha := 3 # 10; HistorySize := 100;
  ConfidenceCfg := {| Base := 3 # 10; SpeakingBonus := - (4 # 10);
                      StabilityBonus := 2 # 10 |} |}.

(** The latch scenario of the tests: a 50 ms latch polled every 10 ms. *)
Definition cfg_latch50 : TrackerConfig := {|
  PollInterval := (10 * time.Millisecond)%Z;
  SpeakingLatchDur := (50 * time.Millisecond)%Z;
  EMAAlpha := 1 # 2; HistorySize := 10;
  ConfidenceCfg := ConfidenceCfg DefaultTrackerConfig |}.

(** A tick at which the source fails. *)
Definition missed (ms : Z) : PollInput :=
  {| clock := tick ms; source := inr (SourceFailed "timeout") |}.

(** A reading with speech and with a total energy of 6267144, the
    reference energy at one meter. *)
Definition at_one_meter (angle : Q) : Reading := {|
  Angle := angle; RawAngle := FromEvaAngle angle; Speaking := true;
  Timestamp := 0%Z; LatencyMs := 1%Z;
  SpeechEnergy := (6267144, 0, 0, 0);
  MicAzimuths := (0, 0, 0, 0); TotalEnergy := 6267144 |}.

End TrackerRuns.

(* ================================================================== *)
(** * Package xvf3800: the USB source and the mock source
      (the revision of usb.go that reads the enhanced data; the earlier
      revision is the same code without [readEnhancedData]) *)
(* ================================================================== *)

Module xvf3800.

Import Num doa.
Local Open Scope Z_scope.

Definition VendorID : Z := 0x38FB.
Definition ProductID : Z := 0x1001.

Definition gpoResID : Z := 20.
Definition doaCmdID : Z := 19.
Definition aecResID : Z := 33.
Definition aecAzimuthCmdID : Z := 75.
Definition aecSpEnergyCmdID : Z := 80.

(** [gousb.ControlIn | gousb.ControlVendor | gousb.ControlDevice] *)
Definition requestTypeIn : Z := 0xC0.

(** A handle of an opened device. *)
Definition Device : Type := nat.

(** What the source does to the USB stack and to the scheduler, in the
    order in which it does it. *)
Inductive DevOp : Type :=
| OpOpen (vid pid : Z)
| OpSetAutoDetach (d : Device)
| OpControl (d : Device) (rType request wValue wIndex : Z) (len : nat)
| OpCloseDevice (d : Device)
| OpCloseContext
| OpSleep (d : time.Duration).

(** What [OpenDeviceWithVIDPID] answers. *)
Inductive OpenAnswer : Type :=
| Opened (d : Device)
| NoDevice
| OpenError (cause : string).

(** What [Device.Control] answers: the count it returns and the bytes it
    left in the buffer, or an error. *)
Inductive ControlAnswer : Type :=
| Transferred (n : Z) (buf : list Byte.byte)
| TransferError (cause : string).

(** Everything the environment decides during one call. *)
Record UsbEnv : Type := {
  open_answer : OpenAnswer;
  doa_answer : ControlAnswer;
  energy_answer : ControlAnswer;
  azimuth_answer : ControlAnswer;
  now_error : time.Time;
  now_start : time.Time;
  now_latency : time.Time;
  now_stamp : time.Time
}.

Record USBSourceConfig : Type := {
  MaxConsecutiveErrors : Z;
  InitialBackoff : time.Duration;
  MaxBackoff : time.Duration
}.

Definition DefaultUSBSourceConfig : USBSourceConfig := {|
  MaxConsecutiveErrors := 5;
  InitialBackoff := 100 * time.Millisecond;
  MaxBackoff := 5 * time.Second
|}.

(** [ctx] tells whether the libusb context is there ([u.ctx != nil]). *)
Record USBSource : Type := {
  ctx : bool;
  dev : option Device;
  closed : bool;
  healthy : bool;
  consecutiveErrors : Z;
  maxErrors : Z;
  lastError : option error;
  lastErrorTime : option time.Time;
  reconnectBackoff : time.Duration;
  maxBackoff : time.Duration
}.

Definition set_dev (u : USBSource) (d : option Device) : USBSource :=
  {| ctx := ctx u; dev := d; closed := closed u; healthy := healthy u;
     consecutiveErrors := consecutiveErrors u; maxErrors := maxErrors u;
     lastError := lastError u; lastErrorTime := lastErrorTime u;
     reconnectBackoff := reconnectBackoff u; maxBackoff := maxBackoff u |}.

Definition set_health (u : USBSource) (h : bool) (errors : Z) : USBSource :=
  {| ctx := ctx u; dev := dev u; closed := closed u; healthy := h;
     consecutiveErrors := errors; maxErrors := maxErrors u;
     lastError := lastError u; lastErrorTime := lastErrorTime u;
     reconnectBackoff := reconnectBackoff u; maxBackoff := maxBackoff u |}.

Definition set_lastError (u : USBSource) (e : error) (at_ : time.Time)
    : USBSource :=
  {| ctx := ctx u; dev := dev u; closed := closed u; healthy := healthy u;
     consecutiveErrors := consecutiveErrors u; maxErrors := maxErrors u;
     lastError := Some e; lastErrorTime := Some at_;
     reconnectBackoff := reconnectBackoff u; maxBackoff := maxBackoff u |}.

Definition set_reconnectBackoff (u : USBSource) (b : time.Duration)
    : USBSource :=
  {| ctx := ctx u; dev := dev u; closed := closed u; healthy := healthy u;
     consecutiveErrors := consecutiveErrors u; maxErrors := maxErrors u;
     lastError := lastError u; lastErrorTime := lastErrorTime u;
     reconnectBackoff := b; maxBackoff := maxBackoff u |}.

(** The result of a method: the source afterwards, what was done to the
    device, and what is returned. *)
Definition Outcome (A : Type) : Type := USBSource * list DevOp * A.

Definition openDevice (u : USBSource) (env : UsbEnv) : Outcome (option error) :=
  match open_answer env with
  | OpenError cause => (u, [OpOpen VendorID ProductID], Some (OpenFailed cause))
  | NoDevice => (u, [OpOpen VendorID ProductID], Some DeviceNotFound)
  | Opened d =>
      (set_health (set_dev u (Some d)) true 0,
       [OpOpen VendorID ProductID; OpSetAutoDetach d], None)
  end.

(** With [ctx = nil] the first thing [NewUSBSourceWithConfig] does after
    building the struct is [gousb.NewContext()]. *)
Definition NewUSBSourceWithConfig (cfg : USBSourceConfig) (env : UsbEnv)
    : list DevOp * (USBSource + error) :=
  let source := {| ctx := true; dev := None; closed := false;
                   healthy := true; consecutiveErrors := 0;
                   maxErrors := MaxConsecutiveErrors cfg;
                   lastError := None; lastErrorTime := None;
                   reconnectBackoff := InitialBackoff cfg;
                   maxBackoff := MaxBackoff cfg |} in
  match openDevice source env with
  | (_, ops, Some err) => (ops ++ [OpCloseContext], inr err)
  | (source', ops, None) => (ops, inl source')
  end.

Definition NewUSBSource (env : UsbEnv) : list DevOp * (USBSource + error) :=
  NewUSBSourceWithConfig DefaultUSBSourceConfig env.

Definition recordError (u : USBSource) (err : error) (now : time.Time)
    : USBSource * list DevOp :=
  let u := set_health u (healthy u) (wrap_i64 (consecutiveErrors u + 1)) in
  let u := set_lastError u err now in
  if maxErrors u <=? consecutiveErrors u then
    let u := set_health u false (consecutiveErrors u) in
    match dev u with
    | Some d => (set_dev u None, [OpCloseDevice d])
    | None => (u, [])
    end
  else (u, []).

Definition recordSuccess (u : USBSource) : USBSource :=
  let u := set_health u true 0 in
  set_reconnectBackoff u (InitialBackoff DefaultUSBSourceConfig).

Definition reconnect (u : USBSource) (env : UsbEnv) : Outcome (option error) :=
  let slept := reconnectBackoff u in
  let u := set_reconnectBackoff u (wrap_i64 (reconnectBackoff u * 2)) in
  let u := if maxBackoff u <? reconnectBackoff u
           then set_reconnectBackoff u (maxBackoff u) else u in
  let '(u', ops, r) := openDevice u env in
  (u', OpSleep slept :: ops, r).

(** The buffer of [len] bytes after a transfer: what the device wrote,
    over the zeroes of [make]. *)
Definition buffer (len : nat) (buf : list Byte.byte) : list Byte.byte :=
  firstn len (buf ++ repeat Byte.x00 len).

Definition byte_at (buf : list Byte.byte) (i : nat) : Z :=
  Z.of_N (Byte.to_N (nth i buf Byte.x00)).

(** [binary.LittleEndian.Uint32(buf[i:i+4])] *)
Definition Uint32 (buf : list Byte.byte) (i : nat) : Z :=
  Z.lor (byte_at buf i)
    (Z.lor (Z.shiftl (byte_at buf (i + 1)) 8)
       (Z.lor (Z.shiftl (byte_at buf (i + 2)) 16)
              (Z.shiftl (byte_at buf (i + 3)) 24))).

(** [math.Float32frombits], for the bit patterns of finite numbers. *)
Definition Float32frombits (bits : Z) : option Q :=
  let e := Z.land (Z.shiftr bits 23) 255 in
  let m := Z.land bits 0x7FFFFF in
  if e =? 255 then None
  else
    let mag := if e =? 0 then (inject_Z m * 2 ^ (-149))%Q
               else (inject_Z (m + 2 ^ 23) * 2 ^ (e - 150))%Q in
    Some (if Z.testbit bits 31 then (- mag)%Q else mag).

(** [float64(math.Float32frombits(bits))].  An infinity or a NaN has no
    image among the rationals and is read as 0. *)
Definition float_of_bits (bits : Z) : Q :=
  match Float32frombits bits with Some q => q | None => 0%Q end.

(** [math.Float32frombits(bits) != 0]: false for the two zeroes only. *)
Definition nonzero_bits (bits : Z) : bool :=
  negb (Z.land bits 0x7FFFFFFF =? 0).

Definition four_floats (buf : list Byte.byte) : Q * Q * Q * Q :=
  (float_of_bits (Uint32 buf 1), float_of_bits (Uint32 buf 5),
   float_of_bits (Uint32 buf 9), float_of_bits (Uint32 buf 13)).

Definition zero4 : Q * Q * Q * Q := (0%Q, 0%Q, 0%Q, 0%Q).

(** One of the two optional reads: the values when the transfer brought 17
    bytes with status 0, zeroes otherwise. *)
Definition enhanced (a : ControlAnswer) : Q * Q * Q * Q :=
  match a with
  | Transferred n buf =>
      let data := buffer 17 buf in
      if (17 <=? n) && (byte_at data 0 =? 0) then four_floats data else zero4
  | TransferError _ => zero4
  end.

Definition readEnhancedData (d : Device) (env : UsbEnv)
    : list DevOp * (Q * Q * Q * Q) * (Q * Q * Q * Q) :=
  ([OpControl d requestTypeIn 0 (Z.lor 0x80 aecSpEnergyCmdID) aecResID 17;
    OpControl d requestTypeIn 0 (Z.lor 0x80 aecAzimuthCmdID) aecResID 17],
   enhanced (energy_answer env), enhanced (azimuth_answer env)).

Definition sumEnergy (energy : Q * Q * Q * Q) : Q :=
  let '(e0, e1, e2, e3) := energy in (0 + e0 + e1 + e2 + e3)%Q.

(** [GetDOA].  [None] is the nil dereference of [u.dev.Control] on a source
    without a device; the method itself never leaves [u.dev] nil at that
    point. *)
Definition GetDOA (u : USBSource) (env : UsbEnv)
    : option (Outcome (Reading + error)) :=
  if closed u then Some (u, [], inr DeviceClosed)
  else
    let '(u, ops, rc) :=
      match dev u with
      | None => reconnect u env
      | Some _ => (u, [], None)
      end in
    match rc with
    | Some err => Some (u, ops, inr err)
    | None =>
        match dev u with
        | None => None
        | Some d =>
            let ops :=
              ops ++ [OpControl d requestTypeIn 0 (Z.lor 0x80 doaCmdID)
                                gpoResID 9] in
            match doa_answer env with
            | TransferError cause =>
                let '(u, cl) :=
                  recordError u (TransferFailed cause) (now_error env) in
                Some (u, ops ++ cl, inr (TransferFailed cause))
            | Transferred n buf =>
                let data := buffer 9 buf in
                if n <? 9 then
                  let '(u, cl) := recordError u (ShortRead n) (now_error env) in
                  Some (u, ops ++ cl, inr (ShortRead n))
                else if negb (byte_at data 0 =? 0) then
                  let '(u, cl) :=
                    recordError u (DeviceStatus (byte_at data 0))
                                (now_error env) in
                  Some (u, ops ++ cl, inr (DeviceStatus (byte_at data 0)))
                else
                  let u := recordSuccess u in
                  let rawAngle := float_of_bits (Uint32 data 1) in
                  let speaking := nonzero_bits (Uint32 data 5) in
                  let latency := time.Sub (now_latency env) (now_start env) in
                  let '(eops, energyValues, azimuthValues) :=
                    readEnhancedData d env in
                  Some (u, ops ++ eops,
                        inl {| Angle := ToEvaAngle rawAngle;
                               RawAngle := rawAngle;
                               Speaking := speaking;
                               Timestamp := now_stamp env;
                               LatencyMs := time.Milliseconds latency;
                               SpeechEnergy := energyValues;
                               MicAzimuths := azimuthValues;
                               TotalEnergy := sumEnergy energyValues |})
            end
        end
    end.

Definition Close (u : USBSource) : Outcome (option error) :=
  if closed u then (u, [], None)
  else
    let u0 := {| ctx := ctx u; dev := dev u; closed := true;
                 healthy := healthy u;
                 consecutiveErrors := consecutiveErrors u;
                 maxErrors := maxErrors u; lastError := lastError u;
                 lastErrorTime := lastErrorTime u;
                 reconnectBackoff := reconnectBackoff u;
                 maxBackoff := maxBackoff u |} in
    let '(u1, ops1) :=
      match dev u0 with
      | Some d => (set_dev u0 None, [OpCloseDevice d])
      | None => (u0, [])
      end in
    let '(u2, ops2) :=
      if ctx u1 then
        ({| ctx := false; dev := dev u1; closed := closed u1;
            healthy := healthy u1;
            consecutiveErrors := consecutiveErrors u1;
            maxErrors := maxErrors u1; lastError := lastError u1;
            lastErrorTime := lastErrorTime u1;
            reconnectBackoff := reconnectBackoff u1;
            maxBackoff := maxBackoff u1 |}, [OpCloseContext])
      else (u1, []) in
    (u2, ops1 ++ ops2, None).

Definition Healthy (u : USBSource) : bool := healthy u.

Definition Name (u : USBSource) : string := "usb"%string.

(** A call of the [doa.Source] interface on the USB source. *)
Inductive Call : Type :=
| CallGetDOA (env : UsbEnv)
| CallClose.

(** What a call returned. *)
Inductive Return : Type :=
| RetReading (r : Reading + error)
| RetClose (e : option error).

(** A sequence of calls: the source afterwards and, per call, what it did
    to the device and what it returned. *)
Fixpoint calls (u : USBSource) (cs : list Call)
    : option (USBSource * list (list DevOp * Return)) :=
  match cs with
  | [] => Some (u, [])
  | CallGetDOA env :: rest =>
      match GetDOA u env with
      | None => None
      | Some (u', ops, r) =>
          match calls u' rest with
          | None => None
          | Some (u'', rs) => Some (u'', (ops, RetReading r) :: rs)
          end
      end
  | CallClose :: rest =>
      let '(u', ops, e) := Close u in
      match calls u' rest with
      | None => None
      | Some (u'', rs) => Some (u'', (ops, RetClose e) :: rs)
      end
  end.

(** A call that returned an error where a reading was asked for. *)
Definition failed_call (x : list DevOp * Return) : Prop :=
  exists e, snd x = RetReading (inr e).

(** [USBStats].  The field [Healthy] of the Go struct is [StatsHealthy]
    here; [LastError] holds the error itself, [None] for the empty
    text. *)
Record USBStats : Type := {
  StatsHealthy : bool;
  ConsecutiveErrors : Z;
  LastError : option error;
  LastErrorTime : option time.Time;
  DeviceConnected : bool
}.

Definition Stats (u : USBSource) : USBStats :=
  {| StatsHealthy := healthy u;
     ConsecutiveErrors := consecutiveErrors u;
     LastError := lastError u;
     LastErrorTime := lastErrorTime u;
     DeviceConnected := match dev u with Some _ => true | None => false end |}.

(** The DOA transfer of a call does not bring a reading: it fails, it is
    short, or its status byte is not 0. *)
Definition doa_fails (env : UsbEnv) : bool :=
  match doa_answer env with
  | TransferError _ => true
  | Transferred n buf => (n <? 9) || negb (byte_at (buffer 9 buf) 0 =? 0)
  end.

(** The device cannot be opened during a call. *)
Definition open_fails (env : UsbEnv) : bool :=
  match open_answer env with
  | Opened _ => false
  | NoDevice | OpenError _ => true
  end.

(** The control transfer that reads [cmd] of the resource [res] into a
    buffer of [len] bytes. *)
Definition read_command (d : Device) (cmd res : Z) (len : nat) : DevOp :=
  OpControl d requestTypeIn 0 (Z.lor 0x80 cmd) res len.

(** ** The mock source (mock.go) *)

Record MockSource : Type := {
  angle : Q;
  speaking : bool;
  mock_healthy : bool;
  simulateWave : bool;
  startTime : time.Time
}.

Definition NewMockSource (now : time.Time) : MockSource :=
  {| angle := (Pi / 2)%Q; speaking := false; mock_healthy := true;
     simulateWave := false; startTime := now |}.

Definition NewMockSourceWithWave (now : time.Time) : MockSource :=
  {| angle := 0%Q; speaking := false; mock_healthy := true;
     simulateWave := true; startTime := now |}.



Definition MockClose (m : MockSource) : MockSource * option error :=
  (m, None).

Definition MockHealthy (m : MockSource) : bool := mock_healthy m.



Definition SetHealthy (m : MockSource) (h : bool) : MockSource :=
  {| angle := angle m; speaking := speaking m; mock_healthy := h;
     simulateWave := simulateWave m; startTime := startTime m |}.

(** ** Choosing a source (source.go) *)

(** A [doa.Source]: one of the two implementations. *)
Inductive Source : Type :=
| UsbSource (u : USBSource)
| Mock (m : MockSource).

Definition NewSource (env : UsbEnv) : list DevOp * (Source + error) :=
  match NewUSBSource env with
  | (ops, inl usb) => (ops, inl (UsbSource usb))
  | (ops, inr err) => (ops, inr err)
  end.

(** [now] is the clock of [NewMockSource]. *)
Definition NewSourceWithFallback (env : UsbEnv) (now : time.Time)
    : list DevOp * Source :=
  match NewSource env with
  | (ops, inl source) => (ops, source)
  | (ops, inr _) => (ops, Mock (NewMockSource now))
  end.

(** [Healthy] through the interface. *)
Definition SourceHealthy (s : Source) : bool :=
  match s with
  | UsbSource u => Healthy u
  | Mock m => MockHealthy m
  end.

(** [Name] through the interface. *)
Definition SourceName (s : Source) : string :=
  match s with
  | UsbSource u => Name u
  | Mock _ => "mock"%string
  end.

End xvf3800.

(** ** Concrete runs of the USB source *)

Module UsbRuns.

Import xvf3800.
Local Open Scope Z_scope.

(** A 9-byte answer with status 0, the angle pi/2 (0x3FC90FDB) and the
    speaking flag 1.0 (0x3F800000), both little-endian. *)
Definition front_speaking : list Byte.byte :=
  [Byte.x00; Byte.xdb; Byte.x0f; Byte.xc9; Byte.x3f;
   Byte.x00; Byte.x00; Byte.x80; Byte.x3f].

(** The device is there and answers every transfer. *)
Definition env_ok : UsbEnv := {|
  open_answer := Opened 1%nat;
  doa_answer := Transferred 9 front_speaking;
  energy_answer := TransferError "stall";
  azimuth_answer := TransferError "stall";
  now_error := 0; now_start := 0; now_latency := 2000000; now_stamp := 2000000
|}.

(** The device is there and the DOA transfer fails. *)
Definition env_stall : UsbEnv := {|
  open_answer := Opened 1%nat;
  doa_answer := TransferError "stall";
  energy_answer := TransferError "stall";
  azimuth_answer := TransferError "stall";
  now_error := 0; now_start := 0; now_latency := 2000000; now_stamp := 2000000
|}.

(** A configuration with an initial backoff of 200 ms. *)
Definition cfg_200ms : USBSourceConfig := {|
  MaxConsecutiveErrors := 5;
  InitialBackoff := 200 * time.Millisecond;
  MaxBackoff := 5 * time.Second
|}.

(** The source that [NewUSBSourceWithConfig cfg] returns when the device
    is there. *)
Definition opened (cfg : USBSourceConfig) : USBSource :=
  match NewUSBSourceWithConfig cfg env_ok with
  | (_, inl u) => u
  | (_, inr _) =>
      {| ctx := false; dev := None; closed := true; healthy := false;
         consecutiveErrors := 0; maxErrors := 0; lastError := None;
         lastErrorTime := None; reconnectBackoff := 0; maxBackoff := 0 |}
  end.

(** The answer of a closed source to a call. *)
Definition closed_answer (c : Call) : list DevOp * Return :=
  match c with
  | CallGetDOA _ => ([], RetReading (inr DeviceClosed))
  | CallClose => ([], RetClose None)
  end.

(** The device is not there. *)
Definition env_gone : UsbEnv := {|
  open_answer := NoDevice;
  doa_answer := TransferError "no device";
  energy_answer := TransferError "no device";
  azimuth_answer := TransferError "no device";
  now_error := 0; now_start := 0; now_latency := 0; now_stamp := 0
|}.

(** A source that has lost its device: five failed transfers on a source
    opened with the defaults. *)
Definition lost : USBSource :=
  match calls (opened DefaultUSBSourceConfig)
              (repeat (CallGetDOA env_stall) 5) with
  | Some (u, _) => u
  | None => opened DefaultUSBSourceConfig
  end.

End UsbRuns.

(** ** The tracker on the mock source *)

Module MockRuns.

Import doa tracker xvf3800.




End MockRuns.

(* ================================================================== *)
(** * Package strconv: decimal integers *)
(* ================================================================== *)

Module strconv.

Local Open Scope char_scope.

Fixpoint uint_chars (d : Decimal.uint) : list ascii :=
  match d with
  | Decimal.Nil => []
  | Decimal.D0 d => "0" :: uint_chars d
  | Decimal.D1 d => "1" :: uint_chars d
  | Decimal.D2 d => "2" :: uint_chars d
  | Decimal.D3 d => "3" :: uint_chars d
  | Decimal.D4 d => "4" :: uint_chars d
  | Decimal.D5 d => "5" :: uint_chars d
  | Decimal.D6 d => "6" :: uint_chars d
  | Decimal.D7 d => "7" :: uint_chars d
  | Decimal.D8 d => "8" :: uint_chars d
  | Decimal.D9 d => "9" :: uint_chars d
  end.

(** [strconv.FormatInt(z, 10)] *)
Definition Itoa (z : Z) : list ascii :=
  match Z.to_int z with
  | Decimal.Pos d => uint_chars d
  | Decimal.Neg d => "-" :: uint_chars d
  end.

Definition digit (c : ascii) : option (Decimal.uint -> Decimal.uint) :=
  match c with
  | "0" => Some Decimal.D0 | "1" => Some Decimal.D1
  | "2" => Some Decimal.D2 | "3" => Some Decimal.D3
  | "4" => Some Decimal.D4 | "5" => Some Decimal.D5
  | "6" => Some Decimal.D6 | "7" => Some Decimal.D7
  | "8" => Some Decimal.D8 | "9" => Some Decimal.D9
  | _ => None
  end.

Fixpoint chars_uint (s : list ascii) : option Decimal.uint :=
  match s with
  | [] => Some Decimal.Nil
  | c :: r =>
      match digit c, chars_uint r with
      | Some d, Some u => Some (d u)
      | _, _ => None
      end
  end.

(** [strconv.ParseInt(s, 10, 64)]: an optional sign, then digits and
    nothing else; [None] also when the value does not fit [int64]. *)
Definition ParseInt (s : list ascii) : option Z :=
  let '(neg, ds) :=
    match s with
    | "-" :: r => (true, r)
    | "+" :: r => (false, r)
    | _ => (false, s)
    end in
  match ds, chars_uint ds with
  | _ :: _, Some u =>
      let z := if neg then Z.opp (Z.of_uint u) else Z.of_uint u in
      if (Num.minInt64 <=? z)%Z && (z <=? Num.maxInt64)%Z then Some z
      else None
  | _, _ => None
  end.

End strconv.

(* ================================================================== *)
(** * Package encoding/json: what [Message] uses of it

      The grammar of JSON texts, the compact form, the quoting of strings,
      and [Marshal] and [Unmarshal] at the one struct type the daemon puts
      on the wire.  Bytes of 0x80 and above are taken to be well-formed
      UTF-8 and pass unchanged; the decoder's bound of 10000 on the depth
      of nesting is not part of the model. *)
(* ================================================================== *)

Module json.

Local Open Scope char_scope.

(** The double quote. *)
Definition dq : ascii := "034".

(** The backslash. *)
Definition bs : ascii := "\".

Definition code (c : ascii) : N := N_of_ascii c.

Definition is_space (c : ascii) : bool :=
  match c with
  | " " | "009" | "010" | "013" => true
  | _ => false
  end.

Definition is_digit (c : ascii) : bool :=
  match strconv.digit c with Some _ => true | None => false end.

Definition is_hex (c : ascii) : bool :=
  is_digit c
  || ((97 <=? code c) && (code c <=? 102))%N
  || ((65 <=? code c) && (code c <=? 70))%N.

Fixpoint skip_ws (s : list ascii) : list ascii :=
  match s with
  | c :: r => if is_space c then skip_ws r else s
  | [] => []
  end.

Fixpoint skip_digits (s : list ascii) : list ascii :=
  match s with
  | c :: r => if is_digit c then skip_digits r else s
  | [] => []
  end.

(** [p] taken off the head of [s]. *)
Fixpoint strip_prefix (p s : list ascii) : option (list ascii) :=
  match p, s with
  | [], _ => Some s
  | a :: p', c :: s' => if (a =? c)%char then strip_prefix p' s' else None
  | _ :: _, [] => None
  end.

(** The characters that may follow a backslash, [u] apart. *)
Definition is_escape (e : ascii) : bool :=
  (e =? dq)%char || (e =? bs)%char || (e =? "/")%char
  || (e =? "b")%char || (e =? "f")%char || (e =? "n")%char
  || (e =? "r")%char || (e =? "t")%char.

(** A string after its opening quote: what follows the closing quote. *)
Fixpoint scan_string (s : list ascii) : option (list ascii) :=
  match s with
  | [] => None
  | c :: r =>
      if (c =? dq)%char then Some r
      else if (c =? bs)%char then
        match r with
        | [] => None
        | e :: r' =>
            if (e =? "u")%char then
              match r' with
              | h1 :: h2 :: h3 :: h4 :: r'' =>
                  if is_hex h1 && is_hex h2 && is_hex h3 && is_hex h4
                  then scan_string r'' else None
              | _ => None
              end
            else if is_escape e then scan_string r'
            else None
        end
      else if (code c <? 32)%N then None
      else scan_string r
  end.

(** At least one digit, then what follows the digits. *)
Definition scan_digits1 (s : list ascii) : option (list ascii) :=
  match s with
  | d :: r => if is_digit d then Some (skip_digits r) else None
  | [] => None
  end.

(** The exponent of a number, optional. *)
Definition scan_exp (s : list ascii) : option (list ascii) :=
  match s with
  | e :: r =>
      if (e =? "e")%char || (e =? "E")%char then
        match r with
        | sg :: r' =>
            if (sg =? "+")%char || (sg =? "-")%char then scan_digits1 r'
            else scan_digits1 r
        | [] => None
        end
      else Some s
  | [] => Some s
  end.

(** The fraction and the exponent of a number, both optional. *)
Definition scan_frac_exp (s : list ascii) : option (list ascii) :=
  match s with
  | p :: r =>
      if (p =? ".")%char then
        match scan_digits1 r with
        | Some r' => scan_exp r'
        | None => None
        end
      else scan_exp s
  | [] => Some s
  end.

(** After the sign: a single 0, or a digit from 1 to 9 and more digits. *)
Definition scan_int (s : list ascii) : option (list ascii) :=
  match s with
  | d :: r =>
      if (d =? "0")%char then scan_frac_exp r
      else if is_digit d then scan_frac_exp (skip_digits r)
      else None
  | [] => None
  end.

Definition scan_number (s : list ascii) : option (list ascii) :=
  match s with
  | c :: r => if (c =? "-")%char then scan_int r else scan_int s
  | [] => None
  end.

(** One JSON value at the head of [s]: what follows it.  [scan_elements]
    and [scan_members] read a non-empty array or object after its bracket
    or brace and the white space that follows. *)
Fixpoint scan_value (fuel : nat) (s : list ascii) {struct fuel}
    : option (list ascii) :=
  match fuel with
  | O => None
  | S fuel' =>
      match s with
      | [] => None
      | c :: r =>
          if (c =? "t")%char then strip_prefix ["r"; "u"; "e"] r
          else if (c =? "f")%char then strip_prefix ["a"; "l"; "s"; "e"] r
          else if (c =? "n")%char then strip_prefix ["u"; "l"; "l"] r
          else if (c =? dq)%char then scan_string r
          else if (c =? "[")%char then
            match skip_ws r with
            | [] => None
            | c' :: r' =>
                if (c' =? "]")%char then Some r'
                else scan_elements fuel' (c' :: r')
            end
          else if (c =? "{")%char then
            match skip_ws r with
            | [] => None
            | c' :: r' =>
                if (c' =? "}")%char then Some r'
                else scan_members fuel' (c' :: r')
            end
          else scan_number s
      end
  end

with scan_elements (fuel : nat) (s : list ascii) {struct fuel}
    : option (list ascii) :=
  match fuel with
  | O => None
  | S fuel' =>
      match scan_value fuel' s with
      | None => None
      | Some r =>
          match skip_ws r with
          | [] => None
          | c :: r' =>
              if (c =? ",")%char then scan_elements fuel' (skip_ws r')
              else if (c =? "]")%char then Some r'
              else None
          end
      end
  end

with scan_members (fuel : nat) (s : list ascii) {struct fuel}
    : option (list ascii) :=
  match fuel with
  | O => None
  | S fuel' =>
      match s with
      | [] => None
      | k :: r =>
          if (k =? dq)%char then
            match scan_string r with
            | None => None
            | Some r1 =>
                match skip_ws r1 with
                | [] => None
                | c :: r2 =>
                    if (c =? ":")%char then
                      match scan_value fuel' (skip_ws r2) with
                      | None => None
                      | Some r3 =>
                          match skip_ws r3 with
                          | [] => None
                          | c' :: r4 =>
                              if (c' =? ",")%char
                              then scan_members fuel' (skip_ws r4)
                              else if (c' =? "}")%char then Some r4
                              else None
                          end
                      end
                    else None
                end
            end
          else None
      end
  end.

(** Fuel that suffices for a text: every call of the three scanners that
    is not the last one of its chain consumes a byte. *)
Definition fuel_for (s : list ascii) : nat := 2 * length s + 2.

(** [json.Valid]: one value, with white space around it. *)
Definition Valid (data : list ascii) : bool :=
  let s := skip_ws data in
  match scan_value (fuel_for s) s with
  | Some rest => match skip_ws rest with [] => true | _ => false end
  | None => false
  end.

(** ** The compact form *)

Definition hexdigit (n : N) : ascii :=
  nth (N.to_nat n) ["0"; "1"; "2"; "3"; "4"; "5"; "6"; "7"; "8"; "9";
                    "a"; "b"; "c"; "d"; "e"; "f"] "0".

(** [\u00XX] for a byte. *)
Definition u00 (c : ascii) : list ascii :=
  [bs; "u"; "0"; "0";
   hexdigit (code c / 16)%N; hexdigit (code c mod 16)%N].

Definition is_html (c : ascii) : bool :=
  (c =? "<")%char || (c =? ">")%char || (c =? "&")%char.

(** U+2028 and U+2029 are the bytes E2 80 A8 and E2 80 A9. *)
Definition line_sep (c1 c2 c3 : ascii) : option (list ascii) :=
  if (c1 =? "226")%char && (c2 =? "128")%char then
    if (c3 =? "168")%char then Some [bs; "u"; "2"; "0"; "2"; "8"]
    else if (c3 =? "169")%char then Some [bs; "u"; "2"; "0"; "2"; "9"]
    else None
  else None.

(** [appendCompact] with [escape = true], on a valid text: white space
    outside strings goes, the HTML characters and the two line separators
    are replaced by their escapes. *)
Fixpoint compact_go (in_str esc : bool) (s : list ascii) : list ascii :=
  match s with
  | [] => []
  | c :: r =>
      let in_str' := if esc then in_str
                     else if (c =? dq)%char then negb in_str else in_str in
      let esc' := in_str && negb esc && (c =? bs)%char in
      if is_html c then u00 c ++ compact_go in_str' esc' r
      else
        match r with
        | c2 :: c3 :: r' =>
            match line_sep c c2 c3 with
            | Some u => u ++ compact_go in_str' false r'
            | None =>
                if negb in_str && is_space c then compact_go in_str' esc' r
                else c :: compact_go in_str' esc' r
            end
        | _ =>
            if negb in_str && is_space c then compact_go in_str' esc' r
            else c :: compact_go in_str' esc' r
        end
  end.

(** [json.Compact] with HTML escaping: [None] for a text that is not
    valid. *)
Definition Compact (data : list ascii) : option (list ascii) :=
  if Valid data then Some (compact_go false false data) else None.

(** What [json.Marshal] returns for a value that it can encode: a valid
    text without white space around it, in compact form. *)
Definition Canonical (d : list ascii) : Prop :=
  scan_value (fuel_for d) d = Some [] /\ compact_go false false d = d.

(** ** Strings *)

(** The body of the string literal that [Marshal] writes for [s]. *)
Fixpoint escape_body (s : list ascii) : list ascii :=
  match s with
  | [] => []
  | c :: r =>
      if (c =? dq)%char then bs :: dq :: escape_body r
      else if (c =? bs)%char then bs :: bs :: escape_body r
      else if (c =? "008")%char then bs :: "b" :: escape_body r
      else if (c =? "012")%char then bs :: "f" :: escape_body r
      else if (c =? "010")%char then bs :: "n" :: escape_body r
      else if (c =? "013")%char then bs :: "r" :: escape_body r
      else if (c =? "009")%char then bs :: "t" :: escape_body r
      else if (code c <? 32)%N || is_html c then u00 c ++ escape_body r
      else
        match r with
        | c2 :: c3 :: r' =>
            match line_sep c c2 c3 with
            | Some u => u ++ escape_body r'
            | None => c :: escape_body r
            end
        | _ => c :: escape_body r
        end
  end.

Definition encode_string (s : list ascii) : list ascii :=
  dq :: escape_body s ++ [dq].

Definition hexval (c : ascii) : N :=
  (if is_digit c then code c - 48
   else if 97 <=? code c then code c - 87
   else code c - 55)%N.

Definition hex4 (h1 h2 h3 h4 : ascii) : N :=
  (((hexval h1 * 16 + hexval h2) * 16 + hexval h3) * 16 + hexval h4)%N.

(** [utf8.EncodeRune] *)
Definition EncodeRune (r : N) : list ascii :=
  let b (n : N) := ascii_of_N n in
  (if r <? 128 then [b r]
   else if r <? 2048 then [b (192 + r / 64); b (128 + r mod 64)]
   else if r <? 65536 then
     [b (224 + r / 4096); b (128 + (r / 64) mod 64); b (128 + r mod 64)]
   else
     [b (240 + r / 262144); b (128 + (r / 4096) mod 64);
      b (128 + (r / 64) mod 64); b (128 + r mod 64)])%N.

Definition is_surrogate (r : N) : bool :=
  ((55296 <=? r) && (r <? 57344))%N.

(** The rune of a [\uXXXX] escape whose digits start [s], and what follows
    the escape: a surrogate pair gives one rune, a lone surrogate U+FFFD. *)
Definition unquote_rune (s : list ascii) : option (N * list ascii) :=
  match s with
  | h1 :: h2 :: h3 :: h4 :: r =>
      if is_hex h1 && is_hex h2 && is_hex h3 && is_hex h4 then
        let rr := hex4 h1 h2 h3 h4 in
        if is_surrogate rr then
          match r with
          | b0 :: u0 :: l1 :: l2 :: l3 :: l4 :: r' =>
              let rr1 := hex4 l1 l2 l3 l4 in
              if (b0 =? bs)%char && (u0 =? "u")%char
                 && is_hex l1 && is_hex l2 && is_hex l3 && is_hex l4
                 && (rr <? 56320)%N
                 && (56320 <=? rr1)%N && (rr1 <? 57344)%N
              then Some (65536 + (rr - 55296) * 1024 + (rr1 - 56320), r')%N
              else Some (65533%N, r)
          | _ => Some (65533%N, r)
          end
        else Some (rr, r)
      else None
  | _ => None
  end.

Definition unescape (e : ascii) : option ascii :=
  if (e =? dq)%char || (e =? bs)%char || (e =? "/")%char then Some e
  else if (e =? "b")%char then Some "008"
  else if (e =? "f")%char then Some "012"
  else if (e =? "n")%char then Some "010"
  else if (e =? "r")%char then Some "013"
  else if (e =? "t")%char then Some "009"
  else None.

(** The bytes that the body of a string literal stands for. *)
Fixpoint unquote_body (fuel : nat) (s : list ascii) : option (list ascii) :=
  match fuel with
  | O => None
  | S fuel' =>
      match s with
      | [] => Some []
      | c :: r =>
          if (c =? bs)%char then
            match r with
            | [] => None
            | e :: r' =>
                if (e =? "u")%char then
                  match unquote_rune r' with
                  | Some (rune, r'') =>
                      option_map (app (EncodeRune rune))
                                 (unquote_body fuel' r'')
                  | None => None
                  end
                else
                  match unescape e with
                  | Some b => option_map (cons b) (unquote_body fuel' r')
                  | None => None
                  end
            end
          else option_map (cons c) (unquote_body fuel' r)
      end
  end.

(** The bytes of a string literal, quotes included. *)
Definition unquote (lit : list ascii) : option (list ascii) :=
  match lit with
  | q :: r =>
      if (q =? dq)%char then
        unquote_body (S (length r)) (removelast r)
      else None
  | [] => None
  end.

(** The fold under which [Unmarshal] compares an object key with a field
    name: ASCII letters in upper case, and the two runes that fold to an
    ASCII letter, U+017F (C5 BF) to S and U+212A (E2 84 AA) to K. *)
Fixpoint foldName (s : list ascii) : list ascii :=
  match s with
  | [] => []
  | c :: r =>
      let upper :=
        if ((97 <=? code c) && (code c <=? 122))%N
        then ascii_of_N (code c - 32) else c in
      match r with
      | c2 :: r' =>
          if (c =? "197")%char && (c2 =? "191")%char then "S" :: foldName r'
          else
            match r' with
            | c3 :: r'' =>
                if (c =? "226")%char && (c2 =? "132")%char
                   && (c3 =? "170")%char
                then "K" :: foldName r''
                else upper :: foldName r
            | [] => upper :: foldName r
            end
      | [] => upper :: foldName r
      end
  end.

(** ** Objects *)

(** The members of an object, in order, each as the literal of its key
    and the text of its value; [s] starts after the brace and the white
    space that follows it. *)
Fixpoint members (fuel : nat) (s : list ascii) {struct fuel}
    : option (list (list ascii * list ascii)) :=
  match fuel with
  | O => None
  | S fuel' =>
      match s with
      | [] => None
      | k :: r =>
          if (k =? "}")%char then Some []
          else if (k =? dq)%char then
            match scan_string r with
            | None => None
            | Some r1 =>
                let key := firstn (length s - length r1) s in
                match skip_ws r1 with
                | [] => None
                | c :: r2 =>
                    if (c =? ":")%char then
                      let v := skip_ws r2 in
                      match scan_value (fuel_for v) v with
                      | None => None
                      | Some r3 =>
                          let value := firstn (length v - length r3) v in
                          match skip_ws r3 with
                          | [] => None
                          | c' :: r4 =>
                              if (c' =? ",")%char then
                                option_map (cons (key, value))
                                           (members fuel' (skip_ws r4))
                              else if (c' =? "}")%char
                              then Some [(key, value)]
                              else None
                          end
                      end
                    else None
                end
            end
          else None
      end
  end.

End json.

(* ================================================================== *)
(** * Package encoding/base64 *)
(* ================================================================== *)

Module base64.

Local Open Scope N_scope.

Definition alphabet : list ascii :=
  list_ascii_of_string
    "ABCDEFGHIJKLMNOPQRSTUVWXYZabcdefghijklmnopqrstuvwxyz0123456789+/".

Definition enc (n : N) : ascii := nth (N.to_nat n) alphabet "A"%char.

Definition pad : ascii := "="%char.

(** [base64.StdEncoding.EncodeToString] *)
Fixpoint EncodeToString (src : list ascii) : list ascii :=
  match src with
  | [] => []
  | [a] =>
      let v := N_of_ascii a * 65536 in
      [enc (v / 262144); enc ((v / 4096) mod 64); pad; pad]
  | [a; b] =>
      let v := N_of_ascii a * 65536 + N_of_ascii b * 256 in
      [enc (v / 262144); enc ((v / 4096) mod 64); enc ((v / 64) mod 64); pad]
  | a :: b :: c :: r =>
      let v := N_of_ascii a * 65536 + N_of_ascii b * 256 + N_of_ascii c in
      enc (v / 262144) :: enc ((v / 4096) mod 64)
        :: enc ((v / 64) mod 64) :: enc (v mod 64) :: EncodeToString r
  end.

End base64.

(* ================================================================== *)
(** * Package protocol: the messages on the wire (message.go) *)
(* ================================================================== *)

Module protocol.

Import strconv.
Local Open Scope char_scope.

Definition MessageType : Type := list ascii.

Definition TypeFrame : MessageType := list_ascii_of_string "frame".
Definition TypeDOA : MessageType := list_ascii_of_string "doa".
Definition TypeMic : MessageType := list_ascii_of_string "mic".
Definition TypeState : MessageType := list_ascii_of_string "state".
Definition TypeMotor : MessageType := list_ascii_of_string "motor".
Definition TypeSpeak : MessageType := list_ascii_of_string "speak".
Definition TypeEmotion : MessageType := list_ascii_of_string "emotion".
Definition TypeConfig : MessageType := list_ascii_of_string "config".
Definition TypePing : MessageType := list_ascii_of_string "ping".
Definition TypePong : MessageType := list_ascii_of_string "pong".

(** The message types that the protocol defines. *)
Definition supported : list MessageType :=
  [TypeFrame; TypeDOA; TypeMic; TypeState; TypeMotor; TypeSpeak;
   TypeEmotion; TypeConfig; TypePing; TypePong].

(** [Data] is a [json.RawMessage]: the text of a JSON value, or empty. *)
Record Message : Type := {
  Type_ : MessageType;
  Timestamp : Z;
  Data : list ascii
}.

Definition zeroMessage : Message :=
  {| Type_ := []; Timestamp := 0; Data := [] |}.

(** A payload as [NewMessage] sees it: what [json.Marshal] makes of the
    value, a text or an error. *)
Definition Payload : Type := (list ascii + string)%type.

(** [NewMessage]: [data] is [None] for a nil payload; [now] is
    [time.Now().UnixMilli()]. *)
Definition NewMessage (msgType : MessageType) (data : option Payload)
    (now : Z) : Message + error :=
  match data with
  | None => inl {| Type_ := msgType; Timestamp := now; Data := [] |}
  | Some (inr cause) => inr (MarshalDataFailed cause)
  | Some (inl rawData) =>
      inl {| Type_ := msgType; Timestamp := now; Data := rawData |}
  end.

(** The key of a member, quoted. *)
Definition key (name : string) : list ascii :=
  json.dq :: list_ascii_of_string name ++ [json.dq].

(** [json.Marshal] at the type [*Message]: the fields in order under their
    tags [type], [ts,omitempty] and [data,omitempty]; a [RawMessage] is
    written in compact form and must be valid. *)
Definition marshalMessage (m : Message) : list ascii + string :=
  let head := "{" :: key "type" ++ ":" :: json.encode_string (Type_ m) in
  let ts := if (Timestamp m =? 0)%Z then []
            else "," :: key "ts" ++ ":" :: Itoa (Timestamp m) in
  match Data m with
  | [] => inl (head ++ ts ++ ["}"])
  | d =>
      match json.Compact d with
      | Some c => inl (head ++ ts ++ "," :: key "data" ++ ":" :: c ++ ["}"])
      | None => inr "json: error calling MarshalJSON for type json.RawMessage"%string
      end
  end.

(** What [Unmarshal] does with one member of the object: [None] is the
    type error of a value that the field cannot hold. *)
Definition store (m : Message) (kv : list ascii * list ascii)
    : option Message :=
  let '(k, v) := kv in
  match json.unquote k with
  | None => None
  | Some name =>
      let f := json.foldName name in
      let is_null := match v with c :: _ => (c =? "n")%char | [] => false end in
      if list_eq_dec ascii_dec f (list_ascii_of_string "TYPE") then
        if is_null then Some m
        else match json.unquote v with
             | Some t => Some {| Type_ := t; Timestamp := Timestamp m;
                                 Data := Data m |}
             | None => None
             end
      else if list_eq_dec ascii_dec f (list_ascii_of_string "TS") then
        if is_null then Some m
        else match v with
             | c :: _ =>
                 if (c =? "-")%char || json.is_digit c then
                   match ParseInt v with
                   | Some z => Some {| Type_ := Type_ m; Timestamp := z;
                                       Data := Data m |}
                   | None => None
                   end
                 else None
             | [] => None
             end
      else if list_eq_dec ascii_dec f (list_ascii_of_string "DATA") then
        Some {| Type_ := Type_ m; Timestamp := Timestamp m; Data := v |}
      else Some m
  end.

Fixpoint store_all (m : Message) (kvs : list (list ascii * list ascii))
    : option Message :=
  match kvs with
  | [] => Some m
  | kv :: rest =>
      match store m kv with
      | Some m' => store_all m' rest
      | None => None
      end
  end.

(** [json.Unmarshal] at the type [*Message], into a zero message: the text
    must be valid; [null] changes nothing; an object is stored member by
    member; any other value is a type error. *)
Definition unmarshalMessage (data : list ascii) : Message + string :=
  if json.Valid data then
    match json.skip_ws data with
    | c :: r =>
        if (c =? "n")%char then inl zeroMessage
        else if (c =? "{")%char then
          match json.members (S (length r)) (json.skip_ws r) with
          | Some kvs =>
              match store_all zeroMessage kvs with
              | Some m => inl m
              | None => inr "json: cannot unmarshal value into Go struct field"%string
              end
          | None => inr "json: syntax error"%string
          end
        else inr "json: cannot unmarshal value into Go value of type protocol.Message"%string
    | [] => inr "unexpected end of JSON input"%string
    end
  else inr "json: syntax error"%string.

Definition Bytes (m : Message) : list ascii + string := marshalMessage m.

Definition ParseMessage (data : list ascii) : Message + error :=
  match unmarshalMessage data with
  | inl msg => inl msg
  | inr cause => inr (ParseFailed cause)
  end.

Record FrameData : Type := {
  Width : Z;
  Height : Z;
  Format : list ascii;
  FrameBytes : list ascii;   (* the field [Data], base64 text *)
  FrameID : Z
}.

(** [json.Marshal] at the type [FrameData]; [frame_id] carries
    [omitempty]. *)
Definition marshalFrameData (f : FrameData) : list ascii :=
  "{" :: key "width" ++ ":" :: Itoa (Width f)
  ++ "," :: key "height" ++ ":" :: Itoa (Height f)
  ++ "," :: key "format" ++ ":" :: json.encode_string (Format f)
  ++ "," :: key "data" ++ ":" :: json.encode_string (FrameBytes f)
  ++ (if (FrameID f =? 0)%Z then []
      else "," :: key "frame_id" ++ ":" :: Itoa (FrameID f))
  ++ ["}"].

Definition NewFrameMessage (width height : Z) (jpegData : list ascii)
    (frameID : Z) (now : Z) : Message + error :=
  NewMessage TypeFrame
    (Some (inl (marshalFrameData
                  {| Width := width; Height := height;
                     Format := list_ascii_of_string "jpeg";
                     FrameBytes := base64.EncodeToString jpegData;
                     FrameID := frameID |})))
    now.

End protocol.

(** ** Vocabulary of the statements about JSON texts *)

Module JsonText.

Import json.
Local Open Scope char_scope.

(** A byte that ends a number: not a digit, not a point, not an exponent
    mark. *)
Definition stop (c : ascii) : Prop :=
  is_digit c = false /\ (c =? ".")%char = false /\
  (c =? "e")%char = false /\ (c =? "E")%char = false.

(** A byte that a string literal holds as it is: printable ASCII that is
    neither the quote, nor the backslash, nor an HTML character. *)
Definition plain_char (c : ascii) : bool :=
  negb (c =? dq)%char && negb (c =? bs)%char
  && (32 <=? code c)%N && (code c <? 128)%N && negb (is_html c).

Definition plain (s : list ascii) : bool := forallb plain_char s.

(** The string literal of a plain string. *)
Definition quoted (s : list ascii) : list ascii := dq :: s ++ [dq].

(** The text of a value that can stand in an object: it scans, whatever
    follows, with [f0] units of fuel or more, and with the fuel of the text
    it is the head of; and it does not start with white space. *)
Definition good_value (f0 : nat) (v : list ascii) : Prop :=
  (forall f c t, (f0 <= f)%nat -> stop c ->
                 scan_value f (v ++ c :: t) = Some (c :: t)) /\
  (forall c t, stop c ->
               scan_value (fuel_for (v ++ c :: t)) (v ++ c :: t)
               = Some (c :: t)) /\
  (exists a v', v = a :: v' /\ is_space a = false).

(** A member that can stand in an object: a plain name and a good value. *)
Definition good_member (f0 : nat) (kv : list ascii * list ascii) : Prop :=
  plain (fst kv) = true /\ good_value f0 (snd kv).

(** The members of a non-empty object after the brace, with the closing
    brace: keys are plain names. *)
Fixpoint members_body (ms : list (list ascii * list ascii)) : list ascii :=
  match ms with
  | [] => ["}"]
  | [(k, v)] => quoted k ++ ":" :: v ++ ["}"]
  | (k, v) :: rest => quoted k ++ ":" :: v ++ "," :: members_body rest
  end.

(** The members as [json.members] returns them: keys as literals. *)
Definition literal_keys (ms : list (list ascii * list ascii))
    : list (list ascii * list ascii) :=
  map (fun kv => (quoted (fst kv), snd kv)) ms.

(** The members that [Marshal] writes for a message. *)
Definition message_members (m : protocol.Message)
    : list (list ascii * list ascii) :=
  (list_ascii_of_string "type", quoted (protocol.Type_ m))
  :: (if (protocol.Timestamp m =? 0)%Z then []
      else [(list_ascii_of_string "ts",
             strconv.Itoa (protocol.Timestamp m))])
  ++ (match protocol.Data m with
      | [] => []
      | d => [(list_ascii_of_string "data", d)]
      end).

(** The payload of a message out of [NewMessage]: none, or a text in the
    form [json.Marshal] produces. *)
Definition payload_ok (d : list ascii) : Prop := d = [] \/ Canonical d.

(** A plain byte that is not white space, and a string of such bytes:
    digits, names, base64 text. *)
Definition solid_char (c : ascii) : bool :=
  plain_char c && negb (is_space c).

Definition solid (s : list ascii) : bool := forallb solid_char s.

(** A byte that [Compact] leaves where it is, inside a string and
    outside: plain or the quote, and not white space. *)
Definition tight_char (c : ascii) : bool :=
  (plain_char c || (c =? dq)%char) && negb (is_space c).

Definition tight (s : list ascii) : bool := forallb tight_char s.

(** The members that [Marshal] writes for a frame. *)
Definition frame_members (f : protocol.FrameData)
    : list (list ascii * list ascii) :=
  [(list_ascii_of_string "width", strconv.Itoa (protocol.Width f));
   (list_ascii_of_string "height", strconv.Itoa (protocol.Height f));
   (list_ascii_of_string "format", quoted (protocol.Format f));
   (list_ascii_of_string "data", quoted (protocol.FrameBytes f))]
  ++ (if (protocol.FrameID f =? 0)%Z then []
      else [(list_ascii_of_string "frame_id",
             strconv.Itoa (protocol.FrameID f))]).

(** The frame that [NewFrameMessage] builds. *)
Definition frame_of (width height : Z) (jpegData : list ascii)
    (frameID : Z) : protocol.FrameData :=
  {| protocol.Width := width; protocol.Height := height;
     protocol.Format := list_ascii_of_string "jpeg";
     protocol.FrameBytes := base64.EncodeToString jpegData;
     protocol.FrameID := frameID |}.

End JsonText.

(** ** Concrete messages *)

Module CodecRuns.

Import protocol.

(** The payload of the frame message of the tests: 640 by 480, the bytes
    [test], frame 1. *)
Definition frame_payload : list ascii :=
  marshalFrameData
    {| Width := 640; Height := 480;
       Format := list_ascii_of_string "jpeg";
       FrameBytes := base64.EncodeToString (list_ascii_of_string "test");
       FrameID := 1 |}.

(** A time of day in 2023, in milliseconds. *)
Definition some_now : Z := 1700000000000.

(** An unterminated object. *)
Definition truncated : list ascii := list_ascii_of_string "{".

End CodecRuns.

(* ================================================================== *)
(** * Package cloud: the WebSocket client (client.go)

      The client is shared by the goroutine of [connectionLoop] and by the
      callers of its methods.  The model is a machine whose steps are the
      steps of the loop between two blocking operations and the calls of
      the methods, each taken as atomic, in any order.  [pingLoop] is
      started and not followed: it changes nothing of the client. *)
(* ================================================================== *)

(** Whether [json.Unmarshal] accepts the payload of a command for the
    struct of its type ([MotorCommand], [EmotionCommand], [SpeakData],
    [ConfigUpdate]).  The decoding itself belongs to the callbacks'
    side and is an interface of the embedding. *)
Class PayloadDecoder : Type := {
  decodes : protocol.MessageType -> list ascii -> bool
}.

(** The instance the model is run with: a payload is accepted when it is
    missing, [null] or an object. *)
#[global] Instance ObjectDecoder : PayloadDecoder := {|
  decodes _ d :=
    match d with
    | [] => true
    | c :: _ => (c =? "n")%char || (c =? "{")%char
    end
|}.

Module cloud.

Import Num protocol.
Local Open Scope Z_scope.

Record Config : Type := {
  URL : string;
  ReconnectBackoff : time.Duration;
  MaxBackoff : time.Duration;
  PingInterval : time.Duration;
  WriteTimeout : time.Duration
}.

Definition DefaultConfig : Config := {|
  URL := "ws://localhost:8080/ws/robot";
  ReconnectBackoff := 1 * time.Second;
  MaxBackoff := 30 * time.Second;
  PingInterval := 10 * time.Second;
  WriteTimeout := 5 * time.Second
|}.

(** A handle of a WebSocket connection. *)
Definition Conn : Type := nat.

(** A registered callback, by name. *)
Definition Callback : Type := nat.

Record Client : Type := {
  cfg : Config;
  conn : option Conn;
  connected : bool;
  cancel : bool;   (* [c.cancel != nil] *)
  onMotorCommand : option Callback;
  onEmotionCommand : option Callback;
  onSpeakData : option Callback;
  onConfigUpdate : option Callback;
  messagesSent : Z;
  messagesReceived : Z;
  reconnects : Z
}.

Definition NewClient (c : Config) : Client :=
  {| cfg := c; conn := None; connected := false; cancel := false;
     onMotorCommand := None; onEmotionCommand := None;
     onSpeakData := None; onConfigUpdate := None;
     messagesSent := 0; messagesReceived := 0; reconnects := 0 |}.

(** What the client does to the outside, in order. *)
Inductive Action : Type :=
| ActDial (url : string)
| ActStartPing (k : Conn)
| ActWait (d : time.Duration)
| ActWrite (k : Conn) (deadline : time.Duration) (data : list ascii)
| ActCloseConn (k : Conn)
| ActInvoke (cb : Callback) (kind : MessageType) (payload : list ascii).

Definition set_conn (c : Client) (k : option Conn) (up : bool) : Client :=
  {| cfg := cfg c; conn := k; connected := up; cancel := cancel c;
     onMotorCommand := onMotorCommand c;
     onEmotionCommand := onEmotionCommand c;
     onSpeakData := onSpeakData c; onConfigUpdate := onConfigUpdate c;
     messagesSent := messagesSent c;
     messagesReceived := messagesReceived c; reconnects := reconnects c |}.

(** The four callback slots. *)
Inductive Slot : Type := SlotMotor | SlotEmotion | SlotSpeak | SlotConfig.

(** [OnMotorCommand], [OnEmotionCommand], [OnSpeakData] and
    [OnConfigUpdate]; [None] is a nil callback. *)
Definition On (c : Client) (s : Slot) (cb : option Callback) : Client :=
  {| cfg := cfg c; conn := conn c; connected := connected c;
     cancel := cancel c;
     onMotorCommand :=
       match s with SlotMotor => cb | _ => onMotorCommand c end;
     onEmotionCommand :=
       match s with SlotEmotion => cb | _ => onEmotionCommand c end;
     onSpeakData := match s with SlotSpeak => cb | _ => onSpeakData c end;
     onConfigUpdate :=
       match s with SlotConfig => cb | _ => onConfigUpdate c end;
     messagesSent := messagesSent c;
     messagesReceived := messagesReceived c; reconnects := reconnects c |}.

Definition set_counters (c : Client) (sent received re : Z) : Client :=
  {| cfg := cfg c; conn := conn c; connected := connected c;
     cancel := cancel c; onMotorCommand := onMotorCommand c;
     onEmotionCommand := onEmotionCommand c;
     onSpeakData := onSpeakData c; onConfigUpdate := onConfigUpdate c;
     messagesSent := sent; messagesReceived := received; reconnects := re |}.

Definition closeConnection (c : Client) : Client * list Action :=
  match conn c with
  | Some k => (set_conn c None false, [ActCloseConn k])
  | None => (set_conn c None false, [])
  end.

(** [SendMessage]; [write] is what [conn.WriteMessage] answers, [None] for
    success. *)
Definition SendMessage (c : Client) (msg : Message) (write : option string)
    : Client * list Action * option error :=
  match connected c, conn c with
  | true, Some k =>
      match marshalMessage msg with
      | inr cause => (c, [], Some (MarshalFailed cause))
      | inl data =>
          let act := ActWrite k (WriteTimeout (cfg c)) data in
          match write with
          | Some cause =>
              let '(c', cl) := closeConnection c in
              (c', act :: cl, Some (WriteFailed cause))
          | None =>
              (set_counters c (wrap_u64 (messagesSent c + 1))
                            (messagesReceived c) (reconnects c),
               [act], None)
          end
      end
  | _, _ => (c, [], Some NotConnected)
  end.

(** [SendFrame]; [now] is the clock of [NewMessage]. *)
Definition SendFrame (c : Client) (width height : Z) (jpegData : list ascii)
    (frameID : Z) (now : Z) (write : option string)
    : Client * list Action * option error :=
  match NewFrameMessage width height jpegData frameID now with
  | inr err => (c, [], Some err)
  | inl msg => SendMessage c msg write
  end.

(** [Close]: cancel the context of [Connect] if there is one, and close
    the connection. *)
Definition Close (c : Client) : Client * list Action * option error :=
  let '(c', acts) := closeConnection c in (c', acts, None).

Definition IsConnected (c : Client) : bool := connected c.

Record Stats : Type := {
  Connected : bool;
  MessagesSent : Z;
  MessagesReceived : Z;
  Reconnects : Z
}.

Definition GetStats (c : Client) : Stats :=
  {| Connected := connected c; MessagesSent := messagesSent c;
     MessagesReceived := messagesReceived c; Reconnects := reconnects c |}.

Section WithDecoder.
Context {D : PayloadDecoder}.

Definition dispatch (slot : option Callback) (msg : Message) : list Action :=
  match slot with
  | Some cb =>
      if decodes (Type_ msg) (Data msg)
      then [ActInvoke cb (Type_ msg) (Data msg)] else []
  | None => []
  end.

Definition is_type (msg : Message) (t : MessageType) : bool :=
  if list_eq_dec ascii_dec (Type_ msg) t then true else false.

(** [handleMessage]; [now] is the clock of the pong, [write] what the
    write of the pong is answered if there is one. *)
Definition handleMessage (c : Client) (data : list ascii) (now : Z)
    (write : option string) : Client * list Action :=
  match ParseMessage data with
  | inr _ => (c, [])
  | inl msg =>
      if is_type msg TypeMotor then (c, dispatch (onMotorCommand c) msg)
      else if is_type msg TypeEmotion
      then (c, dispatch (onEmotionCommand c) msg)
      else if is_type msg TypeSpeak then (c, dispatch (onSpeakData c) msg)
      else if is_type msg TypeConfig
      then (c, dispatch (onConfigUpdate c) msg)
      else if is_type msg TypePing then
        let pong := {| Type_ := TypePong; Timestamp := now; Data := [] |} in
        let '(c', acts, _) := SendMessage c pong write in (c', acts)
      else (c, [])
  end.

(** Where the goroutine of [connectionLoop] stands. *)
Inductive Place : Type :=
| AtTop                 (* at the head of the [for] of [connectionLoop] *)
| Dialing               (* inside [DialContext] *)
| Waiting               (* in the [select] on the timer and the context *)
| ReadTop               (* at the head of the [for] of [readLoop] *)
| InRead (k : Conn)     (* inside [conn.ReadMessage] *)
| Exited.               (* [connectionLoop] has returned *)

(** What lets the loop take its next step. *)
Inductive Wake : Type :=
| Proceed                                (* nothing is waited for *)
| DialOk (k : Conn)
| DialErr (cause : string)
| TimerFired
| ReadOk (data : list ascii) (now : Z) (pong_write : option string)
| ReadErr (cause : string).

(** The client together with the goroutine of its loop: [place] is [None]
    as long as [Connect] has not been called; [backoff] is the local
    variable of [connectionLoop]. *)
Record Machine : Type := {
  client : Client;
  ctx_done : bool;
  place : option Place;
  backoff : time.Duration
}.

Definition machine (c : Client) (done : bool) (p : option Place)
    (b : time.Duration) : Machine :=
  {| client := c; ctx_done := done; place := p; backoff := b |}.

Definition Start (c : Client) : Machine := machine c false None 0.

(** One step of [connectionLoop], with [connect] and [readLoop] inlined. *)
Definition loop_step (m : Machine) (w : Wake) : Machine * list Action :=
  let c := client m in
  match place m, w with
  | Some AtTop, Proceed =>
      if ctx_done m then
        let '(c', acts) := closeConnection c in
        (machine c' (ctx_done m) (Some Exited) (backoff m), acts)
      else
        (machine c (ctx_done m) (Some Dialing) (backoff m),
         [ActDial (URL (cfg c))])
  | Some Dialing, DialOk k =>
      (machine (set_conn c (Some k) true) (ctx_done m) (Some ReadTop)
               (ReconnectBackoff (cfg c)),
       [ActStartPing k])
  | Some Dialing, DialErr _ =>
      (machine c (ctx_done m) (Some Waiting) (backoff m),
       [ActWait (backoff m)])
  | Some Waiting, TimerFired =>
      let b := wrap_i64 (backoff m * 2) in
      let b := if MaxBackoff (cfg c) <? b then MaxBackoff (cfg c) else b in
      (machine (set_counters c (messagesSent c) (messagesReceived c)
                             (wrap_u64 (reconnects c + 1)))
               (ctx_done m) (Some AtTop) b,
       [])
  | Some Waiting, Proceed =>
      if ctx_done m
      then (machine c (ctx_done m) (Some Exited) (backoff m), [])
      else (m, [])
  | Some ReadTop, Proceed =>
      if ctx_done m
      then (machine c (ctx_done m) (Some AtTop) (backoff m), [])
      else
        match conn c with
        | None => (machine c (ctx_done m) (Some AtTop) (backoff m), [])
        | Some k => (machine c (ctx_done m) (Some (InRead k)) (backoff m), [])
        end
  | Some (InRead k), ReadErr _ =>
      let '(c', acts) := closeConnection c in
      (machine c' (ctx_done m) (Some AtTop) (backoff m), acts)
  | Some (InRead k), ReadOk data now pong_write =>
      let c1 := set_counters c (messagesSent c)
                             (wrap_u64 (messagesReceived c + 1))
                             (reconnects c) in
      let '(c2, acts) := handleMessage c1 data now pong_write in
      (machine c2 (ctx_done m) (Some ReadTop) (backoff m), acts)
  | _, _ => (m, [])
  end.

(** What happens to the machine: a step of the loop, or a call from
    another goroutine.  [Connect] starts the loop once; the machine has no
    second loop for a second [Connect]. *)
Inductive Event : Type :=
| Loop (w : Wake)
| CallConnect
| CancelParent
| CallClose
| CallSendMessage (msg : Message) (write : option string)
| CallSendFrame (width height : Z) (jpegData : list ascii) (frameID : Z)
                (now : Z) (write : option string)
| CallOn (s : Slot) (cb : option Callback).

Definition with_client (m : Machine) (c : Client) : Machine :=
  machine c (ctx_done m) (place m) (backoff m).

Definition step (m : Machine) (e : Event) : Machine * list Action :=
  match e with
  | Loop w => loop_step m w
  | CallConnect =>
      let c := client m in
      match place m with
      | Some _ => (m, [])
      | None =>
          (machine {| cfg := cfg c; conn := conn c; connected := connected c;
                      cancel := true; onMotorCommand := onMotorCommand c;
                      onEmotionCommand := onEmotionCommand c;
                      onSpeakData := onSpeakData c;
                      onConfigUpdate := onConfigUpdate c;
                      messagesSent := messagesSent c;
                      messagesReceived := messagesReceived c;
                      reconnects := reconnects c |}
                   (ctx_done m) (Some AtTop) (ReconnectBackoff (cfg c)), [])
      end
  | CancelParent => (machine (client m) true (place m) (backoff m), [])
  | CallClose =>
      let '(c', acts, _) := Close (client m) in
      (machine c' (if cancel (client m) then true else ctx_done m)
               (place m) (backoff m), acts)
  | CallSendMessage msg write =>
      let '(c', acts, _) := SendMessage (client m) msg write in
      (with_client m c', acts)
  | CallSendFrame width height jpegData frameID now write =>
      let '(c', acts, _) :=
        SendFrame (client m) width height jpegData frameID now write in
      (with_client m c', acts)
  | CallOn s cb => (with_client m (On (client m) s cb), [])
  end.

(** A run: the machine afterwards and everything that was done. *)
Fixpoint run (m : Machine) (es : list Event) : Machine * list Action :=
  match es with
  | [] => (m, [])
  | e :: rest =>
      let '(m1, a1) := step m e in
      let '(m2, a2) := run m1 rest in
      (m2, a1 ++ a2)
  end.

End WithDecoder.

(** What holds in every state that is reached: the client has the
    configuration it was made with, and while the loop reads, its backoff
    is the initial one. *)
Definition settled (c0 : Config) (m : Machine) : Prop :=
  cfg (client m) = c0 /\
  match place m with
  | Some ReadTop | Some (InRead _) => backoff m = ReconnectBackoff c0
  | _ => True
  end.

(** The backoff after a wait: doubled in [int64], capped at the maximum. *)
Definition next_backoff (c0 : Config) (b : time.Duration) : time.Duration :=
  if MaxBackoff c0 <? wrap_i64 (b * 2) then MaxBackoff c0
  else wrap_i64 (b * 2).

(** An action that is a wait. *)
Definition is_wait (a : Action) : bool :=
  match a with ActWait _ => true | _ => false end.

(** The number of calls of [Connect] among the events.  The machine
    follows the loop of one call. *)
Definition connects (es : list Event) : nat :=
  length (filter (fun e => match e with CallConnect => true | _ => false end)
                 es).

(** An action that is a dial. *)
Definition is_dial (a : Action) : bool :=
  match a with ActDial _ => true | _ => false end.

(** An action that is neither a dial nor a wait. *)
Definition quiet_action (a : Action) : Prop :=
  is_dial a = false /\ is_wait a = false.

(** The flag and the handle of the connection agree. *)
Definition linked (c : Client) : Prop :=
  connected c = match conn c with Some _ => true | None => false end.

(** The callback that [handleMessage] has for a type of message. *)
Definition handler (c : Client) (t : MessageType) : option Callback :=
  if list_eq_dec ascii_dec t TypeMotor then onMotorCommand c
  else if list_eq_dec ascii_dec t TypeEmotion then onEmotionCommand c
  else if list_eq_dec ascii_dec t TypeSpeak then onSpeakData c
  else if list_eq_dec ascii_dec t TypeConfig then onConfigUpdate c
  else None.

(** The answer to a ping. *)
Definition pong (now : Z) : Message :=
  {| Type_ := TypePong; Timestamp := now; Data := [] |}.

(** The client after a write that succeeded. *)
Definition sent_one (c : Client) : Client :=
  set_counters c (wrap_u64 (messagesSent c + 1)) (messagesReceived c)
               (reconnects c).

(** A backoff that the loop may hold: the initial one, or one that is not
    above the maximum. *)
Definition backoff_ok (c0 : Config) (m : Machine) : Prop :=
  cfg (client m) = c0 /\
  (place m = None \/ backoff m = ReconnectBackoff c0
   \/ backoff m <= MaxBackoff c0).

End cloud.

(** ** Concrete runs of the client *)

Module CloudRuns.

Import cloud.

(** [Connect], a dial that succeeds, and the loop blocked in its first
    read. *)
Definition established : list Event :=
  [CallConnect; Loop Proceed; Loop (DialOk 1%nat); Loop Proceed].

(** The connection then ends in a read error, and the loop goes on. *)
Definition dropped : list Event :=
  established ++ [Loop (ReadErr "EOF"); Loop Proceed].

(** The client of an established connection. *)
Definition online : Client :=
  client (fst (run (Start (NewClient DefaultConfig)) established)).

(** A ping of the cloud. *)
Definition ping_text : list ascii :=
  ("{" :: protocol.key "type"
   ++ ":" :: protocol.key "ping" ++ ["}"])%char.

End CloudRuns.

(* ================================================================== *)
(** * Coordinate conversion and the tracker *)
(* ================================================================== *)

Section Tracker.

Import Num doa tracker TrackerRuns.
Local Open Scope Q_scope.

Lemma Qltb_true (x y : Q) : Qltb x y = true <-> x < y.
Proof.
  unfold Qltb. rewrite negb_true_iff. split; intro H.
  - apply Qnot_le_lt. intro Hle. apply Qle_bool_iff in Hle. congruence.
  - destruct (Qle_bool y x) eqn:E; [|reflexivity].
    apply Qle_bool_iff in E. exfalso. apply (Qlt_not_le _ _ H E).
Qed.

Lemma Qltb_false (x y : Q) : Qltb x y = false <-> y <= x.
Proof.
  unfold Qltb. rewrite negb_false_iff. apply Qle_bool_iff.
Qed.

Lemma Qleb_true (x y : Q) : Qleb x y = true <-> x <= y.
Proof. apply Qle_bool_iff. Qed.











Ltac qcases :=
  repeat match goal with
  | |- context [Qltb ?x ?y] =>
      let E := fresh "E" in
      destruct (Qltb x y) eqn:E;
      [apply Qltb_true in E | apply Qltb_false in E]
  end.


Lemma Clamp_lower (x lo : Q) : 0 <= lo -> lo <= 1 -> lo <= x -> lo <= Clamp x 0 1.
Proof. intros. unfold Clamp. qcases; lra. Qed.


Section Poll.
Context {M : MathLib}.

Lemma appendHistory_total (hs : Z) h r :
  (0 <= hs)%Z -> exists h', appendHistory hs h r = Some h'.
Proof.
  intro H. unfold appendHistory.
  destruct (hs <? Z.of_nat (length (h ++ [r])))%Z; [|eauto].
  destruct (hs <? 0)%Z eqn:E; [apply Z.ltb_lt in E; lia | eauto].
Qed.

Lemma updateSpeakingLatch_frame t now s b :
  let t1 := fst (updateSpeakingLatch t now s b) in
  cfg t1 = cfg t /\ history t1 = history t /\ latest t1 = latest t.
Proof.
  unfold updateSpeakingLatch. destruct b; simpl; auto.
  destruct (_ <? _)%Z; simpl; auto.
Qed.


Lemma poll_ok_inv t clk rd :
  (0 <= HistorySize (cfg t))%Z ->
  exists t', poll t clk (inl rd) = Some (t', None) /\
    cfg t' = cfg t /\
    SmoothedAngle (latest t') = smooth t rd /\
    SpeakingLatched (latest t') =
      snd (updateSpeakingLatch t (at_latch clk) (at_since clk) (Speaking rd)) /\
    speakingLatchedAt t' =
      speakingLatchedAt (fst (updateSpeakingLatch t (at_latch clk) (at_since clk) (Speaking rd))) /\
    Confidence (latest t') =
      calculateConfidence t (SpeakingLatched (latest t')) (smooth t rd) /\
    appendHistory (HistorySize (cfg t)) (history t) (latest t') = Some (history t').
Proof.
  intro H. unfold poll. simpl.
  destruct (updateSpeakingLatch t (at_latch clk) (at_since clk) (Speaking rd))
    as [t1 latched] eqn:EU.
  pose proof (updateSpeakingLatch_frame t (at_latch clk) (at_since clk) (Speaking rd)) as F.
  rewrite EU in F. simpl in F. destruct F as (Fc & Fh & Fl).
  match goal with |- context [appendHistory ?a ?b ?c] =>
    destruct (appendHistory_total a b c H) as [h' Hh] end.
  rewrite Hh. eexists. split; [reflexivity|]. simpl.
  repeat split; auto.
  unfold calculateConfidence. rewrite Fc, Fh. reflexivity.
Qed.

Lemma poll_err_inv t clk e :
  exists t', poll t clk (inr e) = Some (t', Some e) /\
    cfg t' = cfg t /\ latest t' = latest t /\ history t' = history t /\
    speakingLatchedAt t' = speakingLatchedAt t.
Proof. eexists. split; [reflexivity|]. simpl. auto. Qed.
End Poll.




Section EMA.
Context {M : MathLib}.

(** C6, as amended.  With [ema_alpha = 0.5], an empty history and a
    history size of at least 1, two consecutive successful polls with
    angles a then b give the smoothed angles a and then 0.5 b + 0.5 a. *)
Theorem ema_two_polls (t0 : Tracker) (c1 c2 : PollClock) (r1 r2 : Reading) :
  history t0 = [] ->
  EMAAlpha (cfg t0) == 1 # 2 ->
  (1 <= HistorySize (cfg t0))%Z ->
  exists t1 t2,
    poll t0 c1 (inl r1) = Some (t1, None) /\
    poll t1 c2 (inl r2) = Some (t2, None) /\
    SmoothedAngle (latest t1) == Angle r1 /\
    SmoothedAngle (latest t2) == (1 # 2) * Angle r2 + (1 # 2) * Angle r1.
Proof.
  intros Hh Ha Hs.
  destruct (poll_ok_inv t0 c1 r1) as (t1 & P1 & C1 & S1 & _ & _ & _ & A1); [lia|].
  destruct (poll_ok_inv t1 c2 r2) as (t2 & P2 & C2 & S2 & _); [rewrite C1; lia|].
  exists t1, t2. repeat split; auto.
  - rewrite S1. unfold smooth. rewrite Hh. reflexivity.
  - rewrite S2. unfold smooth.
    assert (Hne : (0 <? length (history t1))%nat = true).
    { rewrite Hh in A1. unfold appendHistory in A1. simpl in A1.
      destruct (HistorySize (cfg t0) <? 1)%Z eqn:E.
      - apply Z.ltb_lt in E. lia.
      - injection A1 as <-. reflexivity. }
    rewrite Hne, C1, Ha, S1. unfold smooth. rewrite Hh. simpl. ring.
Qed.
End EMA.


Lemma ema_two_polls_witness :
  exists t1 t2,
    poll (after (with_history (1 # 2) 10) []) (tick 0) (inl (quiet 1))
      = Some (t1, None) /\
    poll t1 (tick 50) (inl (quiet 0)) = Some (t2, None) /\
    SmoothedAngle (latest t1) == Angle (quiet 1) /\
    SmoothedAngle (latest t2)
    == (1 # 2) * Angle (quiet 0) + (1 # 2) * Angle (quiet 1).
Proof.
  apply (ema_two_polls (after (with_history (1 # 2) 10) []));
    [reflexivity | reflexivity | vm_compute; discriminate].
Defined.

(** C6, the claim as stated fails when [history_size = 0]: the history is
    empty again after the first poll, and the second poll returns the raw
    angle. *)
Lemma ema_counterexample :
  exists t0 t1 t2,
    NewTracker cfg_h0 = Some t0 /\
    poll t0 (tick 0) (inl (quiet 1)) = Some (t1, None) /\
    poll t1 (tick 50) (inl (quiet 0)) = Some (t2, None) /\
    SmoothedAngle (latest t1) == 1 /\
    EMAAlpha (cfg t0) == 1 # 2 /\ history t0 = [] /\
    ~ SmoothedAngle (latest t2) == (1 # 2) * 0 + (1 # 2) * 1.
Proof.
  do 3 eexists.
  split; [cbv; reflexivity|]. split; [cbv; reflexivity|].
  split; [cbv; reflexivity|]. split; [reflexivity|].
  split; [reflexivity|]. split; [reflexivity|]. discriminate.
Qed.




Section Confidence.
Context {M : MathLib}.




Lemma calculateConfidence_base (t : Tracker) (b : bool) (a : Q) :
  cfg_ok (cfg t) ->
  Base (ConfidenceCfg (cfg t)) <= calculateConfidence t b a.
Proof.
  intros (_ & Hb & Hsp & Hst). unfold calculateConfidence.
  apply Clamp_lower; try lra.
  destruct b, (5 <=? length (history t))%nat; qcases; lra.
Qed.

Lemma GetTarget_ok (t : Tracker) :
  Base (ConfidenceCfg (cfg t)) <= Confidence (latest t) ->
  GetTarget t = (SmoothedAngle (latest t), Confidence (latest t), true).
Proof.
  intro H. unfold GetTarget.
  destruct (Qltb _ _) eqn:E; [apply Qltb_true in E; lra | reflexivity].
Qed.

Lemma Run_keeps_target (ticks : list PollInput) : forall t,
  cfg_ok (cfg t) ->
  Base (ConfidenceCfg (cfg t)) <= Confidence (latest t) ->
  exists t', Run t ticks = Some t' /\ cfg t' = cfg t /\
             Base (ConfidenceCfg (cfg t')) <= Confidence (latest t').
Proof.
  induction ticks as [|i ticks IH]; intros t Hc Hb.
  - exists t. simpl. auto.
  - simpl. destruct (source i) as [rd|e].
    + destruct (@poll_ok_inv _ t (clock i) rd) as (t1 & P & C & _ & _ & _ & K & _);
        [apply Hc|].
      rewrite P.
      destruct (IH t1) as (t' & R & C' & B').
      * rewrite C. exact Hc.
      * rewrite C, K. apply calculateConfidence_base. exact Hc.
      * exists t'. rewrite R, C', C. rewrite C', C in B'. auto.
    + destruct (poll_err_inv t (clock i) e) as (t1 & P & C & L & _).
      rewrite P.
      destruct (IH t1) as (t' & R & C' & B').
      * rewrite C. exact Hc.
      * rewrite C, L. exact Hb.
      * exists t'. rewrite R, C', C. rewrite C', C in B'. auto.
Qed.

Lemma Run_app (t : Tracker) (a b : list PollInput) :
  Run t (a ++ b) = match Run t a with Some t1 => Run t1 b | None => None end.
Proof.
  revert t. induction a as [|i a IH]; intro t; simpl; [reflexivity|].
  destruct (poll t (clock i) (source i)) as [[t1 e]|]; auto.
Qed.

Lemma Run_total (ticks : list PollInput) : forall t,
  (0 <= HistorySize (cfg t))%Z ->
  exists t', Run t ticks = Some t' /\ cfg t' = cfg t.
Proof.
  induction ticks as [|i ticks IH]; intros t H.
  - exists t. auto.
  - simpl. destruct (source i) as [rd|e].
    + destruct (@poll_ok_inv _ t (clock i) rd H) as (t1 & P & C & _).
      rewrite P. destruct (IH t1) as (t' & R & C'); [rewrite C; exact H|].
      exists t'. rewrite C', C. auto.
    + destruct (poll_err_inv t (clock i) e) as (t1 & P & C & _).
      rewrite P. destruct (IH t1) as (t' & R & C'); [rewrite C; exact H|].
      exists t'. rewrite C', C. auto.
Qed.

(** C10, as amended.  When the base lies in [0,1] and neither bonus is
    negative, every successful poll yields a confidence of at least the
    base, and from then on, whatever ticks follow, [GetTarget] answers
    [ok = true]. *)
Theorem confidence_never_below_base (t : Tracker)
    (before after : list PollInput) (p : PollInput) (rd : Reading) :
  cfg_ok (cfg t) ->
  source p = inl rd ->
  exists t1 t2,
    Run t (before ++ [p]) = Some t1 /\
    Run t1 after = Some t2 /\
    Base (ConfidenceCfg (cfg t)) <= Confidence (latest t1) /\
    Base (ConfidenceCfg (cfg t)) <= Confidence (latest t2) /\
    snd (GetTarget t1) = true /\ snd (GetTarget t2) = true.
Proof.
  intros Hc Hp.
  destruct (@Run_total before t) as (t0 & R0 & C0); [apply Hc|].
  destruct (@poll_ok_inv _ t0 (clock p) rd) as (t1 & P & C1 & _ & _ & _ & K & _);
    [rewrite C0; apply Hc|].
  assert (B1 : Base (ConfidenceCfg (cfg t1)) <= Confidence (latest t1)).
  { rewrite C1, K. apply calculateConfidence_base. rewrite C0. exact Hc. }
  destruct (@Run_keeps_target after t1) as (t2 & R2 & C2 & B2);
    [rewrite C1, C0; exact Hc | exact B1 |].
  exists t1, t2.
  rewrite Run_app, R0. simpl. rewrite Hp, P.
  repeat split; auto.
  - rewrite <- C0, <- C1. exact B1.
  - rewrite <- C0, <- C1, <- C2. exact B2.
  - rewrite (GetTarget_ok _ B1). reflexivity.
  - rewrite (GetTarget_ok _ B2). reflexivity.
Qed.
End Confidence.






Lemma confidence_never_below_base_witness :
  exists t1 t2,
    Run (after DefaultTrackerConfig []) ([] ++ [heard 0 (quiet 0)])
      = Some t1 /\
    Run t1 [heard 50 (voiced 1)] = Some t2 /\
    Base (ConfidenceCfg DefaultTrackerConfig) <= Confidence (latest t1) /\
    Base (ConfidenceCfg DefaultTrackerConfig) <= Confidence (latest t2) /\
    snd (GetTarget t1) = true /\ snd (GetTarget t2) = true.
Proof.
  apply (confidence_never_below_base
           (after DefaultTrackerConfig []) [] [heard 50 (voiced 1)]
           (heard 0 (quiet 0)) (quiet 0)).
  - vm_compute. repeat split; discriminate.
  - reflexivity.
Defined.

(** C10, the claim as stated fails for a configuration whose base is in
    [0,1] but whose speaking bonus is negative: the confidence of a
    successful poll is 0, below the base 0.3, and [GetTarget] answers
    [ok = false]. *)
Lemma base_gate_counterexample :
  exists t0 t1,
    NewTracker cfg_penalty = Some t0 /\
    poll t0 (tick 0) (inl (voiced 0)) = Some (t1, None) /\
    ~ (Base (ConfidenceCfg cfg_penalty) <= Confidence (latest t1)) /\
    GetTarget t1 = (0, 0, false).
Proof.
  do 2 eexists.
  split; [cbv; reflexivity|]. split; [cbv; reflexivity|].
  split; [|reflexivity]. cbv. intro H. apply H. reflexivity.
Qed.

Lemma duration_bounds : (time.minDuration < 0 < time.maxDuration)%Z.
Proof. split; reflexivity. Qed.

Lemma Sub_cases (t u : Z) :
  (time.Sub t u = time.maxDuration /\ time.maxDuration < t - u)%Z \/
  (time.Sub t u = time.minDuration /\ t - u < time.minDuration)%Z \/
  (time.Sub t u = t - u /\ time.minDuration <= t - u <= time.maxDuration)%Z.
Proof.
  pose proof duration_bounds as B. unfold time.Sub.
  destruct (Z.ltb_spec time.maxDuration (t - u)); [left; lia|].
  destruct (Z.ltb_spec (t - u) time.minDuration); [right; left; lia|].
  right; right; lia.
Qed.

Section Latch.
Context {M : MathLib}.


Lemma poll_latch_time (t : Tracker) (i : PollInput) (lo : Z) (u : Z) :
  (0 <= HistorySize (cfg t))%Z ->
  speakingLatchedAt t = Some u -> (lo <= u)%Z ->
  (lo <= at_latch (clock i))%Z ->
  exists t' e u', poll t (clock i) (source i) = Some (t', e) /\
    cfg t' = cfg t /\ speakingLatchedAt t' = Some u' /\ (lo <= u')%Z /\
    (quiet_tick i -> u' = u).
Proof.
  intros Hs Hu Hlo Hi. destruct (source i) as [rd|e] eqn:Es.
  - destruct (@poll_ok_inv _ t (clock i) rd Hs) as (t' & P & C & _ & _ & A & _).
    unfold updateSpeakingLatch in A.
    destruct (Speaking rd) eqn:Sp.
    + exists t', None, (at_latch (clock i)). simpl in A.
      repeat split; auto. intro Q. specialize (Q rd Es). congruence.
    + exists t', None, u.
      assert (speakingLatchedAt t' = Some u).
      { rewrite A. destruct (_ <? _)%Z; simpl; exact Hu. }
      repeat split; auto.
  - destruct (poll_err_inv t (clock i) e) as (t' & P & C & _ & _ & A).
    exists t', (Some e), u. rewrite A. repeat split; auto.
Qed.

Lemma Run_latch_time (mid : list PollInput) (lo : Z) : forall t u,
  (0 <= HistorySize (cfg t))%Z ->
  speakingLatchedAt t = Some u -> (lo <= u)%Z ->
  Forall (fun m => lo <= at_latch (clock m))%Z mid ->
  exists t' u', Run t mid = Some t' /\ cfg t' = cfg t /\
    speakingLatchedAt t' = Some u' /\ (lo <= u')%Z /\
    (Forall quiet_tick mid -> u' = u).
Proof.
  induction mid as [|i mid IH]; intros t u Hs Hu Hlo Hm.
  - exists t, u. simpl. auto.
  - inversion Hm as [|? ? Hi Hm']; subst.
    destruct (poll_latch_time t i lo u Hs Hu Hlo Hi)
      as (t1 & e & u1 & P & C & A & L & Q).
    destruct (IH t1 u1) as (t' & u' & R & C' & A' & L' & Q'); auto.
    { rewrite C. exact Hs. }
    exists t', u'. simpl. rewrite P, R, C', C. repeat split; auto.
    intro F. inversion F; subst. rewrite Q', Q; auto.
Qed.

(** C3, as amended.  After a poll that saw [speaking = true] at time t,
    on a clock that does not run backwards: a later poll with
    [speaking = false] at a time in [t, t + latch) is latched; a poll
    with [speaking = false] at or after t + latch is not latched,
    provided no poll in between saw speech. *)
Theorem latch_window (t0 : Tracker) (p q : PollInput)
    (mid : list PollInput) (rp rq : Reading) :
  (0 <= HistorySize (cfg t0))%Z ->
  (time.minDuration <= SpeakingLatchDur (cfg t0) <= time.maxDuration)%Z ->
  source p = inl rp -> Speaking rp = true ->
  source q = inl rq -> Speaking rq = false ->
  Forall (fun m => at_latch (clock p) <= at_latch (clock m))%Z mid ->
  exists t1 t2,
    Run t0 (p :: mid) = Some t1 /\
    poll t1 (clock q) (source q) = Some (t2, None) /\
    ((at_latch (clock p) <= at_since (clock q)
      < at_latch (clock p) + SpeakingLatchDur (cfg t0))%Z ->
     SpeakingLatched (latest t2) = true) /\
    ((at_latch (clock p) + SpeakingLatchDur (cfg t0)
      <= at_since (clock q))%Z ->
     Forall quiet_tick mid ->
     SpeakingLatched (latest t2) = false).
Proof.
  intros Hs Hd Hp Sp Hq Sq Hm.
  destruct (@poll_ok_inv _ t0 (clock p) rp Hs) as (tp & Pp & Cp & _ & _ & Ap & _).
  unfold updateSpeakingLatch in Ap. rewrite Sp in Ap. simpl in Ap.
  destruct (Run_latch_time mid (at_latch (clock p)) tp (at_latch (clock p)))
    as (t1 & u & R & C1 & A1 & L1 & Q1); auto; try lia.
  { rewrite Cp. exact Hs. }
  destruct (@poll_ok_inv _ t1 (clock q) rq) as (t2 & Pq & Cq & _ & Lq & _).
  { rewrite C1, Cp. exact Hs. }
  exists t1, t2. simpl. rewrite Hp, Pp, Hq. repeat split; auto.
  - intros [Hlo Hhi]. rewrite Lq. unfold updateSpeakingLatch.
    rewrite Sq, A1, C1, Cp. simpl.
    assert (E : (time.Sub (at_since (clock q)) u <? SpeakingLatchDur (cfg t0))%Z = true).
    { apply Z.ltb_lt. pose proof duration_bounds as B.
      destruct (Sub_cases (at_since (clock q)) u)
        as [[-> ?]|[[-> ?]|[-> ?]]]; lia. }
    rewrite E. reflexivity.
  - intros Hhi Hquiet. rewrite Lq. unfold updateSpeakingLatch.
    rewrite Sq, A1, C1, Cp, (Q1 Hquiet). simpl.
    assert (E : (time.Sub (at_since (clock q)) (at_latch (clock p))
                 <? SpeakingLatchDur (cfg t0))%Z = false).
    { apply Z.ltb_ge. pose proof duration_bounds as B.
      destruct (Sub_cases (at_since (clock q)) (at_latch (clock p)))
        as [[-> ?]|[[-> ?]|[-> ?]]]; lia. }
    rewrite E. reflexivity.
Qed.
End Latch.


Lemma latch_window_witness :
  exists t1 t2,
    Run (after cfg_latch50 []) (heard 0 (voiced 0) :: [heard 20 (quiet 0)])
      = Some t1 /\
    poll t1 (clock (heard 40 (quiet 0))) (source (heard 40 (quiet 0)))
      = Some (t2, None) /\
    ((at_latch (tick 0) <= at_since (tick 40)
      < at_latch (tick 0) + SpeakingLatchDur cfg_latch50)%Z ->
     SpeakingLatched (latest t2) = true) /\
    ((at_latch (tick 0) + SpeakingLatchDur cfg_latch50
      <= at_since (tick 40))%Z ->
     Forall quiet_tick [heard 20 (quiet 0)] ->
     SpeakingLatched (latest t2) = false).
Proof.
  apply (latch_window (after cfg_latch50 []) (heard 0 (voiced 0))
           (heard 40 (quiet 0)) [heard 20 (quiet 0)] (voiced 0) (quiet 0)).
  - vm_compute. discriminate.
  - vm_compute. split; discriminate.
  - reflexivity.
  - reflexivity.
  - reflexivity.
  - reflexivity.
  - repeat constructor. vm_compute. discriminate.
Defined.

(** C3, the claim as stated fails when speech is seen again in between:
    speech at 0 ms and at 40 ms, latch 50 ms; the silent poll at 60 ms is
    at or after 0 + 50 ms and is still latched. *)
Lemma latch_release_counterexample :
  exists t0 t1 t2,
    NewTracker cfg_latch50 = Some t0 /\
    Run t0 [heard 0 (voiced 0); heard 40 (voiced 0)] = Some t1 /\
    poll t1 (tick 60) (inl (quiet 0)) = Some (t2, None) /\
    (at_latch (tick 0) + SpeakingLatchDur cfg_latch50 <= at_since (tick 60))%Z /\
    SpeakingLatched (latest t2) <> false.
Proof.
  do 3 eexists.
  split; [cbv; reflexivity|]. split; [cbv; reflexivity|].
  split; [cbv; reflexivity|]. split; [cbv; discriminate|]. discriminate.
Qed.

End Tracker.

(* ================================================================== *)
(** * The USB source *)
(* ================================================================== *)

Section UsbSource.

Import xvf3800 UsbRuns.
Local Open Scope Z_scope.

Lemma GetDOA_closed (u : USBSource) (env : UsbEnv) :
  closed u = true -> GetDOA u env = Some (u, [], inr DeviceClosed).
Proof. intro H. unfold GetDOA. rewrite H. reflexivity. Qed.

Lemma Close_closed (u : USBSource) :
  closed u = true -> Close u = (u, [], None).
Proof. intro H. unfold Close. rewrite H. reflexivity. Qed.

Lemma Close_closes (u : USBSource) :
  exists u' ops, Close u = (u', ops, None) /\ closed u' = true.
Proof.
  unfold Close. destruct (closed u) eqn:E.
  - exists u, []. auto.
  - destruct (dev u); simpl; destruct (ctx u); simpl; eauto.
Qed.

Lemma calls_closed (cs : list Call) : forall u,
  closed u = true -> calls u cs = Some (u, map closed_answer cs).
Proof.
  induction cs as [|c cs IH]; intros u H; [reflexivity|].
  destruct c as [env|]; simpl.
  - rewrite (GetDOA_closed u env H), (IH u H). reflexivity.
  - rewrite (Close_closed u H), (IH u H). reflexivity.
Qed.

(** C9.  On the mock source and on the USB source two calls of [Close]
    both return nil; and on the USB source whatever is called after a
    [Close], every [GetDOA] returns the closed error (and every further
    [Close] nil) without one operation on the device and without a change
    of the source. *)
Theorem Close_twice_then_closed :
  (forall m : MockSource,
     snd (MockClose m) = None /\ snd (MockClose (fst (MockClose m))) = None) /\
  (forall (u : USBSource) (cs : list Call),
     exists u' ops,
       Close u = (u', ops, None) /\
       Close u' = (u', [], None) /\
       calls u' cs = Some (u', map closed_answer cs)).
Proof.
  split.
  - intro m. split; reflexivity.
  - intros u cs. destruct (Close_closes u) as (u' & ops & HC & Hcl).
    exists u', ops. split; [exact HC|]. split.
    + apply Close_closed. exact Hcl.
    + apply calls_closed. exact Hcl.
Qed.

Lemma recordSuccess_fields (u : USBSource) :
  consecutiveErrors (recordSuccess u) = 0 /\
  healthy (recordSuccess u) = true /\
  reconnectBackoff (recordSuccess u) = 100 * time.Millisecond.
Proof. repeat split. Qed.

Lemma recordError_backoff (u : USBSource) (e : error) (now : time.Time) :
  reconnectBackoff (fst (recordError u e now)) = reconnectBackoff u.
Proof.
  unfold recordError. simpl. destruct (_ <=? _); [|reflexivity].
  destruct (dev u); reflexivity.
Qed.

(** What every successful [GetDOA] leaves behind: no consecutive errors,
    and a backoff of 100 ms, the initial backoff of the default
    configuration, whatever the source was configured with. *)
Lemma GetDOA_success_resets (u u' : USBSource) (env : UsbEnv)
    (ops : list DevOp) (r : doa.Reading) :
  GetDOA u env = Some (u', ops, inl r) ->
  consecutiveErrors u' = 0 /\
  reconnectBackoff u' = InitialBackoff DefaultUSBSourceConfig.
Proof.
  unfold GetDOA. destruct (closed u); [discriminate|].
  destruct (match dev u with
            | Some _ => (u, [], None)
            | None => reconnect u env
            end) as [[u1 ops1] rc].
  destruct rc; [discriminate|].
  destruct (dev u1); [|discriminate].
  destruct (doa_answer env) as [n buf|cause].
  - destruct (n <? 9).
    + destruct (recordError _ _ _). discriminate.
    + destruct (negb _).
      * destruct (recordError _ _ _). discriminate.
      * intro H. injection H as <- _ _. split; reflexivity.
  - destruct (recordError _ _ _). discriminate.
Qed.

(** C4, the code at the failing input.  A source configured with an
    initial backoff of 200 ms, one failed transfer, one successful
    transfer: the error count is back at 0, and the backoff is 100 ms, not
    the configured 200 ms. *)
Theorem recordSuccess_forgets_InitialBackoff :
  exists u1 u2 ops1 ops2 e r,
    reconnectBackoff (opened cfg_200ms) = InitialBackoff cfg_200ms /\
    GetDOA (opened cfg_200ms) env_stall = Some (u1, ops1, inr e) /\
    consecutiveErrors u1 = 1 /\
    GetDOA u1 env_ok = Some (u2, ops2, inl r) /\
    consecutiveErrors u2 = 0 /\
    reconnectBackoff u2 = 100 * time.Millisecond /\
    reconnectBackoff u2 <> InitialBackoff cfg_200ms.
Proof.
  do 6 eexists.
  split; [reflexivity|]. split; [cbv; reflexivity|].
  split; [reflexivity|]. split; [cbv; reflexivity|].
  split; [reflexivity|]. split; [reflexivity|]. cbv. discriminate.
Qed.

End UsbSource.

(* ================================================================== *)
(** * The message codec *)
(* ================================================================== *)

Section JsonScanner.

Import json JsonText.
Local Open Scope char_scope.

Lemma skip_ws_app (s t r : list ascii) (c : ascii) :
  skip_ws s = c :: r -> skip_ws (s ++ t) = c :: r ++ t.
Proof.
  induction s as [|a s IH]; simpl; [discriminate|].
  destruct (is_space a); [exact IH|].
  intro H. injection H as <- <-. reflexivity.
Qed.

Lemma skip_digits_app (s t : list ascii) (c : ascii) :
  is_digit c = false ->
  skip_digits (s ++ c :: t) = skip_digits s ++ c :: t.
Proof.
  intro Hc. induction s as [|a s IH]; simpl.
  - rewrite Hc. reflexivity.
  - destruct (is_digit a); [exact IH | reflexivity].
Qed.

Lemma strip_prefix_app (p : list ascii) : forall s r t,
  strip_prefix p s = Some r -> strip_prefix p (s ++ t) = Some (r ++ t).
Proof.
  induction p as [|a p IH]; intros s r t; simpl.
  - intro H. injection H as <-. reflexivity.
  - destruct s as [|c s]; [discriminate|]. simpl.
    destruct (a =? c)%char; [apply IH | discriminate].
Qed.

Lemma scan_string_app_len (n : nat) : forall s r t,
  (length s <= n)%nat ->
  scan_string s = Some r -> scan_string (s ++ t) = Some (r ++ t).
Proof.
  induction n as [|n IH]; intros s r t Hn.
  - destruct s; [discriminate | simpl in Hn; lia].
  - destruct s as [|c s]; [discriminate|]. simpl in Hn. simpl.
    destruct (c =? dq)%char.
    + intro H. injection H as <-. reflexivity.
    + destruct (c =? bs)%char.
      * destruct s as [|e s]; [discriminate|]. simpl.
        destruct (e =? "u")%char.
        -- destruct s as [|h1 [|h2 [|h3 [|h4 s]]]]; try discriminate. simpl.
           destruct (is_hex h1 && is_hex h2 && is_hex h3 && is_hex h4);
             [|discriminate].
           apply IH. simpl in Hn. lia.
        -- destruct (is_escape e); [|discriminate].
           apply IH. simpl in Hn. lia.
      * destruct (code c <? 32)%N; [discriminate|].
        apply IH. lia.
Qed.

Lemma scan_string_app (s r t : list ascii) :
  scan_string s = Some r -> scan_string (s ++ t) = Some (r ++ t).
Proof. apply (scan_string_app_len (length s)). lia. Qed.

Lemma scan_digits1_app (s r t : list ascii) (c : ascii) :
  stop c -> scan_digits1 s = Some r ->
  scan_digits1 (s ++ c :: t) = Some (r ++ c :: t).
Proof.
  intros (Hd & _). destruct s as [|d s]; [discriminate|]. simpl.
  destruct (is_digit d); [|discriminate].
  intro H. injection H as <-. rewrite skip_digits_app by exact Hd.
  reflexivity.
Qed.

Lemma scan_exp_app (s r t : list ascii) (c : ascii) :
  stop c -> scan_exp s = Some r ->
  scan_exp (s ++ c :: t) = Some (r ++ c :: t).
Proof.
  intros Hc. pose proof Hc as (Hd & Hp & He & HE).
  destruct s as [|e s]; simpl.
  - intro H. injection H as <-. rewrite He, HE. reflexivity.
  - destruct ((e =? "e")%char || (e =? "E")%char).
    + destruct s as [|sg s]; [discriminate|]. simpl.
      destruct ((sg =? "+")%char || (sg =? "-")%char).
      * apply scan_digits1_app. exact Hc.
      * apply (scan_digits1_app (sg :: s)). exact Hc.
    + intro H. injection H as <-. reflexivity.
Qed.

Lemma scan_frac_exp_app (s r t : list ascii) (c : ascii) :
  stop c -> scan_frac_exp s = Some r ->
  scan_frac_exp (s ++ c :: t) = Some (r ++ c :: t).
Proof.
  intros Hc. pose proof Hc as (Hd & Hp & He & HE).
  destruct s as [|p s]; simpl.
  - intro H. injection H as <-. rewrite Hp, He, HE. reflexivity.
  - destruct (p =? ".")%char.
    + destruct (scan_digits1 s) as [r'|] eqn:E; [|discriminate].
      rewrite (scan_digits1_app s _ t c Hc E). apply scan_exp_app. exact Hc.
    + apply (scan_exp_app (p :: s)). exact Hc.
Qed.

Lemma scan_int_app (s r t : list ascii) (c : ascii) :
  stop c -> scan_int s = Some r ->
  scan_int (s ++ c :: t) = Some (r ++ c :: t).
Proof.
  intros Hc. pose proof Hc as (Hd & _).
  destruct s as [|d s]; [discriminate|]. simpl.
  destruct (d =? "0")%char.
  - apply scan_frac_exp_app. exact Hc.
  - destruct (is_digit d); [|discriminate].
    rewrite skip_digits_app by exact Hd. apply scan_frac_exp_app. exact Hc.
Qed.

Lemma scan_number_app (s r t : list ascii) (c : ascii) :
  stop c -> scan_number s = Some r ->
  scan_number (s ++ c :: t) = Some (r ++ c :: t).
Proof.
  intros Hc. destruct s as [|a s]; [discriminate|]. simpl.
  destruct (a =? "-")%char.
  - apply scan_int_app. exact Hc.
  - apply (scan_int_app (a :: s)). exact Hc.
Qed.

Lemma scan_value_nil (fuel : nat) : scan_value fuel [] = None.
Proof. destruct fuel; reflexivity. Qed.

Lemma scan_elements_nil (fuel : nat) : scan_elements fuel [] = None.
Proof. destruct fuel; [reflexivity|]. simpl. rewrite scan_value_nil. reflexivity. Qed.

Lemma scan_members_nil (fuel : nat) : scan_members fuel [] = None.
Proof. destruct fuel; reflexivity. Qed.

(** Appending to a text that scans: the three scanners together. *)
Lemma scan_app (c : ascii) (t : list ascii) (Hc : stop c) (fuel : nat) :
  (forall s r, scan_value fuel s = Some r ->
               scan_value fuel (s ++ c :: t) = Some (r ++ c :: t)) /\
  (forall s r, scan_elements fuel s = Some r ->
               scan_elements fuel (s ++ c :: t) = Some (r ++ c :: t)) /\
  (forall s r, scan_members fuel s = Some r ->
               scan_members fuel (s ++ c :: t) = Some (r ++ c :: t)).
Proof.
  induction fuel as [|fuel (IHv & IHe & IHm)].
  - repeat split; intros s r H; discriminate.
  - repeat split; intros s r.
    + destruct s as [|a s]; [discriminate|].
      cbn [scan_value app].
      destruct (a =? "t")%char; [apply strip_prefix_app|].
      destruct (a =? "f")%char; [apply strip_prefix_app|].
      destruct (a =? "n")%char; [apply strip_prefix_app|].
      destruct (a =? dq)%char; [apply scan_string_app|].
      destruct (a =? "[")%char.
      { destruct (skip_ws s) as [|c' r'] eqn:E; [discriminate|].
        rewrite (skip_ws_app s (c :: t) _ _ E).
        destruct (c' =? "]")%char.
        - intro H. injection H as <-. reflexivity.
        - apply (IHe (c' :: r')). }
      destruct (a =? "{")%char.
      { destruct (skip_ws s) as [|c' r'] eqn:E; [discriminate|].
        rewrite (skip_ws_app s (c :: t) _ _ E).
        destruct (c' =? "}")%char.
        - intro H. injection H as <-. reflexivity.
        - apply (IHm (c' :: r')). }
      apply (scan_number_app (a :: s)). exact Hc.
    + cbn [scan_elements].
      destruct (scan_value fuel s) as [r1|] eqn:E1; [|discriminate].
      rewrite (IHv s r1 E1).
      destruct (skip_ws r1) as [|c' r'] eqn:E2; [discriminate|].
      rewrite (skip_ws_app r1 (c :: t) _ _ E2).
      destruct (c' =? ",")%char.
      * destruct (skip_ws r') as [|c2 r2] eqn:E3.
        -- rewrite scan_elements_nil. discriminate.
        -- rewrite (skip_ws_app r' (c :: t) _ _ E3). apply (IHe (c2 :: r2)).
      * destruct (c' =? "]")%char; [|discriminate].
        intro H. injection H as <-. reflexivity.
    + cbn [scan_members].
      destruct s as [|k s]; [discriminate|]. cbn [app].
      destruct (k =? dq)%char; [|discriminate].
      destruct (scan_string s) as [r1|] eqn:E1; [|discriminate].
      rewrite (scan_string_app s _ (c :: t) E1).
      destruct (skip_ws r1) as [|c1 r2] eqn:E2; [discriminate|].
      rewrite (skip_ws_app r1 (c :: t) _ _ E2).
      destruct (c1 =? ":")%char; [|discriminate].
      destruct (skip_ws r2) as [|c2 r2'] eqn:E3.
      { rewrite scan_value_nil. discriminate. }
      rewrite (skip_ws_app r2 (c :: t) _ _ E3).
      destruct (scan_value fuel (c2 :: r2')) as [r3|] eqn:E4; [|discriminate].
      pose proof (IHv (c2 :: r2') r3 E4) as X. cbn [app] in X. rewrite X.
      destruct (skip_ws r3) as [|c3 r4] eqn:E5; [discriminate|].
      rewrite (skip_ws_app r3 (c :: t) _ _ E5).
      destruct (c3 =? ",")%char.
      * destruct (skip_ws r4) as [|c4 r5] eqn:E6.
        -- rewrite scan_members_nil. discriminate.
        -- rewrite (skip_ws_app r4 (c :: t) _ _ E6). apply (IHm (c4 :: r5)).
      * destruct (c3 =? "}")%char; [|discriminate].
        intro H. injection H as <-. reflexivity.
Qed.

(** More fuel changes no result. *)
Lemma scan_fuel_S (fuel : nat) :
  (forall s r, scan_value fuel s = Some r -> scan_value (S fuel) s = Some r) /\
  (forall s r, scan_elements fuel s = Some r ->
               scan_elements (S fuel) s = Some r) /\
  (forall s r, scan_members fuel s = Some r ->
               scan_members (S fuel) s = Some r).
Proof.
  induction fuel as [|fuel (IHv & IHe & IHm)].
  - repeat split; intros s r H; discriminate.
  - repeat split; intros s r.
    + destruct s as [|a s]; [discriminate|].
      cbn [scan_value].
      destruct (a =? "t")%char; [auto|].
      destruct (a =? "f")%char; [auto|].
      destruct (a =? "n")%char; [auto|].
      destruct (a =? dq)%char; [auto|].
      destruct (a =? "[")%char.
      { destruct (skip_ws s) as [|c' r']; [auto|].
        destruct (c' =? "]")%char; [auto | apply IHe]. }
      destruct (a =? "{")%char.
      { destruct (skip_ws s) as [|c' r']; [auto|].
        destruct (c' =? "}")%char; [auto | apply IHm]. }
      auto.
    + cbn [scan_elements].
      destruct (scan_value fuel s) as [r1|] eqn:E1; [|discriminate].
      rewrite (IHv s r1 E1).
      destruct (skip_ws r1) as [|c' r']; [auto|].
      destruct (c' =? ",")%char; [apply IHe | auto].
    + cbn [scan_members].
      destruct s as [|k s]; [discriminate|].
      destruct (k =? dq)%char; [|discriminate].
      destruct (scan_string s) as [r1|]; [|discriminate].
      destruct (skip_ws r1) as [|c1 r2]; [discriminate|].
      destruct (c1 =? ":")%char; [|discriminate].
      destruct (scan_value fuel (skip_ws r2)) as [r3|] eqn:E4; [|discriminate].
      rewrite (IHv _ r3 E4).
      destruct (skip_ws r3) as [|c3 r4]; [discriminate|].
      destruct (c3 =? ",")%char; [apply IHm | auto].
Qed.

Lemma scan_value_fuel (f f' : nat) (s r : list ascii) :
  (f <= f')%nat -> scan_value f s = Some r -> scan_value f' s = Some r.
Proof.
  induction 1 as [|f' Hle IH]; [auto|].
  intro H. apply (proj1 (scan_fuel_S f')). auto.
Qed.

(** ** Decimal integers *)

Lemma to_uint_head (p : positive) :
  match Pos.to_uint p with
  | Decimal.Nil | Decimal.D0 _ => False
  | _ => True
  end.
Proof.
  assert (Hn : Decimal.unorm (Pos.to_uint p) = Pos.to_uint p).
  { pose proof (DecimalPos.Unsigned.to_of (Pos.to_uint p)) as H.
    rewrite DecimalPos.Unsigned.of_to in H. symmetry. exact H. }
  pose proof (DecimalPos.Unsigned.to_uint_nonzero p) as Hz.
  pose proof (DecimalPos.Unsigned.to_uint_nonnil p) as Hnil.
  destruct (Pos.to_uint p) as [|d| | | | | | | | |]; try exact I.
  - apply Hnil. reflexivity.
  - unfold Decimal.unorm in Hn. cbn [Decimal.nzhead] in Hn.
    pose proof (DecimalFacts.nb_digits_nzhead d) as Hl.
    destruct (Decimal.nzhead d) eqn:E; try discriminate.
    + apply Hz. exact (eq_sym Hn).
    + injection Hn as Hn. rewrite Hn in Hl. simpl in Hl. lia.
Qed.

Lemma uint_chars_digits (u : Decimal.uint) (c : ascii) (t : list ascii) :
  is_digit c = false ->
  skip_digits (strconv.uint_chars u ++ c :: t) = c :: t.
Proof.
  intro Hc. induction u; simpl; try exact IHu. rewrite Hc. reflexivity.
Qed.

Lemma chars_uint_chars (u : Decimal.uint) :
  strconv.chars_uint (strconv.uint_chars u) = Some u.
Proof. induction u; simpl; try rewrite IHu; reflexivity. Qed.

Lemma scan_frac_exp_stop (c : ascii) (t : list ascii) :
  stop c -> scan_frac_exp (c :: t) = Some (c :: t).
Proof. intros (_ & Hp & He & HE). simpl. rewrite Hp, He, HE. reflexivity. Qed.

(** A printed integer scans as a number, at any positive fuel. *)
Lemma scan_value_Itoa (z : Z) (fuel : nat) (c : ascii) (t : list ascii) :
  stop c ->
  scan_value (S fuel) (strconv.Itoa z ++ c :: t) = Some (c :: t).
Proof.
  intro Hc. pose proof Hc as (Hd & _).
  unfold strconv.Itoa. destruct z as [|p|p]; simpl Z.to_int.
  - simpl. apply scan_frac_exp_stop. exact Hc.
  - pose proof (to_uint_head p) as H.
    destruct (Pos.to_uint p) as [|u|u|u|u|u|u|u|u|u|u]; try contradiction;
      cbn -[scan_frac_exp skip_digits];
      rewrite uint_chars_digits by exact Hd;
      apply scan_frac_exp_stop; exact Hc.
  - pose proof (to_uint_head p) as H.
    destruct (Pos.to_uint p) as [|u|u|u|u|u|u|u|u|u|u]; try contradiction;
      cbn -[scan_frac_exp skip_digits];
      rewrite uint_chars_digits by exact Hd;
      apply scan_frac_exp_stop; exact Hc.
Qed.

(** A printed integer starts with a sign or a digit. *)
Lemma Itoa_head (z : Z) :
  exists a r, strconv.Itoa z = a :: r /\
    is_space a = false /\ (a =? "n")%char = false /\
    ((a =? "-")%char || is_digit a) = true.
Proof.
  unfold strconv.Itoa. destruct z as [|p|p]; simpl Z.to_int.
  - do 2 eexists. repeat split.
  - pose proof (to_uint_head p) as H.
    destruct (Pos.to_uint p) as [|u|u|u|u|u|u|u|u|u|u]; try contradiction;
      do 2 eexists; repeat split.
  - do 2 eexists. repeat split.
Qed.

Lemma ParseInt_Itoa (z : Z) :
  (Num.minInt64 <= z <= Num.maxInt64)%Z ->
  strconv.ParseInt (strconv.Itoa z) = Some z.
Proof.
  intros [Hlo Hhi].
  assert (Hr : ((Num.minInt64 <=? z)%Z && (z <=? Num.maxInt64)%Z) = true).
  { apply andb_true_intro. split; apply Z.leb_le; assumption. }
  pose proof (DecimalZ.of_to z) as Hz.
  unfold strconv.Itoa. destruct (Z.to_int z) as [u|u] eqn:E.
  - assert (Hu : Z.of_uint u = z) by exact Hz.
    assert (Hne : u <> Decimal.Nil).
    { intro; subst u. destruct z as [|p|p]; simpl in E; try discriminate;
        injection E as E; exact (DecimalPos.Unsigned.to_uint_nonnil p E). }
    unfold strconv.ParseInt.
    destruct u as [|u|u|u|u|u|u|u|u|u|u]; try contradiction;
      cbn -[Z.of_uint strconv.chars_uint Num.minInt64 Num.maxInt64 Z.leb];
      cbn [strconv.chars_uint strconv.digit]; rewrite chars_uint_chars;
      rewrite Hu, Hr; reflexivity.
  - assert (Hu : (- Z.of_uint u)%Z = z) by exact Hz.
    assert (Hne : u <> Decimal.Nil).
    { intro; subst u. destruct z as [|p|p]; simpl in E; try discriminate;
        injection E as E; exact (DecimalPos.Unsigned.to_uint_nonnil p E). }
    unfold strconv.ParseInt.
    destruct u as [|u|u|u|u|u|u|u|u|u|u]; try contradiction;
      cbn -[Z.of_uint strconv.chars_uint Num.minInt64 Num.maxInt64 Z.leb
            Z.opp];
      cbn [strconv.chars_uint strconv.digit]; rewrite chars_uint_chars;
      rewrite Hu, Hr; reflexivity.
Qed.

(** ** Plain strings *)

Lemma plain_char_not (c x : ascii) :
  plain_char c = true -> plain_char x = false -> (c =? x)%char = false.
Proof.
  intros Hc Hx. destruct (c =? x)%char eqn:E; [|reflexivity].
  apply Ascii.eqb_eq in E. congruence.
Qed.

Lemma plain_char_facts (c : ascii) :
  plain_char c = true ->
  (c =? dq)%char = false /\ (c =? bs)%char = false /\
  (code c <? 32)%N = false /\ is_html c = false /\
  (code c <? 128)%N = true.
Proof.
  unfold plain_char. intro H.
  repeat (apply andb_true_iff in H; destruct H as [H ?]).
  repeat match goal with
         | H : negb _ = true |- _ => apply negb_true_iff in H
         end.
  repeat split; auto.
  apply N.ltb_ge. apply N.leb_le. assumption.
Qed.

Lemma scan_string_plain (s r : list ascii) :
  plain s = true -> scan_string (s ++ dq :: r) = Some r.
Proof.
  induction s as [|c s IH]; simpl.
  - reflexivity.
  - intro H. apply andb_true_iff in H. destruct H as [Hc Hs].
    destruct (plain_char_facts c Hc) as (H1 & H2 & H3 & _).
    rewrite H1, H2, H3. auto.
Qed.

Lemma line_sep_plain (c c2 c3 : ascii) :
  plain_char c = true -> line_sep c c2 c3 = None.
Proof.
  intro H. unfold line_sep.
  rewrite (plain_char_not c "226" H eq_refl). reflexivity.
Qed.

Lemma escape_body_plain (s : list ascii) :
  plain s = true -> escape_body s = s.
Proof.
  induction s as [|c s IH]; simpl; [reflexivity|].
  intro H. apply andb_true_iff in H. destruct H as [Hc Hs].
  destruct (plain_char_facts c Hc) as (H1 & H2 & H3 & H4 & _).
  rewrite H1, H2, H3, H4.
  rewrite (plain_char_not c "008" Hc eq_refl),
          (plain_char_not c "012" Hc eq_refl),
          (plain_char_not c "010" Hc eq_refl),
          (plain_char_not c "013" Hc eq_refl),
          (plain_char_not c "009" Hc eq_refl).
  simpl. rewrite (IH Hs).
  destruct s as [|c2 [|c3 s']]; try reflexivity.
  rewrite (line_sep_plain c c2 c3 Hc). reflexivity.
Qed.

Lemma encode_string_plain (s : list ascii) :
  plain s = true -> encode_string s = quoted s.
Proof. intro H. unfold encode_string. rewrite escape_body_plain by exact H. reflexivity. Qed.

Lemma unquote_body_plain (s : list ascii) : forall fuel,
  plain s = true -> (length s < fuel)%nat -> unquote_body fuel s = Some s.
Proof.
  induction s as [|c s IH]; intros fuel H Hf.
  - destruct fuel; [lia | reflexivity].
  - destruct fuel; [lia|]. simpl in *.
    apply andb_true_iff in H. destruct H as [Hc Hs].
    destruct (plain_char_facts c Hc) as (_ & H2 & _).
    rewrite H2, (IH fuel Hs) by lia. reflexivity.
Qed.

Lemma unquote_quoted (s : list ascii) :
  plain s = true -> unquote (quoted s) = Some s.
Proof.
  intro H. unfold unquote, quoted. rewrite Ascii.eqb_refl.
  rewrite removelast_last. apply unquote_body_plain; [exact H|].
  rewrite length_app. simpl. lia.
Qed.

Lemma firstn_app_exact (s t : list ascii) :
  firstn (length (s ++ t) - length t) (s ++ t) = s.
Proof.
  rewrite length_app. replace (length s + length t - length t)%nat
    with (length s + 0)%nat by lia.
  rewrite firstn_app_2. simpl. apply app_nil_r.
Qed.

(** ** Values that can stand in an object *)

Lemma good_quoted (s : list ascii) (f0 : nat) :
  (1 <= f0)%nat -> plain s = true -> good_value f0 (quoted s).
Proof.
  intros H0 H.
  assert (G : forall f c t, (1 <= f)%nat ->
            scan_value f (quoted s ++ c :: t) = Some (c :: t)).
  { intros f c t Hf. destruct f as [|f]; [lia|].
    unfold quoted. cbn [app scan_value].
    change ((dq =? "t")%char) with false. cbn iota.
    change ((dq =? "f")%char) with false. cbn iota.
    change ((dq =? "n")%char) with false. cbn iota.
    rewrite Ascii.eqb_refl. rewrite <- app_assoc. simpl.
    apply scan_string_plain. exact H. }
  repeat split.
  - intros f c t Hf _. apply G. lia.
  - intros c t _. apply G. unfold fuel_for. lia.
  - exists dq, (s ++ [dq]). split; reflexivity.
Qed.

Lemma good_Itoa (z : Z) (f0 : nat) :
  (1 <= f0)%nat -> good_value f0 (strconv.Itoa z).
Proof.
  intro H0. repeat split.
  - intros f c t Hf Hc. destruct f as [|f]; [lia|].
    apply scan_value_Itoa. exact Hc.
  - intros c t Hc. unfold fuel_for. rewrite Nat.add_comm.
    apply scan_value_Itoa. exact Hc.
  - destruct (Itoa_head z) as (a & r & E & Hs & _). exists a, r. auto.
Qed.

Lemma is_space_cases (a : ascii) :
  is_space a = true ->
  a = " " \/ a = "009" \/ a = "010" \/ a = "013".
Proof.
  destruct a as [[] [] [] [] [] [] [] []]; simpl; intro H;
    try discriminate; auto.
Qed.

Lemma scan_value_head (f : nat) (a : ascii) (s r : list ascii) :
  scan_value f (a :: s) = Some r -> is_space a = false.
Proof.
  intro H. destruct (is_space a) eqn:E; [|reflexivity].
  destruct f as [|f]; [discriminate|].
  destruct (is_space_cases a E) as [-> | [-> | [-> | ->]]]; discriminate.
Qed.

Lemma good_canonical (d : list ascii) (f0 : nat) :
  (fuel_for d <= f0)%nat -> Canonical d -> good_value f0 d.
Proof.
  intros H0 [Hs _].
  assert (G : forall f c t, (fuel_for d <= f)%nat -> stop c ->
            scan_value f (d ++ c :: t) = Some (c :: t)).
  { intros f c t Hf Hc.
    pose proof (scan_value_fuel (fuel_for d) f d [] Hf Hs) as H.
    apply (proj1 (scan_app c t Hc f)) in H. exact H. }
  repeat split.
  - intros f c t Hf Hc. apply G; [lia | exact Hc].
  - intros c t Hc. apply G; [|exact Hc].
    unfold fuel_for. rewrite length_app. lia.
  - destruct d as [|a d']; [discriminate|].
    exists a, d'. split; [reflexivity|]. exact (scan_value_head _ _ _ _ Hs).
Qed.

(** ** Objects *)

Definition comma : ascii := ",".

Lemma stop_comma : stop ",".
Proof. repeat split. Qed.

Lemma stop_brace : stop "}".
Proof. repeat split. Qed.

Lemma skip_ws_head (a : ascii) (s : list ascii) :
  is_space a = false -> skip_ws (a :: s) = a :: s.
Proof. intro H. simpl. rewrite H. reflexivity. Qed.

(** One member at the head of a text, for the scanner. *)
Lemma scan_members_member (f0 f : nat) (k v X : list ascii) (c : ascii) :
  (f0 <= f)%nat -> plain k = true -> good_value f0 v -> stop c ->
  is_space c = false ->
  scan_members (S f) (dq :: k ++ dq :: ":" :: v ++ c :: X)
  = if (c =? ",")%char then scan_members f (skip_ws X)
    else if (c =? "}")%char then Some X else None.
Proof.
  intros Hf Hk (Hv & _ & (a & v' & -> & Ha)) Hc Hs.
  cbn [scan_members]. rewrite Ascii.eqb_refl.
  rewrite (scan_string_plain k _ Hk).
  rewrite (skip_ws_head ":" _ eq_refl). rewrite Ascii.eqb_refl.
  cbn [app]. rewrite (skip_ws_head a _ Ha).
  pose proof (Hv f c X Hf Hc) as H. cbn [app] in H. rewrite H.
  rewrite (skip_ws_head c _ Hs). reflexivity.
Qed.

(** One member at the head of a text, for the decoder. *)
Lemma members_member (f0 f : nat) (k v X : list ascii) (c : ascii) :
  plain k = true -> good_value f0 v -> stop c -> is_space c = false ->
  members (S f) (dq :: k ++ dq :: ":" :: v ++ c :: X)
  = if (c =? ",")%char
    then option_map (cons (quoted k, v)) (members f (skip_ws X))
    else if (c =? "}")%char then Some [(quoted k, v)] else None.
Proof.
  intros Hk (_ & Hv & (a & v' & -> & Ha)) Hc Hs.
  cbn [members]. change ((dq =? "}")%char) with false. cbn iota.
  rewrite Ascii.eqb_refl.
  rewrite (scan_string_plain k _ Hk).
  rewrite (skip_ws_head ":" _ eq_refl). rewrite Ascii.eqb_refl.
  cbn [app]. rewrite (skip_ws_head a _ Ha).
  pose proof (Hv c X Hc) as H. cbn [app] in H. rewrite H.
  rewrite (skip_ws_head c _ Hs).
  assert (K : firstn (length (dq :: k ++ dq :: ":" :: a :: v' ++ c :: X)
                      - length (":" :: a :: v' ++ c :: X))
                     (dq :: k ++ dq :: ":" :: a :: v' ++ c :: X)
              = quoted k).
  { pose proof (firstn_app_exact (quoted k) (":" :: a :: v' ++ c :: X)) as F.
    unfold quoted in F. cbn [app] in F. rewrite <- app_assoc in F.
    exact F. }
  rewrite K.
  assert (V : firstn (length (a :: v' ++ c :: X) - length (c :: X))
                     (a :: v' ++ c :: X) = a :: v').
  { exact (firstn_app_exact (a :: v') (c :: X)). }
  rewrite V. reflexivity.
Qed.

Lemma members_body_head (ms : list (list ascii * list ascii)) :
  ms <> [] -> exists r, members_body ms = dq :: r.
Proof.
  destruct ms as [|[k v] [|kv2 rest]]; [contradiction| |];
    intros _; eexists; reflexivity.
Qed.

Lemma members_body_cons (k v : list ascii)
    (rest : list (list ascii * list ascii)) (t : list ascii) :
  members_body ((k, v) :: rest) ++ t
  = dq :: k ++ dq :: ":" :: v
    ++ (match rest with
        | [] => "}" :: t
        | _ => "," :: members_body rest ++ t
        end).
Proof.
  destruct rest as [|kv2 rest]; cbn [members_body]; unfold quoted;
    cbn [app]; rewrite <- !app_assoc; cbn [app]; rewrite <- !app_assoc;
    reflexivity.
Qed.

Lemma scan_members_body (f0 : nat) (ms : list (list ascii * list ascii)) :
  forall f t,
    ms <> [] -> Forall (good_member f0) ms ->
    (f0 + length ms <= f)%nat ->
    scan_members f (members_body ms ++ t) = Some t.
Proof.
  induction ms as [|[k v] rest IH]; intros f t Hne Hg Hf; [contradiction|].
  inversion Hg as [|? ? [Hk Hv] Hg']; subst. simpl in Hk, Hv, Hf.
  destruct f as [|f]; [lia|].
  rewrite members_body_cons. destruct rest as [|kv2 rest].
  - rewrite (scan_members_member f0 f k v t "}"); auto using stop_brace.
    lia.
  - rewrite (scan_members_member f0 f k v _ ","); auto using stop_comma;
      [|lia].
    cbn [Ascii.eqb Bool.eqb]. cbn iota.
    destruct (members_body_head (kv2 :: rest)) as [r Hr]; [discriminate|].
    rewrite Hr. cbn [app]. rewrite (skip_ws_head dq _ eq_refl).
    change (dq :: r ++ t) with ((dq :: r) ++ t). rewrite <- Hr.
    apply IH; [discriminate | exact Hg' | simpl in *; lia].
Qed.

Lemma members_of_body (f0 : nat) (ms : list (list ascii * list ascii)) :
  forall f t,
    ms <> [] -> Forall (good_member f0) ms ->
    (length ms <= f)%nat ->
    members f (members_body ms ++ t) = Some (literal_keys ms).
Proof.
  induction ms as [|[k v] rest IH]; intros f t Hne Hg Hf; [contradiction|].
  inversion Hg as [|? ? [Hk Hv] Hg']; subst. simpl in Hk, Hv, Hf.
  destruct f as [|f]; [lia|].
  rewrite members_body_cons. destruct rest as [|kv2 rest].
  - rewrite (members_member f0 f k v t "}"); auto using stop_brace.
  - rewrite (members_member f0 f k v _ ","); auto using stop_comma.
    cbn [Ascii.eqb Bool.eqb]. cbn iota.
    destruct (members_body_head (kv2 :: rest)) as [r Hr]; [discriminate|].
    rewrite Hr. cbn [app]. rewrite (skip_ws_head dq _ eq_refl).
    change (dq :: r ++ t) with ((dq :: r) ++ t). rewrite <- Hr.
    rewrite IH; [reflexivity | discriminate | exact Hg' | simpl in *; lia].
Qed.

End JsonScanner.

Section MessageCodec.

Import json JsonText protocol.
Local Open Scope char_scope.

Lemma supported_plain (t : MessageType) :
  In t supported -> plain t = true.
Proof.
  intro H. simpl in H.
  repeat (destruct H as [H|H]; [subst t; reflexivity|]). contradiction.
Qed.

Lemma Valid_canonical (d : list ascii) : Canonical d -> Valid d = true.
Proof.
  intros [Hs _]. unfold Valid.
  destruct d as [|a d']; [discriminate|].
  rewrite (skip_ws_head a d' (scan_value_head _ _ _ _ Hs)).
  rewrite Hs. reflexivity.
Qed.

Lemma Compact_canonical (d : list ascii) : Canonical d -> Compact d = Some d.
Proof.
  intro H. unfold Compact. rewrite (Valid_canonical d H).
  destruct H as [_ ->]. reflexivity.
Qed.

Lemma marshal_text (m : Message) :
  plain (Type_ m) = true -> payload_ok (Data m) ->
  marshalMessage m = inl ("{" :: members_body (message_members m)).
Proof.
  intros Ht Hd. unfold marshalMessage, message_members.
  rewrite (encode_string_plain _ Ht).
  destruct (Data m) as [|a d'] eqn:E.
  - destruct (Timestamp m =? 0)%Z; cbn [members_body app key quoted];
      unfold key, quoted; cbn [app]; rewrite <- ?app_assoc; cbn [app];
      rewrite <- ?app_assoc; reflexivity.
  - destruct Hd as [Hd|Hd]; [discriminate|].
    rewrite (Compact_canonical _ Hd).
    destruct (Timestamp m =? 0)%Z; cbn [members_body app key quoted];
      unfold key, quoted; cbn [app]; rewrite <- ?app_assoc; cbn [app];
      rewrite <- ?app_assoc; cbn [app]; rewrite <- ?app_assoc; reflexivity.
Qed.

Lemma message_members_good (m : Message) (f0 : nat) :
  plain (Type_ m) = true -> payload_ok (Data m) ->
  (fuel_for (Data m) <= f0)%nat ->
  Forall (good_member f0) (message_members m).
Proof.
  intros Ht Hd Hf.
  assert (H1 : (1 <= f0)%nat) by (unfold fuel_for in Hf; lia).
  unfold message_members. constructor.
  - split; [reflexivity | apply good_quoted; assumption].
  - apply Forall_app. split.
    + destruct (Timestamp m =? 0)%Z; constructor; [|constructor].
      split; [reflexivity | apply good_Itoa; assumption].
    + destruct (Data m) as [|a d'] eqn:E; constructor; [|constructor].
      split; [reflexivity|]. destruct Hd as [Hd|Hd]; [discriminate|].
      apply good_canonical; assumption.
Qed.

Lemma message_members_length (m : Message) :
  (1 <= length (message_members m) <= 3)%nat /\
  (length (Data m) + 3
   <= length (members_body (message_members m)))%nat.
Proof.
  unfold message_members.
  destruct (Timestamp m =? 0)%Z; destruct (Data m) as [|a d'];
    cbn [app length members_body quoted]; unfold quoted;
    cbn [length]; repeat (rewrite length_app; cbn [length]); lia.
Qed.

Lemma scan_value_object (f : nat) (c : ascii) (r : list ascii) :
  (c =? "}")%char = false -> is_space c = false ->
  scan_value (S f) ("{" :: c :: r) = scan_members f (c :: r).
Proof. intros H1 H2. simpl. rewrite H2, H1. reflexivity. Qed.

Lemma Valid_object (f0 : nat) (ms : list (list ascii * list ascii)) :
  ms <> [] -> Forall (good_member f0) ms ->
  (f0 + length ms <= 2 * length (members_body ms) + 3)%nat ->
  Valid ("{" :: members_body ms) = true.
Proof.
  intros Hne Hg Hf. unfold Valid.
  rewrite (skip_ws_head "{" _ eq_refl).
  unfold fuel_for. cbn [length].
  replace (2 * S (length (members_body ms)) + 2)%nat
    with (S (2 * length (members_body ms) + 3)) by lia.
  pose proof (scan_members_body f0 ms _ [] Hne Hg Hf) as H.
  rewrite app_nil_r in H.
  destruct (members_body_head ms Hne) as [r Hr]. rewrite Hr in *.
  rewrite (scan_value_object _ dq r eq_refl eq_refl), H. reflexivity.
Qed.

Lemma store_type (m : Message) (t : MessageType) :
  plain t = true ->
  store m (quoted (list_ascii_of_string "type"), quoted t)
  = Some {| Type_ := t; Timestamp := Timestamp m; Data := Data m |}.
Proof.
  intro Ht. unfold store.
  replace (unquote (quoted (list_ascii_of_string "type")))
    with (Some (list_ascii_of_string "type")) by (vm_compute; reflexivity).
  replace (foldName (list_ascii_of_string "type"))
    with (list_ascii_of_string "TYPE") by (vm_compute; reflexivity).
  destruct (list_eq_dec ascii_dec _ _) as [_|N]; [|contradiction].
  unfold quoted at 1. cbn [app]. change ((dq =? "n")%char) with false.
  cbn iota. change (dq :: t ++ [dq]) with (quoted t).
  rewrite (unquote_quoted t Ht). reflexivity.
Qed.

Lemma store_ts (m : Message) (z : Z) :
  (Num.minInt64 <= z <= Num.maxInt64)%Z ->
  store m (quoted (list_ascii_of_string "ts"), strconv.Itoa z)
  = Some {| Type_ := Type_ m; Timestamp := z; Data := Data m |}.
Proof.
  intro Hz. unfold store.
  replace (unquote (quoted (list_ascii_of_string "ts")))
    with (Some (list_ascii_of_string "ts")) by (vm_compute; reflexivity).
  replace (foldName (list_ascii_of_string "ts"))
    with (list_ascii_of_string "TS") by (vm_compute; reflexivity).
  destruct (list_eq_dec ascii_dec (list_ascii_of_string "TS")
                        (list_ascii_of_string "TYPE")) as [N|_];
    [discriminate|].
  destruct (list_eq_dec ascii_dec _ _) as [_|N]; [|contradiction].
  pose proof (ParseInt_Itoa z Hz) as HP.
  destruct (Itoa_head z) as (a & r & E & _ & Hn & Hd).
  rewrite E in *. rewrite Hn, Hd, HP. reflexivity.
Qed.

Lemma store_data (m : Message) (d : list ascii) :
  store m (quoted (list_ascii_of_string "data"), d)
  = Some {| Type_ := Type_ m; Timestamp := Timestamp m; Data := d |}.
Proof.
  unfold store.
  replace (unquote (quoted (list_ascii_of_string "data")))
    with (Some (list_ascii_of_string "data")) by (vm_compute; reflexivity).
  replace (foldName (list_ascii_of_string "data"))
    with (list_ascii_of_string "DATA") by (vm_compute; reflexivity).
  destruct (list_eq_dec ascii_dec (list_ascii_of_string "DATA")
                        (list_ascii_of_string "TYPE")) as [N|_];
    [discriminate|].
  destruct (list_eq_dec ascii_dec (list_ascii_of_string "DATA")
                        (list_ascii_of_string "TS")) as [N|_];
    [discriminate|].
  destruct (list_eq_dec ascii_dec _ _) as [_|N]; [|contradiction].
  reflexivity.
Qed.

Lemma store_all_members (m : Message) :
  plain (Type_ m) = true ->
  (Num.minInt64 <= Timestamp m <= Num.maxInt64)%Z ->
  store_all zeroMessage (literal_keys (message_members m)) = Some m.
Proof.
  intros Ht Hz. destruct m as [t z d]. simpl in Ht, Hz.
  unfold message_members, literal_keys. cbn [Type_ Timestamp Data].
  cbn [map fst snd store_all].
  rewrite (store_type zeroMessage t Ht). cbn [Timestamp Data zeroMessage].
  destruct (z =? 0)%Z eqn:Ez.
  - apply Z.eqb_eq in Ez. subst z.
    destruct d as [|a d']; cbn [app map fst snd store_all]; [reflexivity|].
    rewrite store_data. reflexivity.
  - cbn [app map fst snd store_all]. rewrite (store_ts _ z Hz).
    cbn [Type_ Timestamp Data].
    destruct d as [|a d']; cbn [app map fst snd store_all]; [reflexivity|].
    rewrite store_data. reflexivity.
Qed.

Lemma ParseMessage_object (m : Message) :
  plain (Type_ m) = true -> payload_ok (Data m) ->
  (Num.minInt64 <= Timestamp m <= Num.maxInt64)%Z ->
  ParseMessage ("{" :: members_body (message_members m)) = inl m.
Proof.
  intros Ht Hd Hz.
  pose proof (message_members_good m (fuel_for (Data m)) Ht Hd (le_n _)) as Hg.
  destruct (message_members_length m) as [[Hl1 Hl3] Hb].
  assert (Hne : message_members m <> []).
  { intro E. rewrite E in Hl1. simpl in Hl1. lia. }
  unfold ParseMessage, unmarshalMessage.
  rewrite (Valid_object (fuel_for (Data m)) _ Hne Hg)
    by (unfold fuel_for; lia).
  rewrite (skip_ws_head "{" _ eq_refl).
  change (("{" =? "n")%char) with false. cbn iota.
  rewrite Ascii.eqb_refl.
  pose proof (members_of_body (fuel_for (Data m)) (message_members m)
                (S (length (members_body (message_members m)))) []
                Hne Hg) as HM.
  rewrite app_nil_r in HM.
  destruct (members_body_head _ Hne) as [r Hr]. rewrite Hr in *.
  rewrite (skip_ws_head dq _ eq_refl), HM by lia.
  rewrite (store_all_members m Ht Hz). reflexivity.
Qed.

(** C7.  A message that [NewMessage] builds with a supported type and a
    payload that [json.Marshal] could encode (or no payload) serializes,
    and [ParseMessage] of its bytes succeeds and gives the message back:
    the same type, timestamp and payload bytes.  [ParseMessage] of a text
    that is not valid JSON returns an error. *)
Theorem message_round_trip (t : MessageType) (data : option (list ascii))
    (now : Z) :
  In t supported ->
  (Num.minInt64 <= now <= Num.maxInt64)%Z ->
  (forall d, data = Some d -> Canonical d) ->
  (exists m bytes,
     NewMessage t (option_map inl data) now = inl m /\
     Type_ m = t /\ Timestamp m = now /\
     Bytes m = inl bytes /\
     ParseMessage bytes = inl m) /\
  (forall bad, Valid bad = false ->
               exists cause, ParseMessage bad = inr (ParseFailed cause)).
Proof.
  intros Ht Hz Hd. split.
  - set (m := {| Type_ := t; Timestamp := now;
                 Data := match data with Some d => d | None => [] end |}).
    assert (Hn : NewMessage t (option_map inl data) now = inl m).
    { destruct data; reflexivity. }
    assert (Hp : plain (Type_ m) = true) by (apply supported_plain; exact Ht).
    assert (Ho : payload_ok (Data m)).
    { unfold m; simpl. destruct data as [d|]; [right; auto | left; auto]. }
    exists m, ("{" :: members_body (message_members m)).
    split; [exact Hn|]. split; [reflexivity|]. split; [reflexivity|].
    split.
    + apply marshal_text; assumption.
    + apply ParseMessage_object; assumption.
  - intros bad Hb. unfold ParseMessage, unmarshalMessage. rewrite Hb.
    eexists. reflexivity.
Qed.

Lemma message_round_trip_witness :
  (exists m bytes,
     NewMessage TypeFrame
       (option_map inl (Some CodecRuns.frame_payload)) CodecRuns.some_now
     = inl m /\
     Type_ m = TypeFrame /\ Timestamp m = CodecRuns.some_now /\
     Bytes m = inl bytes /\
     ParseMessage bytes = inl m) /\
  (forall bad, Valid bad = false ->
               exists cause, ParseMessage bad = inr (ParseFailed cause)).
Proof.
  apply (message_round_trip TypeFrame (Some CodecRuns.frame_payload)
           CodecRuns.some_now).
  - left. reflexivity.
  - split; vm_compute; discriminate.
  - intros d H. injection H as <-. split; vm_compute; reflexivity.
Defined.

(** An unterminated object is not valid JSON and does not parse. *)
Lemma ParseMessage_truncated :
  Valid CodecRuns.truncated = false /\
  ParseMessage CodecRuns.truncated
  = inr (ParseFailed "json: syntax error").
Proof. split; reflexivity. Qed.

End MessageCodec.

(* ================================================================== *)
(** * The cloud client *)
(* ================================================================== *)

Section CloudClient.

Import cloud CloudRuns.
Local Open Scope Z_scope.
Context {D : PayloadDecoder}.

Lemma SendMessage_disconnected (c : Client) (msg : protocol.Message)
    (write : option string) :
  connected c = false \/ conn c = None ->
  SendMessage c msg write = (c, [], Some NotConnected).
Proof.
  intros [H|H]; unfold SendMessage; rewrite H; [reflexivity|].
  destruct (connected c); reflexivity.
Qed.

(** C8.  On a client fresh from [NewClient], [SendFrame] (with 640, 480,
    any bytes and frame 1 as with any other arguments) and [SendMessage]
    return the not-connected error, nothing is written, the client is
    unchanged and its [messages_sent] is 0. *)
Theorem send_on_fresh_client (c : Config) (width height : Z)
    (jpegData : list ascii) (frameID now : Z) (write : option string)
    (msg : protocol.Message) :
  SendFrame (NewClient c) 640 480 jpegData 1 now write
    = (NewClient c, [], Some NotConnected) /\
  SendFrame (NewClient c) width height jpegData frameID now write
    = (NewClient c, [], Some NotConnected) /\
  SendMessage (NewClient c) msg write = (NewClient c, [], Some NotConnected) /\
  MessagesSent (GetStats (NewClient c)) = 0.
Proof. repeat split. Qed.

Lemma closeConnection_cfg (c : Client) :
  cfg (fst (closeConnection c)) = cfg c /\
  reconnects (fst (closeConnection c)) = reconnects c.
Proof. unfold closeConnection. destruct (conn c); split; reflexivity. Qed.

Lemma SendMessage_cfg (c : Client) (msg : protocol.Message)
    (write : option string) :
  cfg (fst (fst (SendMessage c msg write))) = cfg c.
Proof.
  unfold SendMessage. destruct (connected c), (conn c); try reflexivity.
  destruct (protocol.marshalMessage msg); [|reflexivity].
  destruct write; [|reflexivity].
  unfold closeConnection. destruct (conn c); reflexivity.
Qed.

Lemma handleMessage_cfg (c : Client) (data : list ascii) (now : Z)
    (write : option string) :
  cfg (fst (handleMessage c data now write)) = cfg c.
Proof.
  unfold handleMessage. destruct (protocol.ParseMessage data); [|reflexivity].
  repeat (match goal with |- context [if ?b then _ else _] => destruct b end;
          try reflexivity).
  pose proof (SendMessage_cfg c
    {| protocol.Type_ := protocol.TypePong; protocol.Timestamp := now;
       protocol.Data := [] |} write) as H.
  destruct (SendMessage _ _ _) as [[c' acts] r]. exact H.
Qed.

Lemma step_settled (c0 : Config) (m : Machine) (e : Event) :
  settled c0 m -> settled c0 (fst (step m e)).
Proof.
  intros [Hc Hb].
  assert (Hm : settled c0 m) by (split; assumption).
  destruct e as [w| | | |msg write|? ? ? ? ? ?|s cb]; simpl.
  - unfold loop_step.
    destruct (place m) as [[| | | |k|]|] eqn:Hp; destruct w;
      try exact Hm.
    + destruct (ctx_done m); [|split; simpl; auto].
      pose proof (closeConnection_cfg (client m)) as [H _].
      destruct (closeConnection (client m)) as [c' acts].
      split; simpl in *; [congruence|auto].
    + split; simpl; congruence.
    + split; simpl; auto.
    + destruct (ctx_done m); [split; simpl; auto | exact Hm].
    + split; simpl; auto.
    + destruct (ctx_done m); [split; simpl; auto|].
      destruct (conn (client m)); split; simpl; auto.
    + pose proof (handleMessage_cfg
        (set_counters (client m) (messagesSent (client m))
           (Num.wrap_u64 (messagesReceived (client m) + 1))
           (reconnects (client m))) data now pong_write) as H.
      destruct (handleMessage _ _ _ _) as [c2 acts].
      split; simpl in *; congruence.
    + pose proof (closeConnection_cfg (client m)) as [H _].
      destruct (closeConnection (client m)) as [c' acts].
      split; simpl in *; [congruence|auto].
  - destruct (place m) eqn:Hp; [exact Hm|]. split; simpl; auto.
  - split; simpl; auto.
  - unfold Close. pose proof (closeConnection_cfg (client m)) as [H _].
    destruct (closeConnection (client m)) as [c' acts].
    split; simpl in *; [congruence|auto].
  - pose proof (SendMessage_cfg (client m) msg write) as H.
    destruct (SendMessage _ _ _) as [[c' a] r].
    split; simpl in *; [congruence|auto].
  - unfold SendFrame.
    destruct (protocol.NewFrameMessage _ _ _ _ _) as [fm|err].
    + pose proof (SendMessage_cfg (client m) fm write) as H.
      destruct (SendMessage _ _ _) as [[c' a] r].
      split; simpl in *; [congruence|auto].
    + exact Hm.
  - split; simpl; auto.
Qed.

Lemma run_settled (c0 : Config) (es : list Event) : forall m,
  settled c0 m -> settled c0 (fst (run m es)).
Proof.
  induction es as [|e es IH]; intros m H; [exact H|].
  simpl. pose proof (step_settled c0 m e H) as H1.
  destruct (step m e) as [m1 a1]. specialize (IH m1 H1).
  destruct (run m1 es) as [m2 a2]. exact IH.
Qed.

Lemma run_app (es1 es2 : list Event) : forall m,
  run m (es1 ++ es2)
  = let '(m1, a1) := run m es1 in
    let '(m2, a2) := run m1 es2 in (m2, a1 ++ a2).
Proof.
  induction es1 as [|e es1 IH]; intro m; simpl.
  - destruct (run m es2). reflexivity.
  - destruct (step m e) as [m1 a1]. rewrite IH.
    destruct (run m1 es1) as [m2 a2]. destruct (run m2 es2) as [m3 a3].
    rewrite app_assoc. reflexivity.
Qed.

(** C2, as amended.  In every state the client reaches from [NewClient],
    when the loop is blocked reading an established connection and
    cancellation has not fired, a read error (the end of the connection,
    also after a failed write) makes the client close the handle and dial
    again at once: nothing is waited for, and the backoff is the initial
    one.  It is after a failed dial that the client waits the current
    backoff, doubles it up to [max_backoff], increments [reconnects], and
    then dials again. *)
Theorem reconnect_after_drop (c0 : Config) (es : list Event) (k : Conn)
    (cause : string) :
  let m := fst (run (Start (NewClient c0)) es) in
  place m = Some (InRead k) ->
  ctx_done m = false ->
  (exists m1 acts,
     run m [Loop (ReadErr cause); Loop Proceed] = (m1, acts) /\
     place m1 = Some Dialing /\
     acts = match conn (client m) with
            | Some k' => [ActCloseConn k'; ActDial (URL c0)]
            | None => [ActDial (URL c0)]
            end /\
     existsb is_wait acts = false /\
     backoff m1 = ReconnectBackoff c0) /\
  (forall m1 : Machine,
     cfg (client m1) = c0 -> place m1 = Some Dialing ->
     ctx_done m1 = false ->
     exists m2,
       run m1 [Loop (DialErr cause); Loop TimerFired; Loop Proceed]
       = (m2, [ActWait (backoff m1); ActDial (URL c0)]) /\
       place m2 = Some Dialing /\
       reconnects (client m2) = Num.wrap_u64 (reconnects (client m1) + 1) /\
       backoff m2 = next_backoff c0 (backoff m1)).
Proof.
  intros m Hp Hd.
  assert (Hs : settled c0 m).
  { apply run_settled. split; reflexivity. }
  destruct Hs as [Hc Hb]. rewrite Hp in Hb. split.
  - simpl. unfold loop_step at 1. rewrite Hp.
    pose proof (closeConnection_cfg (client m)) as [Hcc Hcr].
    unfold closeConnection in *.
    destruct (conn (client m)) as [k'|]; simpl in *; rewrite Hd; simpl;
      rewrite Hc; eexists; eexists; split; try reflexivity; simpl; auto.
  - intros m1 Hc1 Hp1 Hd1. simpl. unfold loop_step at 1. rewrite Hp1.
    simpl. rewrite Hd1. simpl. rewrite Hc1.
    eexists. split; [reflexivity|]. simpl. unfold next_backoff. auto.
Qed.

End CloudClient.

Section CloudScenarios.

Import cloud CloudRuns.
Local Open Scope Z_scope.

Lemma reconnect_after_drop_witness :
  let m := fst (run (Start (NewClient DefaultConfig)) established) in
  (exists m1 acts,
     run m [Loop (ReadErr "EOF"); Loop Proceed] = (m1, acts) /\
     place m1 = Some Dialing /\
     acts = match conn (client m) with
            | Some k' => [ActCloseConn k'; ActDial (URL DefaultConfig)]
            | None => [ActDial (URL DefaultConfig)]
            end /\
     existsb is_wait acts = false /\
     backoff m1 = ReconnectBackoff DefaultConfig) /\
  (forall m1 : Machine,
     cfg (client m1) = DefaultConfig -> place m1 = Some Dialing ->
     ctx_done m1 = false ->
     exists m2,
       run m1 [Loop (DialErr "EOF"); Loop TimerFired; Loop Proceed]
       = (m2, [ActWait (backoff m1); ActDial (URL DefaultConfig)]) /\
       place m2 = Some Dialing /\
       reconnects (client m2) = Num.wrap_u64 (reconnects (client m1) + 1) /\
       backoff m2 = next_backoff DefaultConfig (backoff m1)).
Proof.
  apply (reconnect_after_drop DefaultConfig established 1%nat "EOF");
    reflexivity.
Defined.

(** C2, the claim as stated fails: a connection is established and ends
    in a read error while cancellation has not fired; the client closes it
    and dials again without a wait in between, and [reconnects] is still
    0. *)
Lemma reconnect_counterexample :
  exists m,
    run (Start (NewClient DefaultConfig)) dropped
    = (m, [ActDial (URL DefaultConfig); ActStartPing 1%nat;
           ActCloseConn 1%nat; ActDial (URL DefaultConfig)]) /\
    ctx_done m = false /\
    reconnects (client m) = 0 /\
    backoff m = ReconnectBackoff DefaultConfig.
Proof. eexists. split; [cbv; reflexivity|]. repeat split. Qed.

End CloudScenarios.

(* ================================================================== *)
(** * More on the conversions and on the tracker *)
(* ================================================================== *)

Section Conversions.

Import Num doa.
Local Open Scope Q_scope.

(** X1.  For bounds in order, [Clamp] returns a value between them,
    returns a value that lies between them unchanged, and clamping twice
    is clamping once. *)
Theorem Clamp_within (value min max : Q) :
  min <= max ->
  min <= Clamp value min max <= max /\
  (min <= value <= max -> Clamp value min max = value) /\
  Clamp (Clamp value min max) min max = Clamp value min max.
Proof.
  intro H. unfold Clamp.
  destruct (Qltb value min) eqn:E1.
  - apply Qltb_true in E1.
    assert (F1 : Qltb min min = false) by (apply Qltb_false; lra).
    assert (F2 : Qltb max min = false) by (apply Qltb_false; lra).
    rewrite F1, F2. repeat split; try lra; intros; lra.
  - apply Qltb_false in E1. destruct (Qltb max value) eqn:E2.
    + apply Qltb_true in E2.
      assert (F1 : Qltb max min = false) by (apply Qltb_false; lra).
      assert (F2 : Qltb max max = false) by (apply Qltb_false; lra).
      rewrite F1, F2. repeat split; try lra; intros; lra.
    + assert (F1 : Qltb value min = false) by (apply Qltb_false; exact E1).
      rewrite F1, E2. apply Qltb_false in E2. repeat split; lra.
Qed.

Lemma Clamp_within_witness :
  0 <= Clamp (7 # 5) 0 1 <= 1 /\
  (0 <= 7 # 5 <= 1 -> Clamp (7 # 5) 0 1 = 7 # 5) /\
  Clamp (Clamp (7 # 5) 0 1) 0 1 = Clamp (7 # 5) 0 1.
Proof. apply (Clamp_within (7 # 5) 0 1). vm_compute. discriminate. Defined.






Section Distance.
Context {M : MathLib}.

(** X3.  Whatever the square root is, the estimated distance of a reading
    without speech or without energy is 0, and so are both coordinates;
    the estimated distance of any other reading lies between 0.3 and 5,
    and the coordinates are its products with the cosine and the sine of
    the angle. *)
Theorem EstimatedDistance_range (r : Reading) :
  (Speaking r = false \/ TotalEnergy r <= 0 ->
   EstimatedDistance r = 0 /\ EstimatedX r = 0 /\ EstimatedY r = 0) /\
  (Speaking r = true -> 0 < TotalEnergy r ->
   3 # 10 <= EstimatedDistance r <= 5 /\
   EstimatedX r = EstimatedDistance r * Cos (Angle r) /\
   EstimatedY r = EstimatedDistance r * Sin (Angle r)).
Proof.
  split.
  - intro H.
    assert (E : EstimatedDistance r = 0).
    { unfold EstimatedDistance. destruct H as [H|H].
      - rewrite H. rewrite orb_true_r. reflexivity.
      - apply Qleb_true in H. rewrite H. reflexivity. }
    unfold EstimatedX, EstimatedY. rewrite E. auto.
  - intros Hs He.
    assert (G : 3 # 10 <= EstimatedDistance r <= 5).
    { unfold EstimatedDistance. rewrite Hs.
      assert (F : Qleb (TotalEnergy r) 0 = false).
      { destruct (Qleb (TotalEnergy r) 0) eqn:E; [|reflexivity].
        apply Qleb_true in E. lra. }
      rewrite F. cbn [negb orb]. cbv zeta.
      set (d := Sqrt (referenceEnergy / TotalEnergy r)).
      destruct (Qltb d (3 # 10)) eqn:E1.
      - assert (F2 : Qltb 5 (3 # 10) = false) by reflexivity.
        rewrite F2. lra.
      - apply Qltb_false in E1. destruct (Qltb 5 d) eqn:E2.
        + lra.
        + apply Qltb_false in E2. lra. }
    split; [exact G|].
    unfold EstimatedX, EstimatedY.
    assert (F : Qleb (EstimatedDistance r) 0 = false).
    { destruct (Qleb (EstimatedDistance r) 0) eqn:E; [|reflexivity].
      apply Qleb_true in E. lra. }
    rewrite F. auto.
Qed.

End Distance.

Lemma EstimatedDistance_range_witness :
  (Speaking (TrackerRuns.at_one_meter 0) = false \/
   TotalEnergy (TrackerRuns.at_one_meter 0) <= 0 ->
   EstimatedDistance (TrackerRuns.at_one_meter 0) = 0 /\
   EstimatedX (TrackerRuns.at_one_meter 0) = 0 /\
   EstimatedY (TrackerRuns.at_one_meter 0) = 0) /\
  (Speaking (TrackerRuns.at_one_meter 0) = true ->
   0 < TotalEnergy (TrackerRuns.at_one_meter 0) ->
   3 # 10 <= EstimatedDistance (TrackerRuns.at_one_meter 0) <= 5 /\
   EstimatedX (TrackerRuns.at_one_meter 0)
   = EstimatedDistance (TrackerRuns.at_one_meter 0)
     * Cos (Angle (TrackerRuns.at_one_meter 0)) /\
   EstimatedY (TrackerRuns.at_one_meter 0)
   = EstimatedDistance (TrackerRuns.at_one_meter 0)
     * Sin (Angle (TrackerRuns.at_one_meter 0))).
Proof. apply (EstimatedDistance_range (TrackerRuns.at_one_meter 0)). Defined.

End Conversions.

Section TrackerInvariants.

Import Num doa tracker TrackerRuns.
Local Open Scope Q_scope.

Lemma wrap_i64_small (z : Z) :
  (minInt64 <= z <= maxInt64)%Z -> wrap_i64 z = z.
Proof.
  unfold wrap_i64, minInt64, maxInt64. intro H.
  rewrite Z.mod_small; lia.
Qed.

(** After [copy] has moved the entries one place down, the first
    [len - 1] places hold the old entries but the oldest. *)
Lemma firstn_shift (h : list Result) (r : Result) :
  firstn (S (length h)) ((h ++ [r]) ++ [r]) = h ++ [r].
Proof.
  rewrite firstn_app.
  rewrite firstn_all2 by (rewrite length_app; cbn [length]; lia).
  replace (S (length h) - length (h ++ [r]))%nat with 0%nat
    by (rewrite length_app; cbn [length]; lia).
  cbn [firstn]. apply app_nil_r.
Qed.

Lemma appendHistory_keeps (hsize : Z) (h : list Result) (r : Result) :
  (Z.of_nat (length h) <= hsize)%Z ->
  appendHistory hsize h r
  = Some (skipn (length h + 1 - Z.to_nat hsize) (h ++ [r])).
Proof.
  intro H. unfold appendHistory. cbv zeta.
  rewrite length_app. cbn [length].
  destruct (Z.ltb_spec hsize (Z.of_nat (length h + 1))) as [L|L].
  - assert (E : Z.to_nat hsize = length h) by lia.
    destruct (Z.ltb_spec hsize 0) as [N|N]; [lia|].
    f_equal. rewrite E.
    replace (length h + 1 - length h)%nat with 1%nat by lia.
    destruct h as [|a h']; [reflexivity|].
    cbn [app tl skipn length]. apply firstn_shift.
  - f_equal.
    replace (length h + 1 - Z.to_nat hsize)%nat with 0%nat by lia.
    reflexivity.
Qed.

(** X4.  On a history that is within the configured size,
    [appendHistory] keeps the newest [HistorySize] entries of the history
    with the new result at its end, in order: the oldest entry goes when
    there is no room, and nothing is kept when the size is 0. *)
Theorem appendHistory_window (hsize : Z) (h : list Result) (r : Result) :
  (Z.of_nat (length h) <= hsize)%Z ->
  exists h',
    appendHistory hsize h r = Some h' /\
    h' = skipn (length h + 1 - Z.to_nat hsize) (h ++ [r]) /\
    length h' = Nat.min (length h + 1) (Z.to_nat hsize) /\
    (hsize = 0%Z -> h' = []) /\
    ((0 < hsize)%Z -> last h' zeroResult = r).
Proof.
  intro H. eexists. split; [apply appendHistory_keeps; exact H|].
  split; [reflexivity|]. split; [|split].
  - rewrite length_skipn, length_app. cbn [length]. lia.
  - intros ->. destruct h; [reflexivity | cbn [length] in H; lia].
  - intro Hp.
    destruct (Nat.eq_dec (length h) (Z.to_nat hsize)) as [E|E].
    + rewrite E.
      replace (Z.to_nat hsize + 1 - Z.to_nat hsize)%nat with 1%nat by lia.
      destruct h as [|a h']; [cbn [length] in E; lia|].
      cbn [app skipn]. apply last_last.
    + replace (length h + 1 - Z.to_nat hsize)%nat with 0%nat by lia.
      cbn [skipn]. apply last_last.
Qed.

Lemma appendHistory_window_witness :
  exists h',
    appendHistory 1 [zeroResult] zeroResult = Some h' /\
    h' = skipn (length [zeroResult] + 1 - Z.to_nat 1)
               ([zeroResult] ++ [zeroResult]) /\
    length h' = Nat.min (length [zeroResult] + 1) (Z.to_nat 1) /\
    (1%Z = 0%Z -> h' = []) /\
    ((0 < 1)%Z -> last h' zeroResult = zeroResult).
Proof.
  apply (appendHistory_window 1 [zeroResult] zeroResult). simpl. lia.
Defined.

(** What [appendHistory] returns is within the size again, and its
    newest entry is the result that was appended. *)
Lemma appendHistory_inv (hsize : Z) (h h' : list Result) (r : Result) :
  (Z.of_nat (length h) <= hsize)%Z ->
  appendHistory hsize h r = Some h' ->
  (Z.of_nat (length h') <= hsize)%Z /\
  (h' = [] \/ last h' zeroResult = r).
Proof.
  intro H. unfold appendHistory. cbv zeta.
  rewrite length_app. cbn [length].
  destruct (Z.ltb_spec hsize (Z.of_nat (length h + 1))) as [L|L].
  - assert (E : Z.to_nat hsize = length h) by lia.
    destruct (Z.ltb_spec hsize 0) as [N|N]; [lia|].
    intro Q. injection Q as <-. rewrite E.
    destruct h as [|a h']; [simpl; split; [lia | left; reflexivity]|].
    cbn [app tl length]. rewrite firstn_shift. split.
    + rewrite length_app. cbn [length] in *. lia.
    + right. apply last_last.
  - intro Q. injection Q as <-. split.
    + rewrite length_app. cbn [length]. lia.
    + right. apply last_last.
Qed.

Lemma successes_cons (i : PollInput) (ticks : list PollInput) :
  successes (i :: ticks)
  = if succeeded i then S (successes ticks) else successes ticks.
Proof.
  unfold successes. cbn [filter]. destruct (succeeded i); reflexivity.
Qed.

Lemma failures_cons (i : PollInput) (ticks : list PollInput) :
  failures (i :: ticks)
  = if succeeded i then failures ticks else S (failures ticks).
Proof.
  unfold failures. cbn [filter]. destruct (succeeded i); reflexivity.
Qed.

Lemma filter_split (ticks : list PollInput) :
  (successes ticks + failures ticks = length ticks)%nat.
Proof.
  unfold successes, failures.
  induction ticks as [|i ticks IH]; [reflexivity|].
  cbn [filter]. destruct (succeeded i); cbn [negb length]; lia.
Qed.

Lemma queue_kept_refl (q : list Result) : queue_kept q q.
Proof.
  repeat split; auto. exists []. rewrite app_nil_r. reflexivity.
Qed.

Lemma queue_kept_trans (a b c : list Result) :
  queue_kept a b -> queue_kept b c -> queue_kept a c.
Proof.
  intros ([x Hx] & Hab & Hfa) ([y Hy] & Hbc & Hfb). repeat split.
  - exists (x ++ y). rewrite Hy, Hx, app_assoc. reflexivity.
  - auto.
  - intro F. pose proof (Hfa F) as E. rewrite E in Hfb. exact (Hfb F).
Qed.

Lemma notifySubscribers_kept (r : Result) (chans : list (list Result)) :
  Forall2 queue_kept chans (notifySubscribers chans r).
Proof.
  induction chans as [|ch chans IH]; [constructor|].
  cbn [notifySubscribers map]. constructor; [|exact IH].
  destruct (Nat.ltb_spec (length ch) subCapacity) as [L|L].
  - repeat split.
    + exists [r]. reflexivity.
    + intros _. rewrite length_app. cbn [length]. lia.
    + intro F. lia.
  - apply queue_kept_refl.
Qed.

Lemma Forall2_queue_kept_refl (chans : list (list Result)) :
  Forall2 queue_kept chans chans.
Proof.
  induction chans; constructor; [apply queue_kept_refl | assumption].
Qed.

Lemma Forall2_queue_kept_trans (a : list (list Result)) : forall b c,
  Forall2 queue_kept a b -> Forall2 queue_kept b c -> Forall2 queue_kept a c.
Proof.
  induction a as [|x a IH]; intros b c Hab Hbc.
  - inversion Hab; subst. inversion Hbc; subst. constructor.
  - inversion Hab as [|? y ? b' Hxy Hab']; subst.
    inversion Hbc as [|? z ? c' Hyz Hbc']; subst.
    constructor; [eapply queue_kept_trans; eassumption|].
    eapply IH; eassumption.
Qed.

Section Polls.
Context {M : MathLib}.

Lemma poll_ok_state (t : Tracker) (clk : PollClock) (rd : Reading) :
  (0 <= HistorySize (cfg t))%Z ->
  exists t', poll t clk (inl rd) = Some (t', None) /\
    cfg t' = cfg t /\
    pollCount t' = wrap_i64 (pollCount t + 1) /\
    pollErrorCount t' = pollErrorCount t /\
    subs t' = notifySubscribers (subs t) (latest t') /\
    appendHistory (HistorySize (cfg t)) (history t) (latest t')
    = Some (history t') /\
    SmoothedAngle (latest t') = smooth t rd /\
    Confidence (latest t')
    = calculateConfidence t (SpeakingLatched (latest t')) (smooth t rd).
Proof.
  intro H. unfold poll. simpl.
  destruct (updateSpeakingLatch t (at_latch clk) (at_since clk) (Speaking rd))
    as [t1 latched] eqn:EU.
  pose proof (updateSpeakingLatch_frame t (at_latch clk) (at_since clk)
                (Speaking rd)) as F.
  rewrite EU in F. simpl in F. destruct F as (Fc & Fh & Fl).
  match goal with |- context [appendHistory ?a ?b ?c] =>
    destruct (appendHistory_total a b c H) as [h' Hh] end.
  rewrite Hh. eexists. split; [reflexivity|]. simpl.
  repeat split; auto.
  unfold calculateConfidence. rewrite Fc, Fh. reflexivity.
Qed.

Lemma poll_err_state (t : Tracker) (clk : PollClock) (e : error) :
  exists t', poll t clk (inr e) = Some (t', Some e) /\
    cfg t' = cfg t /\ latest t' = latest t /\ history t' = history t /\
    subs t' = subs t /\ pollCount t' = pollCount t /\
    pollErrorCount t' = wrap_i64 (pollErrorCount t + 1).
Proof. eexists. split; [reflexivity|]. simpl. repeat split. Qed.

Lemma Run_history (ticks : list PollInput) : forall t,
  (Z.of_nat (length (history t)) <= HistorySize (cfg t))%Z ->
  (history t = [] \/ last (history t) zeroResult = latest t) ->
  exists t', Run t ticks = Some t' /\ cfg t' = cfg t /\
    (Z.of_nat (length (history t')) <= HistorySize (cfg t))%Z /\
    (history t' = [] \/ last (history t') zeroResult = latest t').
Proof.
  induction ticks as [|i ticks IH]; intros t Hb Hl.
  - exists t. simpl. auto.
  - simpl. destruct (source i) as [rd|e].
    + destruct (poll_ok_state t (clock i) rd) as
        (t1 & P & C & _ & _ & _ & A & _); [lia|].
      rewrite P.
      destruct (appendHistory_inv _ _ _ _ Hb A) as [Hb1 Hl1].
      destruct (IH t1) as (t' & R & C' & B' & L').
      * rewrite C. exact Hb1.
      * exact Hl1.
      * exists t'. rewrite C in *. auto.
    + destruct (poll_err_state t (clock i) e) as
        (t1 & P & C & L & Hh & _).
      rewrite P.
      destruct (IH t1) as (t' & R & C' & B' & L').
      * rewrite C, Hh. exact Hb.
      * rewrite Hh, L. exact Hl.
      * exists t'. rewrite C in *. auto.
Qed.

(** X5.  From [NewTracker] on, every run of polls returns, the history
    never holds more entries than [HistorySize], and as long as it is not
    empty its newest entry is the latest result. *)
Theorem history_bounded (c : TrackerConfig) (t0 : Tracker)
    (ticks : list PollInput) (sourceHealthy : bool) :
  NewTracker c = Some t0 ->
  exists t, Run t0 ticks = Some t /\
    (0 <= StatsHistorySize (Stats t sourceHealthy) <= HistorySize c)%Z /\
    (history t = [] \/ last (history t) zeroResult = GetLatest t).
Proof.
  unfold NewTracker. destruct (Z.ltb_spec (HistorySize c) 0) as [N|N];
    [discriminate|].
  intro H. injection H as <-.
  destruct (Run_history ticks
              {| cfg := c; latest := zeroResult; history := [];
                 speakingLatchedAt := None; pollCount := 0%Z;
                 pollErrorCount := 0%Z; totalLatencyMs := 0%Z;
                 subs := [] |}) as (t & R & C & B & L).
  - simpl. exact N.
  - left. reflexivity.
  - exists t. split; [exact R|]. simpl in B. simpl. split; [lia | exact L].
Qed.

Lemma Run_counters (ticks : list PollInput) : forall t,
  (0 <= HistorySize (cfg t))%Z ->
  (0 <= pollCount t)%Z -> (0 <= pollErrorCount t)%Z ->
  (pollCount t + Z.of_nat (successes ticks) <= maxInt64)%Z ->
  (pollErrorCount t + Z.of_nat (failures ticks) <= maxInt64)%Z ->
  exists t', Run t ticks = Some t' /\
    pollCount t' = (pollCount t + Z.of_nat (successes ticks))%Z /\
    pollErrorCount t' = (pollErrorCount t + Z.of_nat (failures ticks))%Z.
Proof.
  assert (Hmin : (minInt64 < 0)%Z) by reflexivity.
  induction ticks as [|i ticks IH]; intros t Hs Hp He Bp Be.
  - exists t. change (successes []) with 0%nat.
    change (failures []) with 0%nat. simpl. repeat split; lia.
  - rewrite successes_cons in *. rewrite failures_cons in *.
    cbn [Run]. unfold succeeded in *.
    destruct (source i) as [rd|e].
    + destruct (poll_ok_state t (clock i) rd Hs) as
        (t1 & P & C & Pc & Pe & _).
      rewrite P. rewrite wrap_i64_small in Pc by lia.
      destruct (IH t1) as (t' & R & C1 & C2).
      * rewrite C. exact Hs.
      * lia.
      * lia.
      * lia.
      * lia.
      * exists t'. split; [exact R|]. lia.
    + destruct (poll_err_state t (clock i) e) as
        (t1 & P & C & _ & _ & _ & Pc & Pe).
      rewrite P. rewrite wrap_i64_small in Pe by lia.
      destruct (IH t1) as (t' & R & C1 & C2).
      * rewrite C. exact Hs.
      * lia.
      * lia.
      * lia.
      * lia.
      * exists t'. split; [exact R|]. lia.
Qed.

(** X6.  From [NewTracker] on, after a run of fewer than 2^63 ticks,
    [Stats] reports as [PollCount] the number of ticks whose source
    answered and as [ErrorCount] the number of ticks whose source failed:
    every tick is counted once. *)
Theorem poll_counters (c : TrackerConfig) (t0 : Tracker)
    (ticks : list PollInput) (sourceHealthy : bool) :
  NewTracker c = Some t0 ->
  (Z.of_nat (length ticks) <= maxInt64)%Z ->
  exists t, Run t0 ticks = Some t /\
    PollCount (Stats t sourceHealthy) = Z.of_nat (successes ticks) /\
    ErrorCount (Stats t sourceHealthy) = Z.of_nat (failures ticks) /\
    (PollCount (Stats t sourceHealthy) + ErrorCount (Stats t sourceHealthy)
     = Z.of_nat (length ticks))%Z.
Proof.
  unfold NewTracker. destruct (Z.ltb_spec (HistorySize c) 0) as [N|N];
    [discriminate|].
  intros H Hlen. injection H as <-.
  pose proof (filter_split ticks) as S.
  destruct (Run_counters ticks
              {| cfg := c; latest := zeroResult; history := [];
                 speakingLatchedAt := None; pollCount := 0%Z;
                 pollErrorCount := 0%Z; totalLatencyMs := 0%Z;
                 subs := [] |}) as (t & R & Pc & Pe); simpl; try lia.
  exists t. split; [exact R|]. simpl in Pc, Pe. simpl. lia.
Qed.




(** X8.  Polls whose source fails change nothing that a reader of the
    tracker sees: after any run of failing ticks the latest result, the
    history, the queues of the subscribers, the answer of [GetTarget] and
    the count of successful polls are what they were. *)
Theorem failed_polls_keep_state (t : Tracker) (ticks : list PollInput) :
  Forall (fun i => succeeded i = false) ticks ->
  exists t', Run t ticks = Some t' /\
    GetLatest t' = GetLatest t /\ history t' = history t /\
    subs t' = subs t /\ GetTarget t' = GetTarget t /\
    pollCount t' = pollCount t.
Proof.
  revert t. induction ticks as [|i ticks IH]; intros t F.
  - exists t. simpl. repeat split.
  - inversion F as [|? ? Hi F']; subst. unfold succeeded in Hi.
    simpl. destruct (source i) as [rd|e]; [discriminate|].
    destruct (poll_err_state t (clock i) e) as
      (t1 & P & C & L & Hh & Hsub & Pc & _).
    rewrite P. destruct (IH t1 F') as (t' & R & L' & H' & S' & G' & P').
    exists t'. split; [exact R|].
    assert (G1 : GetTarget t1 = GetTarget t)
      by (unfold GetTarget; rewrite L, C; reflexivity).
    unfold GetLatest in *.
    rewrite L', H', S', G', P', G1, L, Hh, Hsub, Pc. repeat split.
Qed.

(** X9.  With a smoothing factor between 0 and 1 a successful poll
    returns, and its smoothed angle is the angle of the reading when the
    history is empty, and lies between the previous smoothed angle and
    the angle of the reading otherwise. *)
Theorem smoothed_between (t : Tracker) (clk : PollClock) (rd : Reading) :
  (0 <= HistorySize (cfg t))%Z ->
  0 <= EMAAlpha (cfg t) <= 1 ->
  exists t', poll t clk (inl rd) = Some (t', None) /\
    (history t = [] -> SmoothedAngle (latest t') = Angle rd) /\
    (history t <> [] ->
     (SmoothedAngle (latest t) <= Angle rd ->
      SmoothedAngle (latest t) <= SmoothedAngle (latest t') <= Angle rd) /\
     (Angle rd <= SmoothedAngle (latest t) ->
      Angle rd <= SmoothedAngle (latest t') <= SmoothedAngle (latest t))).
Proof.
  intros Hs Ha.
  destruct (poll_ok_state t clk rd Hs) as (t' & P & _ & _ & _ & _ & _ & S & _).
  exists t'. split; [exact P|]. rewrite S. unfold smooth. split.
  - intro E. rewrite E. reflexivity.
  - intro E. destruct (history t) as [|x h]; [congruence|]. cbn [length Nat.ltb Nat.leb].
    set (al := EMAAlpha (cfg t)) in *.
    set (p := SmoothedAngle (latest t)). set (a := Angle rd).
    split; intro Hpa.
    + assert (0 <= al * (a - p)) by (apply Qmult_le_0_compat; lra).
      assert (0 <= (1 - al) * (a - p)) by (apply Qmult_le_0_compat; lra).
      split; lra.
    + assert (0 <= al * (p - a)) by (apply Qmult_le_0_compat; lra).
      assert (0 <= (1 - al) * (p - a)) by (apply Qmult_le_0_compat; lra).
      split; lra.
Qed.

Lemma Run_subscribers (ticks : list PollInput) : forall t,
  (0 <= HistorySize (cfg t))%Z ->
  exists t', Run t ticks = Some t' /\ cfg t' = cfg t /\
    Forall2 queue_kept (subs t) (subs t').
Proof.
  induction ticks as [|i ticks IH]; intros t Hs.
  - exists t. simpl. repeat split. apply Forall2_queue_kept_refl.
  - simpl. destruct (source i) as [rd|e].
    + destruct (poll_ok_state t (clock i) rd Hs) as
        (t1 & P & C & _ & _ & Hsub & _).
      rewrite P. destruct (IH t1) as (t' & R & C' & K); [rewrite C; exact Hs|].
      exists t'. split; [exact R|]. split; [congruence|].
      eapply Forall2_queue_kept_trans; [|exact K].
      rewrite Hsub. apply notifySubscribers_kept.
    + destruct (poll_err_state t (clock i) e) as
        (t1 & P & C & _ & _ & Hsub & _).
      rewrite P. destruct (IH t1) as (t' & R & C' & K); [rewrite C; exact Hs|].
      exists t'. split; [exact R|]. split; [congruence|].
      rewrite <- Hsub. exact K.
Qed.

(** X10.  After [Subscribe], whatever polls follow, no subscriber is
    added or lost; what a subscriber had in its queue stays in front, in
    order; the queue of the new subscriber never holds more than its 10
    places; and a queue that is full is left as it is. *)
Theorem subscribers_kept (t : Tracker) (ticks : list PollInput)
    (sourceHealthy : bool) :
  (0 <= HistorySize (cfg t))%Z ->
  exists t', Run (Subscribe t) ticks = Some t' /\
    SubscriberCount (Stats t' sourceHealthy)
    = (SubscriberCount (Stats t sourceHealthy) + 1)%Z /\
    Forall2 queue_kept (subs t ++ [[]]) (subs t') /\
    (length (last (subs t') []) <= subCapacity)%nat.
Proof.
  intro Hs.
  destruct (Run_subscribers ticks (Subscribe t) Hs) as (t' & R & _ & K).
  cbn [Subscribe subs] in K.
  exists t'. split; [exact R|].
  pose proof (Forall2_length K) as Hl. rewrite length_app in Hl.
  cbn [length] in Hl.
  split; [simpl; lia|]. split; [exact K|].
  apply Forall2_app_inv_l in K.
  destruct K as (l1 & l2 & _ & K2 & ->).
  inversion K2 as [|? q ? l3 Hq K3]; subst. inversion K3; subst.
  rewrite last_last. destruct Hq as (_ & Hcap & _).
  apply Hcap. simpl. unfold subCapacity. lia.
Qed.

End Polls.

Lemma history_bounded_witness :
  exists t, Run (after DefaultTrackerConfig []) five_quiet = Some t /\
    (0 <= StatsHistorySize (Stats t true)
     <= HistorySize DefaultTrackerConfig)%Z /\
    (history t = [] \/ last (history t) zeroResult = GetLatest t).
Proof.
  apply (history_bounded DefaultTrackerConfig
           (after DefaultTrackerConfig []) five_quiet true).
  reflexivity.
Defined.

Lemma poll_counters_witness :
  exists t,
    Run (after DefaultTrackerConfig [])
        [heard 0 (quiet 0); missed 50; heard 100 (voiced 1)] = Some t /\
    PollCount (Stats t true)
    = Z.of_nat (successes [heard 0 (quiet 0); missed 50;
                           heard 100 (voiced 1)]) /\
    ErrorCount (Stats t true)
    = Z.of_nat (failures [heard 0 (quiet 0); missed 50;
                          heard 100 (voiced 1)]) /\
    (PollCount (Stats t true) + ErrorCount (Stats t true)
     = Z.of_nat (length [heard 0 (quiet 0); missed 50;
                         heard 100 (voiced 1)]))%Z.
Proof.
  apply (poll_counters DefaultTrackerConfig (after DefaultTrackerConfig [])
           [heard 0 (quiet 0); missed 50; heard 100 (voiced 1)] true).
  - reflexivity.
  - vm_compute. discriminate.
Defined.


Lemma failed_polls_keep_state_witness :
  exists t',
    Run (after DefaultTrackerConfig five_quiet) [missed 250; missed 300]
    = Some t' /\
    GetLatest t' = GetLatest (after DefaultTrackerConfig five_quiet) /\
    history t' = history (after DefaultTrackerConfig five_quiet) /\
    subs t' = subs (after DefaultTrackerConfig five_quiet) /\
    GetTarget t' = GetTarget (after DefaultTrackerConfig five_quiet) /\
    pollCount t' = pollCount (after DefaultTrackerConfig five_quiet).
Proof.
  apply (failed_polls_keep_state (after DefaultTrackerConfig five_quiet)
           [missed 250; missed 300]).
  repeat constructor.
Defined.

Lemma smoothed_between_witness :
  exists t',
    poll (after DefaultTrackerConfig five_quiet) (tick 250) (inl (quiet 1))
    = Some (t', None) /\
    (history (after DefaultTrackerConfig five_quiet) = [] ->
     SmoothedAngle (latest t') = Angle (quiet 1)) /\
    (history (after DefaultTrackerConfig five_quiet) <> [] ->
     (SmoothedAngle (latest (after DefaultTrackerConfig five_quiet))
      <= Angle (quiet 1) ->
      SmoothedAngle (latest (after DefaultTrackerConfig five_quiet))
      <= SmoothedAngle (latest t') <= Angle (quiet 1)) /\
     (Angle (quiet 1)
      <= SmoothedAngle (latest (after DefaultTrackerConfig five_quiet)) ->
      Angle (quiet 1) <= SmoothedAngle (latest t')
      <= SmoothedAngle (latest (after DefaultTrackerConfig five_quiet)))).
Proof.
  apply (smoothed_between (after DefaultTrackerConfig five_quiet)
           (tick 250) (quiet 1)).
  - vm_compute. discriminate.
  - vm_compute. split; discriminate.
Defined.

Lemma subscribers_kept_witness :
  exists t',
    Run (Subscribe (after DefaultTrackerConfig [])) five_quiet = Some t' /\
    SubscriberCount (Stats t' true)
    = (SubscriberCount (Stats (after DefaultTrackerConfig []) true) + 1)%Z /\
    Forall2 queue_kept (subs (after DefaultTrackerConfig []) ++ [[]])
            (subs t') /\
    (length (last (subs t') []) <= subCapacity)%nat.
Proof.
  apply (subscribers_kept (after DefaultTrackerConfig []) five_quiet true).
  vm_compute. discriminate.
Defined.

End TrackerInvariants.

(* ================================================================== *)
(** * More on the USB source *)
(* ================================================================== *)

Section UsbHealth.

Import Num xvf3800 UsbRuns.
Local Open Scope Z_scope.






(** X12.  On an open source, a call whose DOA transfer brings 9 bytes
    with status 0 returns a reading whatever the two further transfers
    bring: it makes the three transfers in order, the angle of the
    reading is the raw angle converted, its total energy is the sum of
    the four energies, these are 0 when the energy transfer fails, and
    the source is healthy with no errors counted. *)
Theorem GetDOA_reading (u : USBSource) (d : Device) (env : UsbEnv) :
  closed u = false -> dev u = Some d -> doa_fails env = false ->
  exists u' rd,
    GetDOA u env
    = Some (u', [read_command d doaCmdID gpoResID 9;
                 read_command d aecSpEnergyCmdID aecResID 17;
                 read_command d aecAzimuthCmdID aecResID 17], inl rd) /\
    doa.Angle rd = doa.ToEvaAngle (doa.RawAngle rd) /\
    doa.TotalEnergy rd = sumEnergy (doa.SpeechEnergy rd) /\
    doa.LatencyMs rd
    = time.Milliseconds (time.Sub (now_latency env) (now_start env)) /\
    (forall cause, energy_answer env = TransferError cause ->
                   doa.SpeechEnergy rd = zero4) /\
    Healthy u' = true /\ ConsecutiveErrors (Stats u') = 0 /\
    DeviceConnected (Stats u') = true.
Proof.
  intros Hc Hd Hf. unfold GetDOA, doa_fails in *. rewrite Hc, Hd.
  cbn -[recordError recordSuccess buffer byte_at Z.ltb Z.eqb Z.lor
        float_of_bits Uint32 nonzero_bits enhanced sumEnergy
        doa.ToEvaAngle time.Sub time.Milliseconds].
  rewrite Hd.
  destruct (doa_answer env) as [n buf|cause]; [|discriminate].
  apply orb_false_elim in Hf. destruct Hf as [Hn Hs].
  rewrite Hn, Hs.
  do 2 eexists. split; [reflexivity|].
  cbn -[float_of_bits Uint32 nonzero_bits enhanced sumEnergy
        doa.ToEvaAngle time.Sub time.Milliseconds buffer].
  repeat split.
  - intros cause Hcause. rewrite Hcause. reflexivity.
  - rewrite Hd. reflexivity.
Qed.

Lemma GetDOA_reading_witness :
  exists u' rd,
    GetDOA (opened DefaultUSBSourceConfig) env_ok
    = Some (u', [read_command 1%nat doaCmdID gpoResID 9;
                 read_command 1%nat aecSpEnergyCmdID aecResID 17;
                 read_command 1%nat aecAzimuthCmdID aecResID 17], inl rd) /\
    doa.Angle rd = doa.ToEvaAngle (doa.RawAngle rd) /\
    doa.TotalEnergy rd = sumEnergy (doa.SpeechEnergy rd) /\
    doa.LatencyMs rd
    = time.Milliseconds
        (time.Sub (now_latency env_ok) (now_start env_ok)) /\
    (forall cause, energy_answer env_ok = TransferError cause ->
                   doa.SpeechEnergy rd = zero4) /\
    Healthy u' = true /\ ConsecutiveErrors (Stats u') = 0 /\
    DeviceConnected (Stats u') = true.
Proof.
  apply (GetDOA_reading (opened DefaultUSBSourceConfig) 1%nat env_ok);
    reflexivity.
Defined.

(** A call on a source without a device, when the device cannot be
    opened: the sleep, one attempt to open, the error of the attempt; and
    the backoff doubled up to the maximum. *)
Lemma GetDOA_reconnect_fails (u : USBSource) (env : UsbEnv) :
  closed u = false -> dev u = None -> open_fails env = true ->
  exists u' e,
    GetDOA u env
    = Some (u', [OpSleep (reconnectBackoff u); OpOpen VendorID ProductID],
            inr e) /\
    closed u' = false /\ dev u' = None /\
    maxBackoff u' = maxBackoff u /\
    consecutiveErrors u' = consecutiveErrors u /\
    healthy u' = healthy u /\
    reconnectBackoff u'
    = (if maxBackoff u <? wrap_i64 (reconnectBackoff u * 2)
       then maxBackoff u else wrap_i64 (reconnectBackoff u * 2)).
Proof.
  intros Hc Hd Ho. unfold GetDOA, open_fails in *. rewrite Hc, Hd.
  unfold reconnect, openDevice.
  cbn -[wrap_i64 Z.ltb Z.mul].
  destruct (maxBackoff u <? wrap_i64 (reconnectBackoff u * 2));
    destruct (open_answer env); try discriminate;
    do 2 eexists; (split; [reflexivity|]); cbn -[wrap_i64 Z.mul];
    repeat split; assumption.
Qed.

Lemma backoff_doubles (b M : Z) (j : nat) :
  0 <= b <= M -> 2 * M <= maxInt64 ->
  (if M <? wrap_i64 (Z.min (b * 2 ^ Z.of_nat j) M * 2)
   then M else wrap_i64 (Z.min (b * 2 ^ Z.of_nat j) M * 2))
  = Z.min (b * 2 ^ Z.of_nat (S j)) M.
Proof.
  intros Hb HM.
  rewrite Nat2Z.inj_succ, Z.pow_succ_r by lia.
  assert (Hp : 0 <= b * 2 ^ Z.of_nat j)
    by (apply Z.mul_nonneg_nonneg; [lia | apply Z.pow_nonneg; lia]).
  set (p := b * 2 ^ Z.of_nat j) in *.
  replace (b * (2 * 2 ^ Z.of_nat j)) with (2 * p) by (unfold p; ring).
  assert (W : wrap_i64 (Z.min p M * 2) = Z.min p M * 2).
  { unfold wrap_i64, maxInt64 in *. rewrite Z.mod_small; lia. }
  rewrite W. destruct (Z.ltb_spec M (Z.min p M * 2)); lia.
Qed.

Lemma reconnect_run (b M : Z) (envs : list UsbEnv) : forall (j : nat) u,
  0 <= b <= M -> 2 * M <= maxInt64 ->
  closed u = false -> dev u = None -> maxBackoff u = M ->
  reconnectBackoff u = Z.min (b * 2 ^ Z.of_nat j) M ->
  Forall (fun env => open_fails env = true) envs ->
  exists u' rs,
    calls u (map CallGetDOA envs) = Some (u', rs) /\
    map fst rs
    = map (fun i => [OpSleep (Z.min (b * 2 ^ Z.of_nat i) M);
                     OpOpen VendorID ProductID])
          (seq j (length envs)) /\
    Forall failed_call rs /\
    consecutiveErrors u' = consecutiveErrors u /\
    healthy u' = healthy u.
Proof.
  induction envs as [|env envs IH]; intros j u Hb HM Hc Hd Hm Hr F.
  - exists u, []. cbn. repeat split. constructor.
  - inversion F as [|? ? Ho F']; subst. cbn [map calls length seq].
    destruct (GetDOA_reconnect_fails u env Hc Hd Ho) as
      (u1 & e & G & C1 & D1 & M1 & E1 & H1 & R1).
    rewrite G. rewrite Hr in R1.
    assert (R2 : reconnectBackoff u1
                 = Z.min (b * 2 ^ Z.of_nat (S j)) (maxBackoff u))
      by (rewrite R1; apply backoff_doubles; assumption).
    destruct (IH (S j) u1 Hb HM C1 D1 M1 R2 F') as
      (u' & rs & Cs & Ops & Fr & Ce & Hh).
    rewrite Cs. do 2 eexists. split; [reflexivity|].
    cbn [map fst]. rewrite Ops, Hr. split; [reflexivity|].
    split; [constructor; [eexists; reflexivity | exact Fr]|].
    split; congruence.
Qed.

(** X13.  On a source that has lost its device, with a backoff between 0
    and the maximum, consecutive calls during which the device cannot be
    opened each sleep, try to open the device once and return the error;
    the sleeps are the backoff, twice the backoff, four times the backoff
    and so on, none above the maximum; and these calls count no error and
    leave the health flag as it was. *)
Theorem reconnect_backoff_schedule (u : USBSource) (envs : list UsbEnv) :
  closed u = false -> dev u = None ->
  0 <= reconnectBackoff u <= maxBackoff u -> 2 * maxBackoff u <= maxInt64 ->
  Forall (fun env => open_fails env = true) envs ->
  exists u' rs,
    calls u (map CallGetDOA envs) = Some (u', rs) /\
    map fst rs
    = map (fun i => [OpSleep (Z.min (reconnectBackoff u * 2 ^ Z.of_nat i)
                                    (maxBackoff u));
                     OpOpen VendorID ProductID])
          (seq 0 (length envs)) /\
    Forall failed_call rs /\
    ConsecutiveErrors (Stats u') = ConsecutiveErrors (Stats u) /\
    StatsHealthy (Stats u') = StatsHealthy (Stats u).
Proof.
  intros Hc Hd Hb HM F.
  apply (reconnect_run (reconnectBackoff u) (maxBackoff u) envs 0 u);
    auto.
  cbn [Z.of_nat Z.pow]. lia.
Qed.

Lemma reconnect_backoff_schedule_witness :
  exists u' rs,
    calls lost (map CallGetDOA (repeat env_gone 3)) = Some (u', rs) /\
    map fst rs
    = map (fun i => [OpSleep (Z.min (reconnectBackoff lost * 2 ^ Z.of_nat i)
                                    (maxBackoff lost));
                     OpOpen VendorID ProductID])
          (seq 0 (length (repeat env_gone 3))) /\
    Forall failed_call rs /\
    ConsecutiveErrors (Stats u') = ConsecutiveErrors (Stats lost) /\
    StatsHealthy (Stats u') = StatsHealthy (Stats lost).
Proof.
  apply (reconnect_backoff_schedule lost (repeat env_gone 3)).
  - reflexivity.
  - reflexivity.
  - vm_compute. split; discriminate.
  - vm_compute. discriminate.
  - repeat constructor.
Defined.

Lemma recordError_closed (u : USBSource) (e : error) (now : time.Time) :
  closed (fst (recordError u e now)) = closed u.
Proof.
  unfold recordError. cbn -[wrap_i64 Z.leb].
  destruct (_ <=? _); [|reflexivity]. destruct (dev u); reflexivity.
Qed.

(** X14.  [GetDOA] returns on every source and whatever the device
    answers: the device is never used where there is none.  The call
    leaves the closed flag as it was, and when it returns a reading the
    source is healthy, counts no error and has its device. *)
Theorem GetDOA_returns (u : USBSource) (env : UsbEnv) :
  exists u' ops r,
    GetDOA u env = Some (u', ops, r) /\
    closed u' = closed u /\
    (forall rd, r = inl rd ->
       closed u = false /\ Healthy u' = true /\
       ConsecutiveErrors (Stats u') = 0 /\
       DeviceConnected (Stats u') = true).
Proof.
  unfold GetDOA. destruct (closed u) eqn:Hc.
  - do 3 eexists. split; [reflexivity|]. split; [exact Hc|].
    intros rd H. discriminate.
  - assert (R : exists u1 ops1 rc,
               match dev u with
               | Some _ => (u, [], None)
               | None => reconnect u env
               end = (u1, ops1, rc) /\ closed u1 = false /\
               (rc = None -> exists d, dev u1 = Some d)).
    { destruct (dev u) as [d|] eqn:Hd.
      - do 3 eexists. split; [reflexivity|]. split; [exact Hc|].
        intros _. exists d. exact Hd.
      - unfold reconnect, openDevice. cbn -[wrap_i64 Z.ltb Z.mul].
        destruct (maxBackoff u <? wrap_i64 (reconnectBackoff u * 2));
          destruct (open_answer env) as [d| |cause];
          do 3 eexists; (split; [reflexivity|]);
          (split; [exact Hc|]); intro H; try discriminate;
          exists d; reflexivity. }
    destruct R as (u1 & ops1 & rc & -> & Hc1 & Hd1).
    destruct rc as [err|].
    + do 3 eexists. split; [reflexivity|]. split; [exact Hc1|].
      intros rd H. discriminate.
    + destruct (Hd1 eq_refl) as [d Hd]. rewrite Hd.
      destruct (doa_answer env) as [n buf|cause].
      * destruct (n <? 9).
        -- pose proof (recordError_closed u1 (ShortRead n) (now_error env))
             as Hr.
           destruct (recordError u1 (ShortRead n) (now_error env)).
           do 3 eexists. split; [reflexivity|].
           split; [cbn in Hr; congruence|]. intros rd H. discriminate.
        -- destruct (negb (byte_at (buffer 9 buf) 0 =? 0)).
           ++ pose proof (recordError_closed u1
                            (DeviceStatus (byte_at (buffer 9 buf) 0))
                            (now_error env)) as Hr.
              destruct (recordError u1 _ (now_error env)).
              do 3 eexists. split; [reflexivity|].
              split; [cbn in Hr; congruence|]. intros rd H. discriminate.
           ++ do 3 eexists. split; [reflexivity|].
              split; [exact Hc1|]. intros rd _.
              cbn. rewrite Hd. auto.
      * pose proof (recordError_closed u1 (TransferFailed cause)
                      (now_error env)) as Hr.
        destruct (recordError u1 _ (now_error env)).
        do 3 eexists. split; [reflexivity|].
        split; [cbn in Hr; congruence|]. intros rd H. discriminate.
Qed.

(** X15.  [NewSourceWithFallback] always returns a healthy source.  When
    the device opens it is the USB source with the default configuration,
    holding the device; when it does not, the USB context is closed again
    and the source is the mock, which faces the front. *)
Theorem NewSourceWithFallback_healthy (env : UsbEnv) (now : time.Time) :
  exists ops s,
    NewSourceWithFallback env now = (ops, s) /\
    SourceHealthy s = true /\
    (forall d, open_answer env = Opened d ->
       ops = [OpOpen VendorID ProductID; OpSetAutoDetach d] /\
       exists u, s = UsbSource u /\ dev u = Some d /\
         closed u = false /\
         maxErrors u = MaxConsecutiveErrors DefaultUSBSourceConfig /\
         reconnectBackoff u = InitialBackoff DefaultUSBSourceConfig /\
         maxBackoff u = MaxBackoff DefaultUSBSourceConfig) /\
    (open_fails env = true ->
       ops = [OpOpen VendorID ProductID; OpCloseContext] /\
       s = Mock (NewMockSource now) /\
       doa.ToEvaAngle (angle (NewMockSource now)) == 0).
Proof.
  unfold NewSourceWithFallback, NewSource, NewUSBSource,
    NewUSBSourceWithConfig, openDevice, open_fails.
  destruct (open_answer env) as [d| |cause]; cbn;
    do 2 eexists; (split; [reflexivity|]); (split; [reflexivity|]); split;
    try (intros d' H; discriminate); try (intro H; discriminate).
  - intros d' H. injection H as <-. split; [reflexivity|].
    eexists. repeat split.
  - intros _. repeat split.
  - intros _. repeat split.
Qed.

End UsbHealth.

(* ================================================================== *)
(** * More on the codec: frames *)
(* ================================================================== *)

Section FrameCodec.

Import json JsonText protocol.
Local Open Scope char_scope.

Lemma solid_char_plain (c : ascii) :
  solid_char c = true -> plain_char c = true /\ is_space c = false.
Proof.
  unfold solid_char. intro H. apply andb_true_iff in H.
  destruct H as [H1 H2]. apply negb_true_iff in H2. auto.
Qed.

Lemma solid_plain (s : list ascii) : solid s = true -> plain s = true.
Proof.
  unfold solid, plain. induction s as [|c s IH]; [reflexivity|].
  cbn [forallb]. intro H. apply andb_true_iff in H. destruct H as [H1 H2].
  destruct (solid_char_plain c H1) as [Hp _]. rewrite Hp, (IH H2).
  reflexivity.
Qed.

Lemma solid_tight (s : list ascii) : solid s = true -> tight s = true.
Proof.
  unfold solid, tight. induction s as [|c s IH]; [reflexivity|].
  cbn [forallb]. intro H. apply andb_true_iff in H. destruct H as [H1 H2].
  rewrite (IH H2). unfold tight_char.
  destruct (solid_char_plain c H1) as [Hp Hs]. rewrite Hp, Hs. reflexivity.
Qed.

Lemma tight_app (a b : list ascii) :
  tight (a ++ b) = tight a && tight b.
Proof. apply forallb_app. Qed.

Lemma tight_quoted (s : list ascii) :
  solid s = true -> tight (quoted s) = true.
Proof.
  intro H. unfold quoted. change (dq :: s ++ [dq]) with ([dq] ++ s ++ [dq]).
  rewrite !tight_app, (solid_tight s H). reflexivity.
Qed.

Lemma tight_char_facts (c : ascii) :
  tight_char c = true ->
  is_html c = false /\ (c =? bs)%char = false /\ is_space c = false /\
  (forall c2 c3, line_sep c c2 c3 = None).
Proof.
  unfold tight_char. intro H. apply andb_true_iff in H.
  destruct H as [H1 H2]. apply negb_true_iff in H2.
  apply orb_true_iff in H1. destruct H1 as [Hp|Hq].
  - destruct (plain_char_facts c Hp) as (_ & Hb & _ & Hh & _).
    repeat split; auto. intros c2 c3. apply line_sep_plain. exact Hp.
  - apply Ascii.eqb_eq in Hq. subst c. repeat split.
Qed.

(** [Compact] changes nothing in a text of tight bytes. *)
Lemma compact_go_tight (s : list ascii) : forall in_str,
  tight s = true -> compact_go in_str false s = s.
Proof.
  induction s as [|c r IH]; intros in_str H; [reflexivity|].
  unfold tight in H. cbn [forallb] in H. apply andb_true_iff in H.
  destruct H as [Hc Hr].
  destruct (tight_char_facts c Hc) as (Hh & Hb & Hs & Hl).
  cbn [compact_go]. rewrite Hh, Hb, Hs.
  rewrite !andb_false_r. cbn [negb andb].
  destruct r as [|c2 [|c3 r']].
  - reflexivity.
  - rewrite (IH _ Hr). reflexivity.
  - rewrite Hl, (IH _ Hr). reflexivity.
Qed.

Lemma solid_uint_chars (d : Decimal.uint) :
  solid (strconv.uint_chars d) = true.
Proof. induction d; cbn [strconv.uint_chars]; [reflexivity | exact IHd ..]. Qed.

Lemma solid_Itoa (z : Z) : solid (strconv.Itoa z) = true.
Proof.
  unfold strconv.Itoa. destruct (Z.to_int z); [apply solid_uint_chars|].
  change (solid ("-" :: strconv.uint_chars d))
    with (solid_char "-" && solid (strconv.uint_chars d)).
  rewrite solid_uint_chars. reflexivity.
Qed.

Lemma solid_enc (n : N) : solid_char (base64.enc n) = true.
Proof.
  unfold base64.enc. generalize (N.to_nat n) as k. intro k.
  do 65 (destruct k as [|k]; [reflexivity|]). reflexivity.
Qed.

Lemma solid_EncodeToString (n : nat) : forall s,
  (length s <= n)%nat -> solid (base64.EncodeToString s) = true.
Proof.
  induction n as [|n IH]; intros s H.
  - destruct s; [reflexivity | cbn [length] in H; lia].
  - destruct s as [|a [|b [|c r]]].
    + reflexivity.
    + cbn [base64.EncodeToString]. unfold solid. cbn [forallb].
      rewrite !solid_enc. reflexivity.
    + cbn [base64.EncodeToString]. unfold solid. cbn [forallb].
      rewrite !solid_enc. reflexivity.
    + cbn [base64.EncodeToString]. unfold solid. cbn [forallb].
      rewrite !solid_enc. cbn [andb].
      apply IH. cbn [length] in H. lia.
Qed.

Lemma members_body_length (ms : list (list ascii * list ascii)) :
  (length ms <= length (members_body ms))%nat.
Proof.
  induction ms as [|[k v] rest IH]; [cbn; lia|].
  pose proof (members_body_cons k v rest []) as E.
  rewrite app_nil_r in E. rewrite E. clear E.
  cbn [length]. rewrite length_app. cbn [length]. rewrite length_app.
  destruct rest as [|kv rest'].
  - cbn [length]. lia.
  - rewrite app_nil_r. cbn [length] in *. lia.
Qed.

Lemma members_body_tight (ms : list (list ascii * list ascii)) :
  Forall (fun kv => solid (fst kv) = true /\ tight (snd kv) = true) ms ->
  tight (members_body ms) = true.
Proof.
  induction ms as [|[k v] rest IH]; intro H; [reflexivity|].
  inversion H as [|? ? [Hk Hv] Hrest]; subst. cbn [fst snd] in *.
  pose proof (members_body_cons k v rest []) as E.
  rewrite app_nil_r in E. rewrite E. clear E.
  change (dq :: k ++ dq :: ":" :: v ++ match rest with
                                       | [] => ["}"]
                                       | _ :: _ => "," :: members_body rest ++ []
                                       end)
    with ([dq] ++ k ++ [dq; ":"] ++ v ++ match rest with
                                         | [] => ["}"]
                                         | _ :: _ => "," :: members_body rest ++ []
                                         end).
  rewrite !tight_app, (solid_tight k Hk), Hv.
  destruct rest as [|kv rest']; [reflexivity|].
  rewrite app_nil_r.
  change ("," :: members_body (kv :: rest'))
    with ([","] ++ members_body (kv :: rest')).
  rewrite tight_app, (IH Hrest). reflexivity.
Qed.

(** An object of good members with solid names and tight values is a
    text as [Marshal] produces it. *)
Lemma Canonical_object (ms : list (list ascii * list ascii)) :
  ms <> [] -> Forall (good_member 1) ms ->
  Forall (fun kv => solid (fst kv) = true /\ tight (snd kv) = true) ms ->
  Canonical ("{" :: members_body ms).
Proof.
  intros Hne Hg Ht. split.
  - unfold fuel_for. cbn [length].
    replace (2 * S (length (members_body ms)) + 2)%nat
      with (S (2 * length (members_body ms) + 3)) by lia.
    pose proof (members_body_length ms) as Hl.
    assert (Hf : (1 + length ms <= 2 * length (members_body ms) + 3)%nat)
      by lia.
    pose proof (scan_members_body 1 ms _ [] Hne Hg Hf) as H.
    rewrite app_nil_r in H.
    destruct (members_body_head ms Hne) as [r Hr]. rewrite Hr in *.
    rewrite (scan_value_object _ dq r eq_refl eq_refl). exact H.
  - apply compact_go_tight.
    change ("{" :: members_body ms) with (["{"] ++ members_body ms).
    rewrite tight_app, (members_body_tight ms Ht). reflexivity.
Qed.

Lemma frame_members_text (f : FrameData) :
  plain (Format f) = true -> plain (FrameBytes f) = true ->
  marshalFrameData f = "{" :: members_body (frame_members f).
Proof.
  intros Hf Hb. unfold marshalFrameData, frame_members.
  rewrite (encode_string_plain _ Hf), (encode_string_plain _ Hb).
  destruct (FrameID f =? 0)%Z; cbn [members_body app];
    unfold key, quoted; cbn [app];
    repeat (rewrite <- ?app_assoc; cbn [app]); reflexivity.
Qed.

Lemma frame_members_ok (f : FrameData) :
  solid (Format f) = true -> solid (FrameBytes f) = true ->
  frame_members f <> [] /\
  Forall (good_member 1) (frame_members f) /\
  Forall (fun kv => solid (fst kv) = true /\ tight (snd kv) = true)
         (frame_members f).
Proof.
  intros Hf Hb. unfold frame_members. split; [discriminate|]. split.
  - apply Forall_app. split.
    + constructor; [split; [reflexivity | apply good_Itoa; lia]|].
      constructor; [split; [reflexivity | apply good_Itoa; lia]|].
      constructor;
        [split; [reflexivity
                | apply good_quoted; [lia | apply solid_plain; exact Hf]]|].
      constructor;
        [split; [reflexivity
                | apply good_quoted; [lia | apply solid_plain; exact Hb]]|].
      constructor.
    + destruct (FrameID f =? 0)%Z; constructor; [|constructor].
      split; [reflexivity | apply good_Itoa; lia].
  - apply Forall_app. split.
    + constructor;
        [split; [reflexivity | apply solid_tight; apply solid_Itoa]|].
      constructor;
        [split; [reflexivity | apply solid_tight; apply solid_Itoa]|].
      constructor; [split; [reflexivity | apply tight_quoted; exact Hf]|].
      constructor; [split; [reflexivity | apply tight_quoted; exact Hb]|].
      constructor.
    + destruct (FrameID f =? 0)%Z; constructor; [|constructor].
      split; [reflexivity | apply solid_tight; apply solid_Itoa].
Qed.

(** The payload of every frame message is a text as [Marshal] produces
    it. *)
Lemma frame_payload_canonical (width height : Z) (jpegData : list ascii)
    (frameID : Z) :
  Canonical (marshalFrameData (frame_of width height jpegData frameID)).
Proof.
  set (f := frame_of width height jpegData frameID).
  assert (Hf : solid (Format f) = true) by reflexivity.
  assert (Hb : solid (FrameBytes f) = true)
    by (apply (solid_EncodeToString (length jpegData)); lia).
  rewrite (frame_members_text f (solid_plain _ Hf) (solid_plain _ Hb)).
  destruct (frame_members_ok f Hf Hb) as (Hne & Hg & Ht).
  apply Canonical_object; assumption.
Qed.

(** X16.  For every size, every sequence of bytes, every frame number
    and every time that fits [int64], [NewFrameMessage] returns a message
    of type [frame] with that time, whose payload is the frame with the
    bytes in base64; the message serializes, and [ParseMessage] of its
    bytes gives the message back. *)
Theorem frame_round_trip (width height : Z) (jpegData : list ascii)
    (frameID now : Z) :
  (Num.minInt64 <= now <= Num.maxInt64)%Z ->
  exists m bytes,
    NewFrameMessage width height jpegData frameID now = inl m /\
    Type_ m = TypeFrame /\ Timestamp m = now /\
    Data m = marshalFrameData (frame_of width height jpegData frameID) /\
    Bytes m = inl bytes /\
    ParseMessage bytes = inl m.
Proof.
  intro Hn.
  set (m := {| Type_ := TypeFrame; Timestamp := now;
               Data := marshalFrameData
                         (frame_of width height jpegData frameID) |}).
  assert (Ho : payload_ok (Data m))
    by (right; apply frame_payload_canonical).
  assert (Hp : plain (Type_ m) = true) by reflexivity.
  exists m, ("{" :: members_body (message_members m)).
  split; [reflexivity|]. split; [reflexivity|]. split; [reflexivity|].
  split; [reflexivity|]. split.
  - apply marshal_text; assumption.
  - apply ParseMessage_object; assumption.
Qed.

Lemma frame_round_trip_witness :
  exists m bytes,
    NewFrameMessage 640 480 (list_ascii_of_string "test") 1
                    CodecRuns.some_now = inl m /\
    Type_ m = TypeFrame /\ Timestamp m = CodecRuns.some_now /\
    Data m = marshalFrameData
               (frame_of 640 480 (list_ascii_of_string "test") 1) /\
    Bytes m = inl bytes /\
    ParseMessage bytes = inl m.
Proof.
  apply (frame_round_trip 640 480 (list_ascii_of_string "test") 1
           CodecRuns.some_now).
  split; vm_compute; discriminate.
Defined.

Lemma three_more (n : nat) :
  ((S (S (S n)) + 2) / 3 = S ((n + 2) / 3))%nat.
Proof.
  replace (S (S (S n)) + 2)%nat with ((n + 2) + 1 * 3)%nat by lia.
  rewrite Nat.div_add by lia. lia.
Qed.

Lemma EncodeToString_shape (n : nat) : forall s,
  (length s <= n)%nat ->
  length (base64.EncodeToString s) = (4 * ((length s + 2) / 3))%nat /\
  Forall (fun c => In c base64.alphabet \/ c = base64.pad)
         (base64.EncodeToString s).
Proof.
  assert (A : forall k, In (base64.enc k) base64.alphabet).
  { intro k. unfold base64.enc. generalize (N.to_nat k) as j. intro j.
    destruct (nth_in_or_default j base64.alphabet "A") as [H|H];
      [exact H|].
    rewrite H. left. reflexivity. }
  induction n as [|n IH]; intros s H.
  - destruct s; [split; [reflexivity | constructor] | cbn [length] in H; lia].
  - destruct s as [|a [|b [|c r]]].
    + split; [reflexivity | constructor].
    + cbn [base64.EncodeToString]. split; [reflexivity|].
      constructor; [left; apply A|]. constructor; [left; apply A|].
      constructor; [right; reflexivity|].
      constructor; [right; reflexivity|]. constructor.
    + cbn [base64.EncodeToString]. split; [reflexivity|].
      constructor; [left; apply A|]. constructor; [left; apply A|].
      constructor; [left; apply A|].
      constructor; [right; reflexivity|]. constructor.
    + cbn [base64.EncodeToString length].
      destruct (IH r) as [Hl Hc]; [cbn [length] in H; lia|].
      split.
      * rewrite Hl, three_more. lia.
      * repeat (constructor; [left; apply A|]). exact Hc.
Qed.

(** X17.  The base64 text of n bytes has 4 characters for every 3 bytes
    or part of 3 bytes, all of them from the alphabet of the standard
    encoding or the padding character, and none that a JSON string has to
    escape. *)
Theorem EncodeToString_text (s : list ascii) :
  length (base64.EncodeToString s) = (4 * ((length s + 2) / 3))%nat /\
  Forall (fun c => In c base64.alphabet \/ c = base64.pad)
         (base64.EncodeToString s) /\
  encode_string (base64.EncodeToString s)
  = quoted (base64.EncodeToString s).
Proof.
  destruct (EncodeToString_shape (length s) s (le_n _)) as [Hl Hc].
  split; [exact Hl|]. split; [exact Hc|].
  apply encode_string_plain, solid_plain.
  apply (solid_EncodeToString (length s)). lia.
Qed.

End FrameCodec.

(* ================================================================== *)
(** * More on the cloud client *)
(* ================================================================== *)

Section CloudInvariants.

Import cloud CloudRuns.
Local Open Scope Z_scope.
Context {D : PayloadDecoder}.

(** What every step keeps, and what holds of the actions of every step
    from a machine that has it, holds along every run. *)
Lemma run_invariant (P : Machine -> Prop) (Q : Action -> Prop) :
  (forall m e, P m -> P (fst (step m e)) /\ Forall Q (snd (step m e))) ->
  forall es m, P m -> P (fst (run m es)) /\ Forall Q (snd (run m es)).
Proof.
  intros Hstep. induction es as [|e es IH]; intros m Hm.
  - split; [exact Hm | constructor].
  - cbn [run]. destruct (Hstep m e Hm) as [H1 H2].
    destruct (step m e) as [m1 a1]. cbn [fst snd] in *.
    destruct (IH m1 H1) as [H3 H4].
    destruct (run m1 es) as [m2 a2]. cbn [fst snd] in *.
    split; [exact H3 | apply Forall_app; auto].
Qed.

Lemma closeConnection_spec (c : Client) :
  linked (fst (closeConnection c)) /\
  connected (fst (closeConnection c)) = false /\
  conn (fst (closeConnection c)) = None /\
  cancel (fst (closeConnection c)) = cancel c /\
  messagesSent (fst (closeConnection c)) = messagesSent c /\
  Forall quiet_action (snd (closeConnection c)).
Proof.
  unfold closeConnection, linked.
  destruct (conn c); cbn; repeat split; repeat constructor.
Qed.

Lemma SendMessage_spec (c : Client) (msg : protocol.Message)
    (write : option string) :
  (linked c -> linked (fst (fst (SendMessage c msg write)))) /\
  cancel (fst (fst (SendMessage c msg write))) = cancel c /\
  Forall quiet_action (snd (fst (SendMessage c msg write))) /\
  (forall cb kind payload,
     ~ In (ActInvoke cb kind payload) (snd (fst (SendMessage c msg write)))).
Proof.
  unfold SendMessage.
  destruct (connected c) eqn:Hc; [|cbn; repeat split; auto].
  destruct (conn c) as [k|] eqn:Hk; [|cbn; repeat split; auto].
  destruct (protocol.marshalMessage msg) as [data|cause];
    [|cbn; repeat split; auto].
  destruct write as [cause|].
  - destruct (closeConnection_spec c) as (L & _ & _ & Ca & _ & Q).
    unfold closeConnection in *. rewrite Hk in *. cbn in *.
    split; [intros _; exact L|]. split; [reflexivity|].
    split; [repeat constructor|].
    intros cb kind payload [H|[H|H]]; try discriminate; contradiction.
  - cbn. split; [intro L; unfold linked in *; cbn; exact L|].
    split; [reflexivity|]. split; [repeat constructor|].
    intros cb kind payload [H|H]; [discriminate | contradiction].
Qed.

Lemma dispatch_spec (slot : option Callback) (msg : protocol.Message) :
  Forall quiet_action (dispatch slot msg) /\
  (forall cb kind payload,
     In (ActInvoke cb kind payload) (dispatch slot msg) ->
     slot = Some cb /\ kind = protocol.Type_ msg /\
     payload = protocol.Data msg /\ decodes kind payload = true).
Proof.
  unfold dispatch. destruct slot as [cb0|]; [|split; [constructor|]].
  - destruct (decodes (protocol.Type_ msg) (protocol.Data msg)) eqn:E.
    + split; [repeat constructor|].
      intros cb kind payload [H|H]; [|contradiction].
      injection H as <- <- <-. auto.
    + split; [constructor|]. intros cb kind payload H. contradiction.
  - intros cb kind payload H. contradiction.
Qed.

Lemma handleMessage_spec (c : Client) (data : list ascii) (now : Z)
    (write : option string) :
  (linked c -> linked (fst (handleMessage c data now write))) /\
  cancel (fst (handleMessage c data now write)) = cancel c /\
  Forall quiet_action (snd (handleMessage c data now write)).
Proof.
  unfold handleMessage.
  destruct (protocol.ParseMessage data) as [msg|e];
    [|cbn; repeat split; auto].
  repeat (match goal with
          | |- context [if is_type ?m ?t then _ else _] =>
              destruct (is_type m t)
          end;
          [cbn [fst snd]; repeat split; auto; apply dispatch_spec|]).
  destruct (is_type msg protocol.TypePing).
  - destruct (SendMessage_spec c
                {| protocol.Type_ := protocol.TypePong;
                   protocol.Timestamp := now; protocol.Data := [] |}
                write) as (L & Ca & Q & _).
    destruct (SendMessage c _ write) as [[c' acts] r]. cbn in *. auto.
  - cbn. repeat split; auto.
Qed.

Ltac open_calls :=
  repeat match goal with
  | |- context [closeConnection ?c] =>
      pose proof (closeConnection_spec c);
      pose proof (proj1 (closeConnection_cfg c));
      destruct (closeConnection c)
  | |- context [handleMessage ?c ?d ?n ?w] =>
      pose proof (handleMessage_spec c d n w);
      pose proof (handleMessage_cfg c d n w);
      destruct (handleMessage c d n w)
  | |- context [SendMessage ?c ?msg ?w] =>
      pose proof (SendMessage_spec c msg w);
      pose proof (SendMessage_cfg c msg w);
      destruct (SendMessage c msg w) as [[? ?] ?]
  | |- context [if ctx_done ?m then _ else _] => destruct (ctx_done m) eqn:?
  | |- context [if cancel ?c then _ else _] => destruct (cancel c) eqn:?
  | |- context [match conn ?c with _ => _ end] => destruct (conn c) eqn:?
  | |- context [match place ?m with _ => _ end] => destruct (place m) eqn:?
  | |- context [protocol.NewFrameMessage ?a ?b ?c ?d ?e] =>
      destruct (protocol.NewFrameMessage a b c d e)
  end.

Ltac each_step e w :=
  destruct e as [w| | | |?msg ?write|? ? ? ? ? ?|?s ?cb];
  cbn [step];
  [unfold loop_step;
   match goal with
   | |- context [match place ?m with _ => _ end] =>
       destruct (place m) as [[| | | |?k|]|] eqn:?; destruct w
   end
  | | | unfold Close | | unfold SendFrame | ];
  open_calls; cbn in *.

Lemma step_linked (m : Machine) (e : Event) :
  linked (client m) -> linked (client (fst (step m e))).
Proof.
  intro L. each_step e w; unfold linked in *; cbn in *;
    try tauto; try (destruct s; exact L).
Qed.

(** X18.  In every state that the client reaches from [NewClient] with
    at most one call of [Connect], [IsConnected] answers true exactly
    when the client holds a connection, and [SendMessage] returns the
    not-connected error, writing nothing, exactly when [IsConnected]
    answers false. *)
Theorem connected_has_handle (c0 : Config) (es : list Event)
    (msg : protocol.Message) (write : option string) :
  (connects es <= 1)%nat ->
  let c := client (fst (run (Start (NewClient c0)) es)) in
  (IsConnected c = true <-> exists k, conn c = Some k) /\
  (IsConnected c = false
   <-> SendMessage c msg write = (c, [], Some NotConnected)).
Proof.
  intros _ c.
  assert (L : linked c).
  { apply (run_invariant (fun m => linked (client m)) (fun _ => True)).
    - intros m e H. split; [apply step_linked; exact H|].
      apply Forall_forall. auto.
    - reflexivity. }
  unfold linked, IsConnected in *. split.
  - destruct (conn c) as [k|]; rewrite L.
    + split; [intros _; exists k; reflexivity | reflexivity].
    + split; [discriminate | intros [k H]; discriminate].
  - split.
    + intro H. apply SendMessage_disconnected. left. exact H.
    + unfold SendMessage. destruct (connected c); [|reflexivity].
      destruct (conn c) as [k|]; [|discriminate].
      destruct (protocol.marshalMessage msg); [|discriminate].
      destruct write.
      * destruct (closeConnection c). discriminate.
      * discriminate.
Qed.

Lemma step_cancel (m : Machine) (e : Event) :
  cancel (client m) = true -> cancel (client (fst (step m e))) = true.
Proof.
  intro L. each_step e w;
    try (destruct s; exact L); intuition congruence.
Qed.

Lemma quiet_no_dial (acts : list Action) :
  Forall quiet_action acts -> Forall (fun a => is_dial a = false) acts.
Proof. apply Forall_impl. intros a [H _]. exact H. Qed.

Lemma step_done (m : Machine) (e : Event) :
  ctx_done m = true ->
  ctx_done (fst (step m e)) = true /\
  Forall (fun a => is_dial a = false) (snd (step m e)).
Proof.
  intro L. each_step e w; try congruence;
    (split; [congruence|]);
    first [ apply quiet_no_dial; tauto | repeat constructor ].
Qed.

Lemma fst_run_app (es1 es2 : list Event) (m : Machine) :
  fst (run m (es1 ++ es2)) = fst (run (fst (run m es1)) es2).
Proof.
  rewrite run_app. destruct (run m es1) as [m1 a1]. cbn [fst].
  destruct (run m1 es2). reflexivity.
Qed.

Lemma run_cancel (es : list Event) (m : Machine) :
  cancel (client m) = true -> cancel (client (fst (run m es))) = true.
Proof.
  intro H.
  apply (run_invariant (fun m => cancel (client m) = true) (fun _ => True));
    [|exact H].
  intros m' e H'. split; [apply step_cancel; exact H'|].
  apply Forall_forall. auto.
Qed.

(** X19.  After [Connect], whatever happens next, a call of [Close]
    cancels the loop and leaves the client disconnected, and from then on
    the client never dials again, whatever the loop and the callers do
    short of calling [Connect] once more. *)
Theorem Close_stops_dialing (c0 : Config) (es1 es2 : list Event) :
  connects (es1 ++ es2) = 0%nat ->
  let m := fst (run (Start (NewClient c0))
                    (CallConnect :: es1 ++ [CallClose])) in
  ctx_done m = true /\
  IsConnected (client m) = false /\
  Forall (fun a => is_dial a = false) (snd (run m es2)) /\
  ctx_done (fst (run m es2)) = true.
Proof.
  intros _ m.
  assert (Hd : ctx_done m = true /\ IsConnected (client m) = false).
  { unfold m.
    change (CallConnect :: es1 ++ [CallClose])
      with ([CallConnect] ++ es1 ++ [CallClose]).
    rewrite !fst_run_app.
    set (m0 := fst (run (Start (NewClient c0)) [CallConnect])).
    assert (H0 : cancel (client m0) = true) by reflexivity.
    pose proof (run_cancel es1 m0 H0) as H1.
    set (m1 := fst (run m0 es1)) in *.
    cbn [run step]. unfold Close.
    pose proof (closeConnection_spec (client m1)) as (_ & Hc & _).
    destruct (closeConnection (client m1)) as [c' acts]. cbn in *.
    rewrite H1. split; [reflexivity | exact Hc]. }
  destruct Hd as [Hd Hc]. split; [exact Hd|]. split; [exact Hc|].
  destruct (run_invariant (fun m => ctx_done m = true)
              (fun a => is_dial a = false) step_done es2 m Hd) as [H1 H2].
  split; assumption.
Qed.

Lemma quiet_no_wait (P : time.Duration -> Prop) (acts : list Action) :
  Forall quiet_action acts ->
  Forall (fun a => forall d, a = ActWait d -> P d) acts.
Proof.
  apply Forall_impl. intros a [_ H] d E. subst a. discriminate.
Qed.

Lemma step_backoff (c0 : Config) (m : Machine) (e : Event) :
  backoff_ok c0 m ->
  backoff_ok c0 (fst (step m e)) /\
  Forall (fun a => forall d, a = ActWait d ->
                   d = ReconnectBackoff c0 \/ d <= MaxBackoff c0)
         (snd (step m e)).
Proof.
  intros [Hc Hb]. unfold backoff_ok.
  each_step e w;
    try match goal with
        | |- context [?a <? ?b] => destruct (Z.ltb_spec a b)
        end;
    try rewrite Hc in *;
    (split; [split; [try (destruct s; cbn); intuition congruence
                    | intuition (try congruence; try lia)]|]);
    first [ apply quiet_no_wait; tauto
          | apply Forall_nil
          | (apply Forall_cons; [|apply Forall_nil]);
            intros d E; try discriminate;
            injection E as <-; intuition congruence ].
Qed.

(** X20.  From [NewClient] on, with at most one call of [Connect],
    whatever the loop and the callers do, every wait of the client before
    a new attempt to connect lasts the initial backoff or at most
    [MaxBackoff]. *)
Theorem waits_bounded (c0 : Config) (es : list Event) :
  (connects es <= 1)%nat ->
  Forall (fun a => forall d, a = ActWait d ->
                   d = ReconnectBackoff c0 \/ d <= MaxBackoff c0)
         (snd (run (Start (NewClient c0)) es)).
Proof.
  intros _. apply (run_invariant (backoff_ok c0)).
  - apply step_backoff.
  - split; [reflexivity | left; reflexivity].
Qed.

Lemma handler_of (c : Client) :
  handler c protocol.TypeMotor = onMotorCommand c /\
  handler c protocol.TypeEmotion = onEmotionCommand c /\
  handler c protocol.TypeSpeak = onSpeakData c /\
  handler c protocol.TypeConfig = onConfigUpdate c.
Proof. repeat split. Qed.

(** X21.  [handleMessage] ignores what does not parse: nothing is done
    and the client is unchanged.  It never calls a callback other than
    the one registered for the type of the message, and calls it with the
    payload of the message, only when the payload decodes.  Only a ping
    can change the client. *)
Theorem handleMessage_dispatch (c : Client) (data : list ascii) (now : Z)
    (write : option string) :
  (forall e, protocol.ParseMessage data = inr e ->
     handleMessage c data now write = (c, [])) /\
  (forall cb kind payload,
     In (ActInvoke cb kind payload)
        (snd (handleMessage c data now write)) ->
     exists msg, protocol.ParseMessage data = inl msg /\
       kind = protocol.Type_ msg /\ payload = protocol.Data msg /\
       handler c kind = Some cb /\ decodes kind payload = true) /\
  (forall msg, protocol.ParseMessage data = inl msg ->
     protocol.Type_ msg <> protocol.TypePing ->
     fst (handleMessage c data now write) = c).
Proof.
  destruct (handler_of c) as (Hm & He & Hs & Hg).
  unfold handleMessage.
  destruct (protocol.ParseMessage data) as [msg|e0].
  - split; [intros e H; discriminate|].
    unfold is_type.
    destruct (list_eq_dec ascii_dec (protocol.Type_ msg) protocol.TypeMotor)
      as [E|_].
    { split; [|reflexivity]. cbn [snd]. intros cb kind payload H.
      apply dispatch_spec in H. destruct H as (S & -> & -> & Dc).
      exists msg. repeat split; auto. rewrite E, Hm. exact S. }
    destruct (list_eq_dec ascii_dec (protocol.Type_ msg) protocol.TypeEmotion)
      as [E|_].
    { split; [|reflexivity]. cbn [snd]. intros cb kind payload H.
      apply dispatch_spec in H. destruct H as (S & -> & -> & Dc).
      exists msg. repeat split; auto. rewrite E, He. exact S. }
    destruct (list_eq_dec ascii_dec (protocol.Type_ msg) protocol.TypeSpeak)
      as [E|_].
    { split; [|reflexivity]. cbn [snd]. intros cb kind payload H.
      apply dispatch_spec in H. destruct H as (S & -> & -> & Dc).
      exists msg. repeat split; auto. rewrite E, Hs. exact S. }
    destruct (list_eq_dec ascii_dec (protocol.Type_ msg) protocol.TypeConfig)
      as [E|_].
    { split; [|reflexivity]. cbn [snd]. intros cb kind payload H.
      apply dispatch_spec in H. destruct H as (S & -> & -> & Dc).
      exists msg. repeat split; auto. rewrite E, Hg. exact S. }
    destruct (list_eq_dec ascii_dec (protocol.Type_ msg) protocol.TypePing)
      as [E|_].
    + split.
      * intros cb kind payload H. exfalso.
        pose proof (SendMessage_spec c
                      {| protocol.Type_ := protocol.TypePong;
                         protocol.Timestamp := now; protocol.Data := [] |}
                      write) as (_ & _ & _ & N).
        destruct (SendMessage c _ write) as [[c' acts] r].
        exact (N cb kind payload H).
      * intros msg' Hm' Hp. injection Hm' as <-. congruence.
    + split; [intros cb kind payload H; contradiction | reflexivity].
  - split; [reflexivity|]. split; [|intros msg H; discriminate].
    intros cb kind payload H. contradiction.
Qed.

(** X22.  On a connected client a ping that arrives at a time that fits
    [int64] is answered at once with one write: a message that parses as
    a pong with that time and no payload, and that counts as a message
    sent.  When the write fails the connection is closed. *)
Theorem ping_answered (c : Client) (k : Conn) (data : list ascii)
    (msg : protocol.Message) (now : Z) :
  connected c = true -> conn c = Some k ->
  protocol.ParseMessage data = inl msg ->
  protocol.Type_ msg = protocol.TypePing ->
  Num.minInt64 <= now <= Num.maxInt64 ->
  exists bytes,
    handleMessage c data now None
    = (sent_one c, [ActWrite k (WriteTimeout (cfg c)) bytes]) /\
    protocol.ParseMessage bytes = inl (pong now) /\
    (forall cause, exists c',
       handleMessage c data now (Some cause)
       = (c', [ActWrite k (WriteTimeout (cfg c)) bytes; ActCloseConn k]) /\
       IsConnected c' = false).
Proof.
  intros Hc Hk Hp Ht Hn.
  assert (Hplain : JsonText.plain (protocol.Type_ (pong now)) = true)
    by reflexivity.
  assert (Hpay : JsonText.payload_ok (protocol.Data (pong now)))
    by (left; reflexivity).
  pose proof (marshal_text (pong now) Hplain Hpay) as Hm.
  pose proof (ParseMessage_object (pong now) Hplain Hpay Hn) as Hq.
  exists ("{"%char
          :: JsonText.members_body (JsonText.message_members (pong now))).
  assert (T : forall w,
             handleMessage c data now w
             = let '(c', acts, _) := SendMessage c (pong now) w in
               (c', acts)).
  { intro w. unfold handleMessage. rewrite Hp. unfold is_type. rewrite Ht.
    reflexivity. }
  split; [|split; [exact Hq|]].
  - rewrite T. unfold SendMessage. rewrite Hc, Hk, Hm. reflexivity.
  - intro cause. rewrite T. unfold SendMessage. rewrite Hc, Hk, Hm.
    unfold closeConnection. rewrite Hk. eexists. split; reflexivity.
Qed.

End CloudInvariants.

Section CloudSending.

Import cloud CloudRuns.
Local Open Scope Z_scope.

(** X23.  On a connected client [SendFrame] makes one write, of a text
    that parses as the frame message with the time of the call; when the
    write succeeds the client has sent one message more; when it fails
    the connection is closed, the write error is returned, no message is
    counted, and every further send returns the not-connected error. *)
Theorem SendFrame_connected (c : Client) (k : Conn) (width height : Z)
    (jpegData : list ascii) (frameID now : Z) :
  connected c = true -> conn c = Some k ->
  Num.minInt64 <= now <= Num.maxInt64 ->
  exists bytes m,
    protocol.ParseMessage bytes = inl m /\
    protocol.Type_ m = protocol.TypeFrame /\
    protocol.Timestamp m = now /\
    protocol.Data m
    = protocol.marshalFrameData
        (JsonText.frame_of width height jpegData frameID) /\
    SendFrame c width height jpegData frameID now None
    = (sent_one c, [ActWrite k (WriteTimeout (cfg c)) bytes], None) /\
    (forall cause, exists c',
       SendFrame c width height jpegData frameID now (Some cause)
       = (c', [ActWrite k (WriteTimeout (cfg c)) bytes; ActCloseConn k],
          Some (WriteFailed cause)) /\
       IsConnected c' = false /\
       MessagesSent (GetStats c') = MessagesSent (GetStats c) /\
       forall msg w, SendMessage c' msg w = (c', [], Some NotConnected)).
Proof.
  intros Hc Hk Hn.
  set (m := {| protocol.Type_ := protocol.TypeFrame;
               protocol.Timestamp := now;
               protocol.Data :=
                 protocol.marshalFrameData
                   (JsonText.frame_of width height jpegData frameID) |}).
  assert (Hplain : JsonText.plain (protocol.Type_ m) = true) by reflexivity.
  assert (Hpay : JsonText.payload_ok (protocol.Data m))
    by (right; apply frame_payload_canonical).
  pose proof (marshal_text m Hplain Hpay) as Hm.
  pose proof (ParseMessage_object m Hplain Hpay Hn) as Hq.
  exists ("{"%char :: JsonText.members_body (JsonText.message_members m)), m.
  split; [exact Hq|]. split; [reflexivity|]. split; [reflexivity|].
  split; [reflexivity|].
  assert (T : forall w,
             SendFrame c width height jpegData frameID now w
             = SendMessage c m w) by reflexivity.
  split.
  - rewrite T. unfold SendMessage. rewrite Hc, Hk, Hm. reflexivity.
  - intro cause. rewrite T. unfold SendMessage. rewrite Hc, Hk, Hm.
    unfold closeConnection. rewrite Hk. eexists.
    split; [reflexivity|]. split; [reflexivity|]. split; [reflexivity|].
    intros msg w. reflexivity.
Qed.

Lemma SendFrame_connected_witness :
  exists bytes m,
    protocol.ParseMessage bytes = inl m /\
    protocol.Type_ m = protocol.TypeFrame /\
    protocol.Timestamp m = CodecRuns.some_now /\
    protocol.Data m
    = protocol.marshalFrameData
        (JsonText.frame_of 640 480 (list_ascii_of_string "test") 1) /\
    SendFrame online 640 480 (list_ascii_of_string "test") 1
              CodecRuns.some_now None
    = (sent_one online,
       [ActWrite 1%nat (WriteTimeout (cfg online)) bytes], None) /\
    (forall cause, exists c',
       SendFrame online 640 480 (list_ascii_of_string "test") 1
                 CodecRuns.some_now (Some cause)
       = (c', [ActWrite 1%nat (WriteTimeout (cfg online)) bytes;
               ActCloseConn 1%nat],
          Some (WriteFailed cause)) /\
       IsConnected c' = false /\
       MessagesSent (GetStats c') = MessagesSent (GetStats online) /\
       forall msg w, SendMessage c' msg w = (c', [], Some NotConnected)).
Proof.
  apply (SendFrame_connected online 1%nat 640 480
           (list_ascii_of_string "test") 1 CodecRuns.some_now).
  - reflexivity.
  - reflexivity.
  - split; vm_compute; discriminate.
Defined.

Lemma connected_has_handle_witness :
  let c := client (fst (run (Start (NewClient DefaultConfig)) dropped)) in
  (IsConnected c = true <-> exists k, conn c = Some k) /\
  (IsConnected c = false
   <-> SendMessage c (pong 0) None = (c, [], Some NotConnected)).
Proof.
  apply (connected_has_handle DefaultConfig dropped (pong 0) None).
  vm_compute. lia.
Defined.

Lemma Close_stops_dialing_witness :
  let m := fst (run (Start (NewClient DefaultConfig))
                    (CallConnect
                       :: [Loop Proceed; Loop (DialOk 1%nat)]
                       ++ [CallClose])) in
  ctx_done m = true /\
  IsConnected (client m) = false /\
  Forall (fun a => is_dial a = false)
         (snd (run m [Loop Proceed; Loop Proceed])) /\
  ctx_done (fst (run m [Loop Proceed; Loop Proceed])) = true.
Proof.
  apply (Close_stops_dialing DefaultConfig
           [Loop Proceed; Loop (DialOk 1%nat)]
           [Loop Proceed; Loop Proceed]).
  reflexivity.
Defined.

Lemma waits_bounded_witness :
  Forall (fun a => forall d, a = ActWait d ->
                   d = ReconnectBackoff DefaultConfig
                   \/ d <= MaxBackoff DefaultConfig)
         (snd (run (Start (NewClient DefaultConfig))
                   [CallConnect; Loop Proceed; Loop (DialErr "refused");
                    Loop TimerFired; Loop Proceed])).
Proof.
  apply (waits_bounded DefaultConfig
           [CallConnect; Loop Proceed; Loop (DialErr "refused");
            Loop TimerFired; Loop Proceed]).
  vm_compute. lia.
Defined.

Lemma ping_answered_witness :
  exists bytes,
    handleMessage online ping_text CodecRuns.some_now None
    = (sent_one online,
       [ActWrite 1%nat (WriteTimeout (cfg online)) bytes]) /\
    protocol.ParseMessage bytes = inl (pong CodecRuns.some_now) /\
    (forall cause, exists c',
       handleMessage online ping_text CodecRuns.some_now (Some cause)
       = (c', [ActWrite 1%nat (WriteTimeout (cfg online)) bytes;
               ActCloseConn 1%nat]) /\
       IsConnected c' = false).
Proof.
  apply (ping_answered online 1%nat ping_text
           {| protocol.Type_ := protocol.TypePing;
              protocol.Timestamp := 0; protocol.Data := [] |}
           CodecRuns.some_now).
  - reflexivity.
  - reflexivity.
  - vm_compute. reflexivity.
  - reflexivity.
  - split; vm_compute; discriminate.
Defined.

End CloudSending.

(* ================================================================== *)
(** * The tracker on a source that stands still *)
(* ================================================================== *)

Section StillSource.

Import Num doa tracker xvf3800 MockRuns.
Local Open Scope Q_scope.


Section Polling.
Context {M : MathLib}.




End Polling.


End StillSource.
